(** * omg/udmf.py: the UDMF text-map editor

    A shallow embedding of [omg/udmf.py]: the UDMF grammar as it is run by
    the TatSu PEG engine, the semantic actions of [UDMFSemantics], the
    object model of [UDMFObject] with its serializer, and the
    locate/load/save logic and the node accessors of [UDMFMapEditor].

    Python [str] and [bytes] are both [string] (a sequence of code points,
    resp. bytes, below 256); Python [int] is [Z]; a Python [dict] is an
    association list in insertion order. *)

From Stdlib Require Import String Ascii List ZArith Lia Bool Arith.
From Stdlib Require Import DecimalString DecimalZ DecimalPos DecimalFacts.
Import ListNotations.
Local Open Scope list_scope.
Local Open Scope string_scope.

(** ** Characters *)

Definition LF : ascii := "010"%char.
Definition TAB : ascii := "009"%char.
Definition CR : ascii := "013"%char.
Definition VT : ascii := "011"%char.
Definition FF : ascii := "012"%char.
Definition DQUOTE : ascii := "034"%char.
Definition SQUOTE : ascii := "039"%char.
Definition BACKSLASH : ascii := "092"%char.

Definition str1 (c : ascii) : string := String c EmptyString.

(** [in_range lo hi c]: the regular-expression class [[lo-hi]]. *)
Definition in_range (lo hi c : ascii) : bool :=
  Ascii.leb lo c && Ascii.leb c hi.

Definition is_digit (c : ascii) : bool := in_range "0" "9" c.
Definition is_nonzero_digit (c : ascii) : bool := in_range "1" "9" c.
Definition is_hex_digit (c : ascii) : bool :=
  in_range "0" "9" c || in_range "A" "F" c || in_range "a" "f" c.
Definition is_sign (c : ascii) : bool :=
  Ascii.eqb c "+" || Ascii.eqb c "-".
(** [[A-Za-z_]] *)
Definition is_ident_start (c : ascii) : bool :=
  in_range "A" "Z" c || in_range "a" "z" c || Ascii.eqb c "_".
(** [[A-Za-z0-9_]] *)
Definition is_ident_char (c : ascii) : bool :=
  in_range "A" "Z" c || in_range "a" "z" c || in_range "0" "9" c
  || Ascii.eqb c "_".
(** The class of the keyword pattern: any character but the braces, the
    parentheses, the semicolon, the two quotes, line feed, tab and space. *)
Definition is_keyword_char (c : ascii) : bool :=
  negb (Ascii.eqb c "{" || Ascii.eqb c "}" || Ascii.eqb c "("
        || Ascii.eqb c ")" || Ascii.eqb c ";" || Ascii.eqb c DQUOTE
        || Ascii.eqb c SQUOTE || Ascii.eqb c LF || Ascii.eqb c TAB
        || Ascii.eqb c " ").
(** Python's [string.whitespace], the engine's default blank characters. *)
Definition is_whitespace (c : ascii) : bool :=
  Ascii.eqb c " " || Ascii.eqb c TAB || Ascii.eqb c LF || Ascii.eqb c CR
  || Ascii.eqb c VT || Ascii.eqb c FF.

(** ** Python built-ins used by the module *)

Inductive exn : Type :=
| FailedParse                       (* tatsu.exceptions.FailedParse *)
| NotImplementedError (msg : string)
| ValueError (msg : string)
| IOError (msg : string)
| AttributeError
| TypeError
| IndexError
| UnicodeDecodeError
| UnicodeEncodeError.

(** The outcome of a Python call: a value or a raised exception. *)
Inductive result (A : Type) : Type :=
| Return (a : A)
| Throw (e : exn).
Arguments Return {A} a.
Arguments Throw {A} e.

Definition rbind {A B : Type} (r : result A) (k : A -> result B) : result B :=
  match r with
  | Return a => k a
  | Throw e => Throw e
  end.

Notation "x <- r ;; k" := (rbind r (fun x => k))
  (at level 61, r at next level, right associativity).

Fixpoint map_result {A B : Type} (f : A -> result B) (l : list A)
  : result (list B) :=
  match l with
  | [] => Return []
  | a :: l' =>
      b <- f a ;;
      bs <- map_result f l' ;;
      Return (b :: bs)
  end.

(** [c.isalpha()] and [c.isalnum()] for a code point below 256. *)
Definition py_isalpha (c : ascii) : bool :=
  in_range "A" "Z" c || in_range "a" "z" c
  || Ascii.eqb c "170" || Ascii.eqb c "181" || Ascii.eqb c "186"
  || in_range "192" "214" c || in_range "216" "246" c
  || in_range "248" "255" c.

Definition py_isalnum (c : ascii) : bool :=
  py_isalpha c || in_range "0" "9" c
  || Ascii.eqb c "178" || Ascii.eqb c "179" || Ascii.eqb c "185"
  || in_range "188" "190" c.

(** [s.isalnum()]: every character is alphanumeric and [s] is not empty. *)
Fixpoint all_chars (p : ascii -> bool) (s : string) : bool :=
  match s with
  | EmptyString => true
  | String c s' => p c && all_chars p s'
  end.

Definition str_isalnum (s : string) : bool :=
  negb (String.eqb s "") && all_chars py_isalnum s.

(** [sep.join(l)] *)
Definition join (sep : string) (l : list string) : string :=
  String.concat sep l.

(** [str(z)] for an [int]. *)
Definition py_str_int (z : Z) : string :=
  NilZero.string_of_int (Z.to_int z).

(** [s[1:-1]] *)
Definition slice_1_m1 (s : string) : string :=
  substring 1 (String.length s - 2) s.

(** An optional leading sign. *)
Definition opt_sign (s : string) : string * string :=
  match s with
  | String c s' => if is_sign c then (str1 c, s') else (EmptyString, s)
  | EmptyString => (EmptyString, s)
  end.

Definition hex_digit (n : N) : ascii :=
  if (n <? 10)%N then ascii_of_N (48 + n) else ascii_of_N (87 + n).

(** [repr(s)] for a [str]: single quotes, unless [s] holds a single quote
    and no double quote; the quote and the backslash are escaped, control
    and other non-printable characters are written [\t], [\n], [\r] or
    [\xNN]. *)
Definition py_isprintable (c : ascii) : bool :=
  in_range " " "~" c || (in_range "161" "255" c && negb (Ascii.eqb c "173")).

Definition repr_char (quote c : ascii) : string :=
  if Ascii.eqb c quote || Ascii.eqb c BACKSLASH
  then String BACKSLASH (str1 c)
  else if Ascii.eqb c TAB then String BACKSLASH "t"
  else if Ascii.eqb c LF then String BACKSLASH "n"
  else if Ascii.eqb c CR then String BACKSLASH "r"
  else if py_isprintable c then str1 c
  else String BACKSLASH
         (String "x"
            (String (hex_digit (N_of_ascii c / 16))
               (str1 (hex_digit (N_of_ascii c mod 16))))).

Fixpoint repr_chars (quote : ascii) (s : string) : string :=
  match s with
  | EmptyString => EmptyString
  | String c s' => repr_char quote c ++ repr_chars quote s'
  end.

Fixpoint contains_char (c : ascii) (s : string) : bool :=
  match s with
  | EmptyString => false
  | String d s' => Ascii.eqb c d || contains_char c s'
  end.

Definition py_repr_str (s : string) : string :=
  let quote :=
    if contains_char SQUOTE s && negb (contains_char DQUOTE s)
    then DQUOTE else SQUOTE in
  String quote (repr_chars quote s ++ str1 quote).

(** [int(s)] on a text without blanks or underscores: an optional sign and
    a non-empty run of decimal digits; anything else is a [ValueError]. *)
Definition py_int (s : string) : result Z :=
  let (sg, ds) := opt_sign s in
  match ds with
  | EmptyString =>
      Throw (ValueError
               ("invalid literal for int() with base 10: " ++ py_repr_str s))
  | _ =>
      match NilEmpty.uint_of_string ds with
      | Some u =>
          Return (if String.eqb sg "-" then (- Z.of_uint u)%Z
                  else Z.of_uint u)
      | None =>
          Throw (ValueError
                   ("invalid literal for int() with base 10: "
                    ++ py_repr_str s))
      end
  end.

(** [b.decode('ascii')] and [s.encode('ascii')]: every byte, resp. code
    point, must be below 128. *)
Definition is_ascii (c : ascii) : bool := Ascii.ltb c "128".

Definition decode_ascii (b : string) : result string :=
  if all_chars is_ascii b then Return b else Throw UnicodeDecodeError.

Definition encode_ascii (s : string) : result string :=
  if all_chars is_ascii s then Return s else Throw UnicodeEncodeError.

(** *** Dictionaries: insertion-ordered, a key keeps its first position *)

Definition dict (V : Type) : Type := list (string * V).

Fixpoint dict_get {V : Type} (k : string) (d : dict V) : option V :=
  match d with
  | [] => None
  | (k', v) :: d' => if String.eqb k k' then Some v else dict_get k d'
  end.

(** [d[k] = v] *)
Fixpoint dict_set {V : Type} (k : string) (v : V) (d : dict V) : dict V :=
  match d with
  | [] => [(k, v)]
  | (k', v') :: d' =>
      if String.eqb k k' then (k', v) :: d' else (k', v') :: dict_set k v d'
  end.

(** [d.update(other)] *)
Definition dict_update {V : Type} (d other : dict V) : dict V :=
  fold_left (fun acc kv => dict_set (fst kv) (snd kv) acc) other d.

Definition dict_keys {V : Type} (d : dict V) : list string := map fst d.

(** ** The TatSu engine *)

(** What a grammar expression does at a position of the text: it matches
    and leaves the rest of the text, it fails (a failure after a cut is
    marked), or a semantic action raises. *)
Inductive parsed (A : Type) : Type :=
| Matched (a : A) (rest : string)
| Failed (cut : bool)
| Raised (e : exn).
Arguments Matched {A} a rest.
Arguments Failed {A} cut.
Arguments Raised {A} e.

Definition parser (A : Type) : Type := string -> parsed A.

Definition pbind {A B : Type} (p : parser A) (k : A -> parser B) : parser B :=
  fun s =>
    match p s with
    | Matched a rest => k a rest
    | Failed c => Failed c
    | Raised e => Raised e
    end.

Definition pret {A : Type} (a : A) : parser A := fun s => Matched a s.

Notation "x <~ p ;; k" := (pbind p (fun x => k))
  (at level 61, p at next level, right associativity).

(** The longest prefix whose characters satisfy [p], and what follows. *)
Fixpoint span (p : ascii -> bool) (s : string) : string * string :=
  match s with
  | EmptyString => (EmptyString, EmptyString)
  | String c s' =>
      if p c then let (l, r) := span p s' in (String c l, r)
      else (EmptyString, s)
  end.

Fixpoint strip_prefix (t s : string) : option string :=
  match t, s with
  | EmptyString, _ => Some s
  | String a t', String b s' =>
      if Ascii.eqb a b then strip_prefix t' s' else None
  | String _ _, EmptyString => None
  end.

(** [@@eol_comments :: /\/\/.*?$/]: two slashes and the rest of the line;
    the line feed itself is left. *)
Fixpoint skip_line (s : string) : string :=
  match s with
  | EmptyString => EmptyString
  | String c s' => if Ascii.eqb c LF then s else skip_line s'
  end.

Definition eol_comment (s : string) : option string :=
  match s with
  | String "/" (String "/" s') => Some (skip_line s')
  | _ => None
  end.

(** [@@comments :: /\\\*.*?\*\//]: a backslash, a star, then as few
    characters as possible (none of them a line feed) up to the first
    star-slash. *)
Fixpoint close_comment (s : string) : option string :=
  match s with
  | EmptyString => None
  | String c s' =>
      match c, s' with
      | "*"%char, String "/" r => Some r
      | _, _ => if Ascii.eqb c LF then None else close_comment s'
      end
  end.

Definition comment (s : string) : option string :=
  match s with
  | String "\" (String "*" s') => close_comment s'
  | _ => None
  end.

(** [Buffer.next_token]: comments, end-of-line comments and blanks are
    eaten until none of them matches at the position. *)
Fixpoint next_token_loop (fuel : nat) (s : string) : string :=
  match fuel with
  | O => s
  | S fuel' =>
      match eol_comment s with
      | Some r => next_token_loop fuel' r
      | None =>
          match comment s with
          | Some r => next_token_loop fuel' r
          | None =>
              match s with
              | String c s' =>
                  if is_whitespace c then next_token_loop fuel' s' else s
              | EmptyString => s
              end
          end
      end
  end.

Definition next_token (s : string) : string :=
  next_token_loop (String.length s) s.

Definition current (s : string) : option ascii :=
  match s with
  | String c _ => Some c
  | EmptyString => None
  end.

(** [Buffer.is_name_char] *)
Definition is_name_char (c : option ascii) : bool :=
  match c with
  | Some c => py_isalnum c
  | None => false
  end.

(** What the module takes from its host: Python's [float] (the type of
    doubles, [float(ast)] and [str(x)], left open here) and the release of
    the engine. The name guard of [Buffer.match] rejects an alphanumeric
    token that is directly followed by a name character; releases differ
    on tokens that begin with a digit, and [digit_nameguard] tells whether
    the guard covers them too. *)
Record Host : Type := mkHost {
  pyfloat : Type;
  float_of_str : string -> pyfloat;
  str_of_float : pyfloat -> string;
  digit_nameguard : bool
}.

Section UDMF.

Variable host : Host.

Definition guarded (tok : string) : bool :=
  str_isalnum tok
  && match tok with
     | String c _ => py_isalpha c || digit_nameguard host
     | EmptyString => false
     end.

(** [Buffer.match(token)] *)
Definition match_token (tok s : string) : option string :=
  match strip_prefix tok s with
  | Some rest =>
      if guarded tok && is_name_char (current rest) then None else Some rest
  | None => None
  end.

(** A token of the grammar: blanks and comments are skipped first. *)
Definition token (tok : string) : parser string :=
  fun s =>
    match match_token tok (next_token s) with
    | Some rest => Matched tok rest
    | None => Failed false
    end.

(** A pattern of the grammar, matched at the position. *)
Definition pattern (re : string -> option (string * string)) : parser string :=
  fun s =>
    match re s with
    | Some (lexeme, rest) => Matched lexeme rest
    | None => Failed false
    end.

(** A rule call: blanks and comments are skipped, the body is matched and
    the semantic action of the rule is applied to its result. *)
Definition rule {A B : Type} (body : parser A) (action : A -> result B)
  : parser B :=
  fun s =>
    match body (next_token s) with
    | Matched a rest =>
        match action a with
        | Return b => Matched b rest
        | Throw e => Raised e
        end
    | Failed c => Failed c
    | Raised e => Raised e
    end.

(** Ordered choice: the next option is tried only when the one before
    failed without having passed a cut; a failure after a cut makes the
    choice fail. *)
Definition choice {A : Type} (p q : parser A) : parser A :=
  fun s =>
    match p s with
    | Failed false => q s
    | Failed true => Failed false
    | r => r
    end.

(** The cut [~]: what follows may no longer fail back to another option. *)
Definition cut {A : Type} (p : parser A) : parser A :=
  fun s =>
    match p s with
    | Failed _ => Failed true
    | r => r
    end.

(** The closure [{ e }]: [e] is repeated until it fails; an exception
    ends the parse. Each round must consume text. *)
Fixpoint closure {A : Type} (fuel : nat) (p : parser A) (s : string)
  : parsed (list A) :=
  match fuel with
  | O => Matched [] s
  | S fuel' =>
      match p s with
      | Matched a rest =>
          if Nat.ltb (String.length rest) (String.length s) then
            match closure fuel' p rest with
            | Matched l rest' => Matched (a :: l) rest'
            | other => other
            end
          else Matched [] s
      | Failed _ => Matched [] s
      | Raised e => Raised e
      end
  end.

(** [$]: the end of the text, after blanks and comments. *)
Definition eof : parser unit :=
  fun s =>
    match next_token s with
    | EmptyString => Matched tt EmptyString
    | _ => Failed false
    end.

(** ** The patterns of UDMF_GRAMMAR *)

(** [/[A-Za-z_]+[A-Za-z0-9_]*/] *)
Definition re_identifier (s : string) : option (string * string) :=
  match s with
  | String c _ => if is_ident_start c then Some (span is_ident_char s) else None
  | EmptyString => None
  end.

(** [/[+-]?[1-9]+[0-9]*/] *)
Definition re_decimal (s : string) : option (string * string) :=
  let (sg, s1) := opt_sign s in
  match s1 with
  | String c _ =>
      if is_nonzero_digit c
      then let (ds, r) := span is_digit s1 in Some (sg ++ ds, r)
      else None
  | EmptyString => None
  end.

(** [/0[0-9]+/] *)
Definition re_leading_zero (s : string) : option (string * string) :=
  match s with
  | String "0" s1 =>
      match span is_digit s1 with
      | (EmptyString, _) => None
      | (ds, r) => Some (String "0" ds, r)
      end
  | _ => None
  end.

(** [/0x[0-9A-Fa-f]+/] *)
Definition re_hex (s : string) : option (string * string) :=
  match s with
  | String "0" (String "x" s1) =>
      match span is_hex_digit s1 with
      | (EmptyString, _) => None
      | (ds, r) => Some (String "0" (String "x" ds), r)
      end
  | _ => None
  end.

(** [([eE][+-]?[0-9]+)?] *)
Definition re_exponent (s : string) : string * string :=
  match s with
  | String c s1 =>
      if Ascii.eqb c "e" || Ascii.eqb c "E" then
        let (sg, s2) := opt_sign s1 in
        match span is_digit s2 with
        | (EmptyString, _) => (EmptyString, s)
        | (ds, r) => (String c (sg ++ ds), r)
        end
      else (EmptyString, s)
  | EmptyString => (EmptyString, s)
  end.

(** [/[+-]?[0-9]+\.[0-9]*([eE][+-]?[0-9]+)?/] *)
Definition re_float (s : string) : option (string * string) :=
  let (sg, s1) := opt_sign s in
  match span is_digit s1 with
  | (EmptyString, _) => None
  | (ip, String "." s2) =>
      let (fp, s3) := span is_digit s2 in
      let (ex, r) := re_exponent s3 in
      Some (sg ++ ip ++ String "." (fp ++ ex), r)
  | _ => None
  end.

(** The pattern of [quoted_string]: a double quote, a run of characters
    other than the double quote and the backslash, any number of groups
    made of a backslash, one character (any but a line feed) and such a
    run again, and a double quote. [string_body] reads what follows the
    opening quote up to the closing one. *)
Fixpoint string_body (s : string) : option (string * string) :=
  match s with
  | EmptyString => None
  | String c s1 =>
      if Ascii.eqb c DQUOTE then Some (EmptyString, s1)
      else if Ascii.eqb c BACKSLASH then
        match s1 with
        | String d s2 =>
            if Ascii.eqb d LF then None
            else match string_body s2 with
                 | Some (b, r) => Some (String c (String d b), r)
                 | None => None
                 end
        | EmptyString => None
        end
      else match string_body s1 with
           | Some (b, r) => Some (String c b, r)
           | None => None
           end
  end.

Definition re_quoted_string (s : string) : option (string * string) :=
  match s with
  | String c s1 =>
      if Ascii.eqb c DQUOTE then
        match string_body s1 with
        | Some (b, r) => Some (String DQUOTE (b ++ str1 DQUOTE), r)
        | None => None
        end
      else None
  | EmptyString => None
  end.

(** The pattern of [keyword]: one or more keyword characters. *)
Definition re_keyword (s : string) : option (string * string) :=
  match span is_keyword_char s with
  | (EmptyString, _) => None
  | (kw, r) => Some (kw, r)
  end.

(** ** The object model *)

Inductive value : Type :=
| VInt (z : Z)
| VFloat (f : pyfloat host)
| VBool (b : bool)
| VStr (s : string).

(** The classes of the module. *)
Inductive pyclass : Type :=
| UDMFObjectClass | Thing | Vertex | LineDef | SideDef | Sector.

(** What an instance attribute of a [UDMFObject] holds: [None], a scalar,
    or the list of keys kept in [_attributes]. *)
Inductive attr : Type :=
| ANone
| AVal (v : value)
| AList (l : list string).

(** An instance: its class and its [__dict__]. The type name [name], the
    key list [_attributes] and the attributes set with [setattr] all live
    in the one [__dict__]. *)
Record UDMFObject : Type := mkObject {
  ob_class : pyclass;
  ob_dict : dict attr
}.

(** [setattr(self, key, a)]: [__class__] and [__dict__] refuse a value that
    is no class, resp. no dict, and [__weakref__] is read-only. *)
Definition setattr (self : UDMFObject) (key : string) (a : attr)
  : result UDMFObject :=
  if String.eqb key "__class__" || String.eqb key "__dict__"
  then Throw TypeError
  else if String.eqb key "__weakref__" then Throw AttributeError
  else Return (mkObject (ob_class self) (dict_set key a (ob_dict self))).

(** [getattr(self, key)] for a key held by the instance. *)
Definition getattr (self : UDMFObject) (key : string) : result attr :=
  match dict_get key (ob_dict self) with
  | Some a => Return a
  | None => Throw AttributeError
  end.

(** The loop of [UDMFObject.__init__]. *)
Fixpoint init_attributes (self : UDMFObject) (items : list (string * value))
  : result UDMFObject :=
  match items with
  | [] => Return self
  | (key, v) :: items' =>
      match dict_get "_attributes" (ob_dict self) with
      | Some (AList l) =>
          let self1 :=
            mkObject (ob_class self)
              (dict_set "_attributes" (AList (l ++ [key])%list) (ob_dict self)) in
          self2 <- setattr self1 key (AVal v) ;;
          init_attributes self2 items'
      | _ => Throw AttributeError
      end
  end.

(** [cls(attributes, name=name)] *)
Definition UDMFObject_init (cls : pyclass) (attributes : dict value)
  (name : option string) : result UDMFObject :=
  let name_attr :=
    match name with
    | Some n => AVal (VStr n)
    | None => ANone
    end in
  init_attributes
    (mkObject cls [("name", name_attr); ("_attributes", AList [])])
    attributes.

(** ['{}'.format(x)] *)
Definition format_value (v : value) : string :=
  match v with
  | VInt z => py_str_int z
  | VFloat f => str_of_float host f
  | VBool true => "True"
  | VBool false => "False"
  | VStr s => s
  end.

Definition format_attr (a : attr) : string :=
  match a with
  | ANone => "None"
  | AVal v => format_value v
  | AList l => "[" ++ join ", " (map py_repr_str l) ++ "]"
  end.

(** [UDMFObject.serialize_assignment] *)
Definition serialize_assignment (key : string) (a : attr) : string :=
  let text :=
    match a with
    | AVal (VStr s) => String DQUOTE (s ++ str1 DQUOTE)
    | AVal (VBool b) => if b then "true" else "false"
    | _ => format_attr a
    end in
  key ++ " = " ++ text ++ ";".

(** Iterating over what [_attributes] holds: the key list, or the
    characters of a string that has taken its place. *)
Fixpoint chars (s : string) : list string :=
  match s with
  | EmptyString => []
  | String c s' => str1 c :: chars s'
  end.

Definition iter_attr (a : attr) : result (list string) :=
  match a with
  | AList l => Return l
  | AVal (VStr s) => Return (chars s)
  | _ => Throw TypeError
  end.

(** Calling a method of the class through the instance: an instance
    attribute of the same name hides the method and is not callable. *)
Definition method_callable (self : UDMFObject) (method : string)
  : result unit :=
  match dict_get method (ob_dict self) with
  | Some _ => Throw TypeError
  | None => Return tt
  end.

(** [UDMFObject.serialize] *)
Definition UDMFObject_serialize (self : UDMFObject) : result string :=
  name <- getattr self "name" ;;
  attributes <- getattr self "_attributes" ;;
  keys <- iter_attr attributes ;;
  lines <- map_result
             (fun key =>
                a <- getattr self key ;;
                _ <- method_callable self "serialize_assignment" ;;
                Return (serialize_assignment key a))
             keys ;;
  Return (format_attr name ++ str1 LF ++ "{" ++ str1 LF
          ++ join (str1 LF) lines ++ str1 LF ++ "}" ++ str1 LF).

(** ** UDMFSemantics *)

(** What a top-level expression evaluates to: a block object or the
    one-entry dict of an assignment. *)
Inductive node : Type :=
| NObject (o : UDMFObject)
| NDict (d : dict value).

(** [UDMF_BLOCK_TYPES.get(name, UDMFObject)] *)
Definition UDMF_BLOCK_TYPES (name : string) : pyclass :=
  if String.eqb name "thing" then Thing
  else if String.eqb name "vertex" then Vertex
  else if String.eqb name "linedef" then LineDef
  else if String.eqb name "sidedef" then SideDef
  else if String.eqb name "sector" then Sector
  else UDMFObjectClass.

Definition UDMFSemantics_block
  (ast : string * string * list (dict value) * string) : result UDMFObject :=
  let '(name, _, assignments, _) := ast in
  let result := fold_left dict_update assignments [] in
  UDMFObject_init (UDMF_BLOCK_TYPES name) result (Some name).

Definition UDMFSemantics_assignment_expr
  (ast : string * string * value * string) : result (dict value) :=
  let '(identifier, _, v, _) := ast in
  Return [(identifier, v)].

Definition UDMFSemantics_keyword (ast : string) : result value :=
  Throw (NotImplementedError ("Unsupported keyword: " ++ py_repr_str ast)).

Definition UDMFSemantics_quoted_string (ast : string) : result value :=
  Return (VStr (slice_1_m1 ast)).

Definition UDMFSemantics_integer (ast : string) : result value :=
  z <- py_int ast ;;
  Return (VInt z).

Definition UDMFSemantics_float (ast : string) : result value :=
  Return (VFloat (float_of_str host ast)).

(** [bool(ast)]: a string is true unless it is empty. *)
Definition UDMFSemantics_boolean (ast : string) : result value :=
  Return (VBool (negb (String.eqb ast ""))).

(** ** The rules of UDMF_GRAMMAR *)

Definition no_action {A : Type} (a : A) : result A := Return a.

Definition keyword : parser value :=
  rule (pattern re_keyword) UDMFSemantics_keyword.

Definition quoted_string : parser value :=
  rule (pattern re_quoted_string) UDMFSemantics_quoted_string.

Definition boolean : parser value :=
  rule (choice (token "true") (token "false")) UDMFSemantics_boolean.

Definition float : parser value :=
  rule (pattern re_float) UDMFSemantics_float.

Definition integer : parser value :=
  rule (choice (token "0")
          (choice (pattern re_decimal)
             (choice (pattern re_leading_zero) (pattern re_hex))))
    UDMFSemantics_integer.

Definition value_rule : parser value :=
  rule (choice float
          (choice integer
             (choice quoted_string (choice boolean keyword))))
    no_action.

Definition identifier : parser string :=
  rule (pattern re_identifier) no_action.

Definition assignment_expr : parser (dict value) :=
  rule (id <~ identifier ;;
        eq <~ token "=" ;;
        v <~ value_rule ;;
        semi <~ token ";" ;;
        pret (id, eq, v, semi))
    UDMFSemantics_assignment_expr.

Definition expr_list : parser (list (dict value)) :=
  fun s => rule (closure (S (String.length s)) assignment_expr) no_action s.

Definition block : parser UDMFObject :=
  rule (name <~ identifier ;;
        open <~ token "{" ;;
        cut (assignments <~ expr_list ;;
             close <~ token "}" ;;
             pret (name, open, assignments, close)))
    UDMFSemantics_block.

Definition global_expr : parser node :=
  rule (choice (o <~ block ;; pret (NObject o))
               (d <~ assignment_expr ;; pret (NDict d)))
    no_action.

Definition global_expr_list : parser (list node) :=
  fun s => rule (closure (S (String.length s)) global_expr) no_action s.

Definition translation_unit : parser (list node) :=
  rule (l <~ global_expr_list ;;
        _ <~ eof ;;
        pret l)
    no_action.

(** [UDMF_PARSER.parse(text, semantics=UDMFSemantics())] *)
Definition UDMF_PARSER_parse (text : string) : result (list node) :=
  match translation_unit text with
  | Matched ast _ => Return ast
  | Failed _ => Throw FailedParse
  | Raised e => Throw e
  end.

(** ** UDMFMapEditor *)

(** An entry of the directory of a WAD: the editor reads its name only. *)
Record Entry : Type := mkEntry { entry_name : string }.

(** Modelled from the spec: the container handed to the editor ([WadIO],
    whose module is not part of the sources at hand) offers an ordered
    directory and an indexed read; it is a list of records, each a name
    with its bytes. An output container starts empty, [insert] appends a
    record in call order and [save] commits what was inserted. *)
Definition WadIO : Type := list (string * string).

Definition WadIO_entries (wadio : WadIO) : list Entry :=
  map (fun r => mkEntry (fst r)) wadio.

Definition WadIO_read (wadio : WadIO) (index : nat) : string :=
  snd (nth index wadio (EmptyString, EmptyString)).

Definition WadIO_new : WadIO := [].

Definition WadIO_insert (output : WadIO) (name data : string) : WadIO :=
  (output ++ [(name, data)])%list.

Record UDMFMapEditor : Type := mkEditor {
  ed_name : option string;
  ed_data : option string;
  ed_index : option nat;
  _wad_entries : list Entry;
  _wad_data : list string;
  _nodes : list UDMFObject;
  _meta : dict value
}.

(** [UDMFMapEditor.__init__] *)
Definition UDMFMapEditor_init (wadio : WadIO) : UDMFMapEditor :=
  mkEditor None None None
    (WadIO_entries wadio)
    (map (WadIO_read wadio) (seq 0 (List.length (WadIO_entries wadio))))
    [] [].

(** The outer loop of [load] over [enumerate(self._wad_entries)]: the
    index of the header accepted, if the loop reaches one. [todo] is what
    is left to enumerate, [index] the index of its first entry. *)
Fixpoint load_scan (entries : list Entry) (name : string) (index : nat)
  (todo : list Entry) : option (nat * Entry) :=
  match todo with
  | [] => None
  | entry :: todo' =>
      match nth_error entries (index + 1) with
      | None => None                           (* IndexError: break *)
      | Some next_entry =>
          if negb (String.eqb (entry_name next_entry) "TEXTMAP")
          then load_scan entries name (S index) todo'
          else if negb (String.eqb (entry_name entry) name)
          then load_scan entries name (S index) todo'
          else Some (index, entry)
      end
  end.

(** The inner loop of [load] over [enumerate(self._wad_entries[index:])]:
    the value of [self.data] when the loop ends, and how it ended. *)
Fixpoint load_span (wad_data : list string) (index subindex : nat)
  (span_entries : list Entry) (data : option string)
  : option string * result unit :=
  match span_entries with
  | [] => (data, Return tt)
  | entry :: rest =>
      if String.eqb (entry_name entry) "ENDMAP" then (data, Return tt)
      else if String.eqb (entry_name entry) "TEXTMAP" then
        match nth_error wad_data (index + subindex) with
        | None => (data, Throw IndexError)
        | Some bytes =>
            match decode_ascii bytes with
            | Throw e => (data, Throw e)
            | Return text =>
                load_span wad_data index (S subindex) rest (Some text)
            end
        end
      else load_span wad_data index (S subindex) rest data
  end.

(** [not x] for an optional string: [None] and the empty string are
    false. *)
Definition falsy (x : option string) : bool :=
  match x with
  | None => true
  | Some s => String.eqb s ""
  end.

(** The body of the loop of [_parse]: a block object is appended to
    [self._nodes], the dict of an assignment updates [self._meta]. *)
Definition _parse_node (self : UDMFMapEditor) (n : node) : UDMFMapEditor :=
  match n with
  | NObject o =>
      mkEditor (ed_name self) (ed_data self) (ed_index self)
        (_wad_entries self) (_wad_data self)
        (_nodes self ++ [o])%list (_meta self)
  | NDict d =>
      mkEditor (ed_name self) (ed_data self) (ed_index self)
        (_wad_entries self) (_wad_data self)
        (_nodes self) (dict_update (_meta self) d)
  end.

(** [UDMFMapEditor._parse] *)
Definition _parse (self : UDMFMapEditor) : UDMFMapEditor * result unit :=
  match ed_data self with
  | None => (self, Throw TypeError)
  | Some text =>
      match UDMF_PARSER_parse text with
      | Throw e => (self, Throw e)
      | Return ast => (fold_left _parse_node ast self, Return tt)
      end
  end.

(** [UDMFMapEditor.load]: the editor after the call, and how the call
    ended. *)
Definition load (name : string) (self : UDMFMapEditor)
  : UDMFMapEditor * result unit :=
  let scanned :=
    match load_scan (_wad_entries self) name 0 (_wad_entries self) with
    | None => (self, Return tt)
    | Some (index, entry) =>
        let (data, ended) :=
          load_span (_wad_data self) index 0
            (skipn index (_wad_entries self)) (ed_data self) in
        (mkEditor (Some (entry_name entry)) data (Some index)
           (_wad_entries self) (_wad_data self) (_nodes self) (_meta self),
         ended)
    end in
  match scanned with
  | (self', Throw e) => (self', Throw e)
  | (self', Return _) =>
      if falsy (ed_name self') || falsy (ed_data self')
      then (self', Throw (IOError "Unable to find an UDMF map"))
      else _parse self'
  end.

(** [UDMFMapEditor.serialize] *)
Definition UDMFMapEditor_serialize (self : UDMFMapEditor) : result string :=
  let meta :=
    join (str1 LF)
      (map (fun kv => serialize_assignment (fst kv) (AVal (snd kv)))
         (_meta self)) in
  nodes <- map_result
             (fun node =>
                _ <- method_callable node "serialize" ;;
                UDMFObject_serialize node)
             (_nodes self) ;;
  Return (join (str1 LF) [meta; join (str1 LF) nodes]).

(** The loop of [save] over [enumerate(self._wad_entries)]. *)
Fixpoint save_loop (self : UDMFMapEditor) (index : nat) (todo : list Entry)
  (output : WadIO) : result WadIO :=
  match todo with
  | [] => Return output
  | entry :: todo' =>
      data <- match ed_index self with
              | None => Throw TypeError
              | Some self_index =>
                  if Nat.eqb index (self_index + 1) then
                    text <- UDMFMapEditor_serialize self ;;
                    encode_ascii text
                  else
                    match nth_error (_wad_data self) index with
                    | Some bytes => Return bytes
                    | None => Throw IndexError
                    end
              end ;;
      save_loop self (S index) todo'
        (WadIO_insert output (entry_name entry) data)
  end.

(** [UDMFMapEditor.save]: the container committed to [filename]. *)
Definition save (self : UDMFMapEditor) : result WadIO :=
  save_loop self 0 (_wad_entries self) WadIO_new.

Definition pyclass_eqb (a b : pyclass) : bool :=
  match a, b with
  | UDMFObjectClass, UDMFObjectClass | Thing, Thing | Vertex, Vertex
  | LineDef, LineDef | SideDef, SideDef | Sector, Sector => true
  | _, _ => false
  end.

(** [isinstance(node, type)]: the five block classes derive from
    [UDMFObject] and from nothing else. *)
Definition isinstance (node : UDMFObject) (type : pyclass) : bool :=
  pyclass_eqb (ob_class node) type || pyclass_eqb type UDMFObjectClass.

(** [UDMFMapEditor.get_nodes] *)
Definition get_nodes (self : UDMFMapEditor) (type : pyclass)
  : list UDMFObject :=
  filter (fun node => isinstance node type) (_nodes self).

(** The properties [sectors], [sidedefs], [linedefs], [vertices] and
    [things]. *)
Definition sectors (self : UDMFMapEditor) : list UDMFObject :=
  get_nodes self Sector.

Definition sidedefs (self : UDMFMapEditor) : list UDMFObject :=
  get_nodes self SideDef.

Definition linedefs (self : UDMFMapEditor) : list UDMFObject :=
  get_nodes self LineDef.

Definition vertices (self : UDMFMapEditor) : list UDMFObject :=
  get_nodes self Vertex.

Definition things (self : UDMFMapEditor) : list UDMFObject :=
  get_nodes self Thing.

End UDMF.

Arguments VInt {host} z.
Arguments VFloat {host} f.
Arguments VBool {host} b.
Arguments VStr {host} s.
Arguments ANone {host}.
Arguments AVal {host} v.
Arguments AList {host} l.
Arguments NObject {host} o.
Arguments NDict {host} d.
Arguments mkObject {host} ob_class ob_dict.
Arguments ob_class {host} u.
Arguments ob_dict {host} u.
Arguments mkEditor {host}.
Arguments ed_name {host} u.
Arguments ed_data {host} u.
Arguments ed_index {host} u.
Arguments _wad_entries {host} u.
Arguments _wad_data {host} u.
Arguments _nodes {host} u.
Arguments _meta {host} u.
Arguments setattr {host} self key a.
Arguments getattr {host} self key.
Arguments init_attributes {host} self items.
Arguments UDMFObject_init {host} cls attributes name.
Arguments format_value {host} v.
Arguments format_attr {host} a.
Arguments serialize_assignment {host} key a.
Arguments iter_attr {host} a.
Arguments method_callable {host} self method.
Arguments UDMFObject_serialize {host} self.
Arguments UDMFSemantics_block {host} ast.
Arguments UDMFSemantics_assignment_expr {host} ast.
Arguments _parse_node {host} self n.
Arguments _parse {host} self.
Arguments load {host} name self.
Arguments UDMFMapEditor_serialize {host} self.
Arguments save_loop {host} self index todo output.
Arguments save {host} self.
Arguments isinstance {host} node type.
Arguments get_nodes {host} self type.
Arguments sectors {host} self.
Arguments sidedefs {host} self.
Arguments linedefs {host} self.
Arguments vertices {host} self.
Arguments things {host} self.

(** A host for closed examples: a double is kept as the literal that
    denotes it, and the name guard leaves digit tokens alone. *)
Definition plain_host : Host :=
  mkHost string (fun s => s) (fun s => s) false.

(** * Vocabulary of the properties *)

(** The document of a text made of one top-level assignment. *)
Definition assigned {host : Host} (key : string) (v : value host)
  : result (list (node host)) :=
  Return [NDict [(key, v)]].

Definition NotFound : exn := IOError "Unable to find an UDMF map".

(** The snapshot holds, at index [i], a header named [name] directly
    followed by a record named [TEXTMAP]. *)
Definition has_pair (w : WadIO) (name : string) (i : nat) : Prop :=
  nth_error (map fst w) i = Some name
  /\ nth_error (map fst w) (S i) = Some "TEXTMAP".

Definition first_pair (w : WadIO) (name : string) (i : nat) : Prop :=
  has_pair w name i /\ forall j, j < i -> ~ has_pair w name j.

(** The text the span of a map supplies: the bytes of the last record
    named [TEXTMAP] met before the first record named [ENDMAP]. *)
Fixpoint span_text (records : WadIO) (text : option string) : option string :=
  match records with
  | [] => text
  | (n, b) :: records' =>
      if String.eqb n "ENDMAP" then text
      else if String.eqb n "TEXTMAP" then span_text records' (Some b)
      else span_text records' text
  end.

(** Every [TEXTMAP] record of the span is 7-bit text. *)
Fixpoint span_ascii (records : WadIO) : bool :=
  match records with
  | [] => true
  | (n, b) :: records' =>
      if String.eqb n "ENDMAP" then true
      else if String.eqb n "TEXTMAP"
      then all_chars is_ascii b && span_ascii records'
      else span_ascii records'
  end.

(** No record named [TEXTMAP] before the first record named [ENDMAP]. *)
Fixpoint no_textmap (records : WadIO) : bool :=
  match records with
  | [] => true
  | (n, _) :: records' =>
      if String.eqb n "ENDMAP" then true
      else if String.eqb n "TEXTMAP" then false
      else no_textmap records'
  end.

Definition semantic_exn (e : exn) : Prop :=
  match e with
  | NotImplementedError _ | ValueError _ | AttributeError | TypeError => True
  | _ => False
  end.

Definition raises_only {A : Type} (P : exn -> Prop) (p : parser A) : Prop :=
  forall s e, p s = Raised e -> P e.

(** The editor [load] leaves when its loops have ended normally. *)
Definition located (H : Host) (w : WadIO) (name : string) (i : nat)
  (data : option string) : UDMFMapEditor H :=
  mkEditor (Some name) data (Some i) (WadIO_entries w) (map snd w) [] [].

(** What [save] writes for the records from [index] on: each keeps its
    name, and its bytes unless its index is [i + 1]. *)
Fixpoint spliced (i : nat) (bytes : string) (index : nat) (records : WadIO)
  : WadIO :=
  match records with
  | [] => []
  | (n, b) :: records' =>
      (n, if Nat.eqb index (i + 1) then bytes else b)
      :: spliced i bytes (S index) records'
  end.

(** The first character of [s] does not satisfy [p] (or [s] is empty). *)
Definition stops (p : ascii -> bool) (s : string) : bool :=
  match s with
  | EmptyString => true
  | String c _ => negb (p c)
  end.

(** A text that begins with a character that is no blank, no slash and no
    backslash is at a token already. *)
Definition token_start (c : ascii) : bool :=
  negb (is_whitespace c) && negb (Ascii.eqb c "/")
  && negb (Ascii.eqb c BACKSLASH).

(** [star p]: the closure with the fuel its text needs. *)
Definition star {A : Type} (p : parser A) : parser (list A) :=
  fun s => closure (S (String.length s)) p s.

(** The names an attribute may not take without breaking the object:
    [_attributes] holds the key list, [serialize] and
    [serialize_assignment] are the methods, and [setattr] refuses the
    last three. *)
Definition reserved (key : string) : bool :=
  String.eqb key "_attributes" || String.eqb key "serialize"
  || String.eqb key "serialize_assignment" || String.eqb key "__class__"
  || String.eqb key "__dict__" || String.eqb key "__weakref__".

Definition ordinary_keys {V : Type} (d : dict V) : Prop :=
  Forall (fun kv => reserved (fst kv) = false) d.

(** The lines [serialize] prints for the attributes. *)
Definition attribute_lines {H : Host} (attributes : dict (value H))
  : list string :=
  map (fun kv => serialize_assignment (fst kv) (AVal (snd kv))) attributes.

(** The text a quoted string may hold between its quotes: no double quote
    and no backslash, other than in a pair made of a backslash and any
    character but a line feed. *)
Fixpoint raw_body (s : string) : bool :=
  match s with
  | EmptyString => true
  | String c s1 =>
      if Ascii.eqb c DQUOTE then false
      else if Ascii.eqb c BACKSLASH then
        match s1 with
        | String d s2 => negb (Ascii.eqb d LF) && raw_body s2
        | EmptyString => false
        end
      else raw_body s1
  end.

(** The resolution of escapes the specification describes: each pair of a
    backslash and a character stands for that character. *)
Fixpoint unescape (s : string) : string :=
  match s with
  | EmptyString => EmptyString
  | String c s1 =>
      if Ascii.eqb c BACKSLASH then
        match s1 with
        | String d s2 => String d (unescape s2)
        | EmptyString => EmptyString
        end
      else String c (unescape s1)
  end.

(** The text begins like a number: an optional sign and a digit. *)
Definition numeric_start (s : string) : bool :=
  match opt_sign s with
  | (_, String c _) => is_digit c
  | _ => false
  end.



Ltac char_cases c :=
  destruct c as [[] [] [] [] [] [] [] []]; try discriminate.





Definition blank (s : string) : Prop := all_chars is_whitespace s = true.

Definition is_identifier (s : string) : bool :=
  match s with
  | String c _ => is_ident_start c && all_chars is_ident_char s
  | EmptyString => false
  end.

(** The values other than floats whose printed form reads back as the
    same value: any integer, [True], and a string that is a well-formed
    body of a quoted string (in particular, any string without double
    quote or backslash). *)
Definition plain_value {H : Host} (v : value H) : bool :=
  match v with
  | VInt _ => true
  | VFloat _ => false
  | VBool b => b
  | VStr s => raw_body s
  end.

(** The pattern of rule [float] matches the whole of [s]. *)
Definition float_text (s : string) : bool :=
  match re_float s with
  | Some (_, r) => String.eqb r ""
  | None => false
  end.

(** A float that [str] prints as a lexeme of rule [float] and that
    [float] reads back from that lexeme. *)
Definition plain_float {H : Host} (f : pyfloat H) : Prop :=
  float_text (str_of_float H f) = true
  /\ float_of_str H (str_of_float H f) = f.

(** The values whose printed form reads back as the same value. *)
Definition readable {H : Host} (v : value H) : Prop :=
  match v with
  | VFloat f => plain_float f
  | _ => plain_value v = true
  end.

(** The text [serialize_assignment] prints for a value. *)
Definition value_text {H : Host} (v : value H) : string :=
  match v with
  | VStr s => String DQUOTE (s ++ str1 DQUOTE)
  | VBool b => if b then "true" else "false"
  | _ => format_value v
  end.

(** [p] does not see the blanks before its text. *)
Definition insensitive {A : Type} (p : parser A) : Prop :=
  forall ws s, blank ws -> p (ws ++ s) = p s.

(** [p] reads [text] as [a], whatever follows, and leaves at most a short
    blank trail of it. *)
Definition reads_item {A : Type} (p : parser A) (text : string) (a : A)
  : Prop :=
  exists trail,
    blank trail
    /\ String.length trail < String.length text
    /\ forall rest, p (text ++ rest) = Matched a (trail ++ rest).

(** An attribute the serializer prints and the parser reads back. *)
Definition plain_attribute {H : Host} (kv : string * value H) : Prop :=
  is_identifier (fst kv) = true /\ readable (snd kv).

(** A printed attribute with what the parser is to read from it, in a
    block and at top level. *)
Definition assignment_item {H : Host} (kv : string * value H)
  : string * dict (value H) :=
  (serialize_assignment (fst kv) (AVal (snd kv)), [kv]).

Definition global_item {H : Host} (kv : string * value H)
  : string * node H :=
  (serialize_assignment (fst kv) (AVal (snd kv)), NDict [kv]).

(** The text [serialize] prints for a block whose name is its identifier. *)
Definition block_text {H : Host} (name : string) (attributes : dict (value H))
  : string :=
  name ++ str1 LF ++ "{" ++ str1 LF
  ++ join (str1 LF) (attribute_lines attributes)
  ++ str1 LF ++ "}" ++ str1 LF.

(** A block the serializer prints and the parser reads back: its name is
    an identifier, its keys are distinct ordinary attribute names other
    than [name], and its values are plain. *)
Definition plain_block {H : Host} (b : string * dict (value H)) : Prop :=
  is_identifier (fst b) = true
  /\ Forall plain_attribute (snd b)
  /\ NoDup (map fst (snd b))
  /\ ordinary_keys (snd b)
  /\ dict_get "name" (snd b) = None.

(** The object the parser builds for a block. *)
Definition built {H : Host} (b : string * dict (value H)) (o : UDMFObject H)
  : Prop :=
  UDMFObject_init (UDMF_BLOCK_TYPES (fst b)) (snd b) (Some (fst b))
  = Return o.

Definition block_item {H : Host}
  (bo : (string * dict (value H)) * UDMFObject H) : string * node H :=
  (block_text (fst (fst bo)) (snd (fst bo)), NObject (snd bo)).

(** A node of a document, as [serialize] sees it, is the plain block [b]:
    its class is the one registered for its name, its name and its key
    list are those of [b], each key holds the value [b] gives it, and no
    instance attribute hides a method of the serializer. *)
Definition plain_node {H : Host} (o : UDMFObject H)
  (b : string * dict (value H)) : Prop :=
  plain_block b
  /\ ob_class o = UDMF_BLOCK_TYPES (fst b)
  /\ getattr o "name" = Return (AVal (VStr (fst b)))
  /\ getattr o "_attributes" = Return (AList (map fst (snd b)))
  /\ (forall k v, In (k, v) (snd b) -> getattr o k = Return (AVal v))
  /\ method_callable o "serialize" = Return tt
  /\ method_callable o "serialize_assignment" = Return tt.

(** Two objects show the same block: the same class, the same name, the
    same keys in the same order and the same value under each key. *)
Definition same_block {H : Host} (o o' : UDMFObject H) : Prop :=
  ob_class o' = ob_class o
  /\ getattr o' "name" = getattr o "name"
  /\ getattr o' "_attributes" = getattr o "_attributes"
  /\ forall keys k,
       getattr o "_attributes" = Return (AList keys) ->
       In k keys ->
       getattr o' k = getattr o k.

(** The keys of a sequence of assignments, each once, in the order of
    their first assignment. *)
Fixpoint first_keys (seen keys : list string) : list string :=
  match keys with
  | [] => []
  | k :: keys' =>
      if existsb (String.eqb k) seen then first_keys seen keys'
      else k :: first_keys (k :: seen) keys'
  end.

(** The value the last assignment to [k] gives it. *)
Definition last_assigned {V : Type} (k : string) (items : list (string * V))
  : option V :=
  dict_get k (rev items).

(** The block objects and the assignment dicts among the nodes of a
    parse. *)
Fixpoint objects_of {H : Host} (ast : list (node H)) : list (UDMFObject H) :=
  match ast with
  | [] => []
  | NObject o :: ast' => o :: objects_of ast'
  | NDict _ :: ast' => objects_of ast'
  end.

Fixpoint dicts_of {H : Host} (ast : list (node H)) : list (dict (value H)) :=
  match ast with
  | [] => []
  | NObject _ :: ast' => dicts_of ast'
  | NDict d :: ast' => d :: dicts_of ast'
  end.

(** The exceptions [load] can end with. *)
Definition load_exn (e : exn) : Prop :=
  e = NotFound \/ e = UnicodeDecodeError \/ e = FailedParse
  \/ semantic_exn e.

(** * Properties *)

(** ** The locator: which map [load] selects *)

Lemma nth_error_Some_lt {A : Type} (l : list A) (i : nat) (a : A) :
  nth_error l i = Some a -> i < List.length l.
Proof.
  intro E. apply nth_error_Some. rewrite E. discriminate.
Qed.

Lemma entries_names (w : WadIO) :
  map entry_name (WadIO_entries w) = map fst w.
Proof.
  unfold WadIO_entries. rewrite map_map. reflexivity.
Qed.

Lemma entries_length (w : WadIO) :
  List.length (WadIO_entries w) = List.length w.
Proof.
  unfold WadIO_entries. apply length_map.
Qed.

Lemma nth_error_entries (w : WadIO) (i : nat) :
  nth_error (WadIO_entries w) i
  = option_map (fun r => mkEntry (fst r)) (nth_error w i).
Proof.
  unfold WadIO_entries. apply nth_error_map.
Qed.

Lemma nth_error_names (w : WadIO) (i : nat) :
  nth_error (map fst w) i = option_map fst (nth_error w i).
Proof.
  apply nth_error_map.
Qed.

(** The snapshot of the bytes taken by [__init__] is the list of the
    records' bytes. *)
Lemma init_wad_data (H : Host) (w : WadIO) :
  _wad_data (UDMFMapEditor_init H w) = map snd w.
Proof.
  unfold UDMFMapEditor_init; simpl. rewrite entries_length.
  apply nth_error_ext. intro i.
  destruct (Nat.lt_ge_cases i (List.length w)) as [Hi | Hi].
  - rewrite nth_error_map, nth_error_seq, (proj2 (Nat.ltb_lt _ _) Hi).
    rewrite nth_error_map. simpl. unfold WadIO_read.
    rewrite (nth_error_nth' w (EmptyString, EmptyString) Hi). reflexivity.
  - rewrite (proj2 (nth_error_None _ _)) by (rewrite length_map, length_seq; exact Hi).
    rewrite (proj2 (nth_error_None _ _)) by (rewrite length_map; exact Hi).
    reflexivity.
Qed.

Lemma skipn_cons_nth {A : Type} (l : list A) (i : nat) (a : A) (r : list A) :
  skipn i l = a :: r -> nth_error l i = Some a /\ skipn (S i) l = r.
Proof.
  revert l; induction i as [| i IH]; intros [| x l] E; simpl in *;
    try discriminate.
  - injection E as -> ->. split; reflexivity.
  - apply IH in E. destruct l; exact E.
Qed.

(** What the outer loop of [load] returns: the first pair at or after the
    index it starts from, or nothing when there is none. *)
Lemma load_scan_spec (w : WadIO) (name : string) :
  forall todo index,
    todo = skipn index (WadIO_entries w) ->
    match load_scan (WadIO_entries w) name index todo with
    | Some (i, e) =>
        index <= i /\ e = mkEntry name /\ has_pair w name i
        /\ forall j, index <= j < i -> ~ has_pair w name j
    | None => forall j, index <= j -> ~ has_pair w name j
    end.
Proof.
  induction todo as [| entry todo IH]; intros index E; simpl.
  - intros j Hj [Hn _].
    assert (L : List.length (WadIO_entries w) <= index).
    { apply skipn_all_iff. symmetry; exact E. }
    rewrite entries_length in L.
    apply nth_error_Some_lt in Hn. rewrite length_map in Hn. lia.
  - symmetry in E. apply skipn_cons_nth in E. destruct E as [En Et].
    symmetry in Et.
    replace (index + 1) with (S index) by lia.
    destruct (nth_error (WadIO_entries w) (S index)) as [next |] eqn:Enext.
    + assert (Step : forall j, index <= j -> j <> index -> S index <= j)
        by (intros; lia).
      assert (Hname : nth_error (map fst w) index = Some (entry_name entry)).
      { rewrite <- entries_names, nth_error_map, En. reflexivity. }
      assert (Hnext : nth_error (map fst w) (S index)
                      = Some (entry_name next)).
      { rewrite <- entries_names, nth_error_map, Enext. reflexivity. }
      destruct (String.eqb_spec (entry_name next) "TEXTMAP") as [Ht | Ht];
        simpl.
      * destruct (String.eqb_spec (entry_name entry) name) as [Hn | Hn];
          simpl.
        -- split; [lia |]. split; [destruct entry; simpl in Hn; congruence |].
           split; [split; congruence |]. intros j Hj; lia.
        -- specialize (IH (S index) Et).
           destruct (load_scan (WadIO_entries w) name (S index) todo)
             as [[i e] |].
           ++ destruct IH as (Hi & He & Hp & Hmin).
              repeat split; try assumption; try lia; try apply Hp.
              intros j Hj. destruct (Nat.eq_dec j index) as [-> | Hne].
              ** intros [Hc _]. congruence.
              ** apply Hmin. lia.
           ++ intros j Hj. destruct (Nat.eq_dec j index) as [-> | Hne].
              ** intros [Hc _]. congruence.
              ** apply IH. lia.
      * specialize (IH (S index) Et).
        destruct (load_scan (WadIO_entries w) name (S index) todo)
          as [[i e] |].
        -- destruct IH as (Hi & He & Hp & Hmin).
           repeat split; try assumption; try lia; try apply Hp.
           intros j Hj. destruct (Nat.eq_dec j index) as [-> | Hne].
           ++ intros [_ Hc]. congruence.
           ++ apply Hmin. lia.
        -- intros j Hj. destruct (Nat.eq_dec j index) as [-> | Hne].
           ++ intros [_ Hc]. congruence.
           ++ apply IH. lia.
    + intros j Hj [_ Hc].
      apply nth_error_None in Enext. rewrite entries_length in Enext.
      apply nth_error_Some_lt in Hc. rewrite length_map in Hc. lia.
Qed.

(** What the inner loop of [load] leaves in [self.data]: the text of the
    span when its [TEXTMAP] records are 7-bit, and a decoding error
    otherwise. *)
Lemma load_span_spec (w : WadIO) (index : nat) :
  forall records subindex data,
    skipn (index + subindex) w = records ->
    (span_ascii records = true ->
     load_span (map snd w) index subindex (WadIO_entries records) data
     = (span_text records data, Return tt))
    /\ (span_ascii records = false ->
        snd (load_span (map snd w) index subindex (WadIO_entries records) data)
        = Throw UnicodeDecodeError).
Proof.
  induction records as [| [n b] records IH]; intros subindex data E; simpl.
  - split; [reflexivity | discriminate].
  - apply skipn_cons_nth in E. destruct E as [En Er].
    replace (S (index + subindex)) with (index + S subindex) in Er by lia.
    destruct (String.eqb n "ENDMAP"); [split; [reflexivity | discriminate] |].
    destruct (String.eqb n "TEXTMAP").
    + rewrite nth_error_map, En. simpl. unfold decode_ascii.
      destruct (all_chars is_ascii b); simpl.
      * apply IH; exact Er.
      * split; [discriminate | reflexivity].
    + apply IH; exact Er.
Qed.

Lemma scan_first_pair (w : WadIO) (name : string) (i : nat) :
  first_pair w name i ->
  load_scan (WadIO_entries w) name 0 (WadIO_entries w)
  = Some (i, mkEntry name).
Proof.
  intros [Hp Hmin].
  pose proof (load_scan_spec w name (WadIO_entries w) 0 eq_refl) as S.
  destruct (load_scan (WadIO_entries w) name 0 (WadIO_entries w))
    as [[i' e] |].
  - destruct S as (_ & -> & Hp' & Hmin').
    destruct (Nat.lt_trichotomy i i') as [L | [-> | L]].
    + exfalso. apply (Hmin' i); [lia | exact Hp].
    + reflexivity.
    + exfalso. apply (Hmin i'); assumption.
  - exfalso. apply (S i); [lia | exact Hp].
Qed.

Lemma scan_no_pair (w : WadIO) (name : string) :
  (forall i, ~ has_pair w name i) ->
  load_scan (WadIO_entries w) name 0 (WadIO_entries w) = None.
Proof.
  intro Hno.
  pose proof (load_scan_spec w name (WadIO_entries w) 0 eq_refl) as S.
  destruct (load_scan (WadIO_entries w) name 0 (WadIO_entries w))
    as [[i' e] |]; [| reflexivity].
  destruct S as (_ & _ & Hp & _). exfalso. exact (Hno i' Hp).
Qed.

Lemma scan_found_first (w : WadIO) (name : string) (i : nat) (e : Entry) :
  load_scan (WadIO_entries w) name 0 (WadIO_entries w) = Some (i, e) ->
  e = mkEntry name /\ first_pair w name i.
Proof.
  intro E.
  pose proof (load_scan_spec w name (WadIO_entries w) 0 eq_refl) as S.
  rewrite E in S. destruct S as (_ & He & Hp & Hmin).
  split; [exact He |]. split; [exact Hp |].
  intros j Hj. apply Hmin. lia.
Qed.

(** ** The exceptions a parse can raise *)

Section Raises.

Variable P : exn -> Prop.

Lemma raises_only_pattern re : raises_only P (pattern re).
Proof.
  intros s e. unfold pattern. destruct (re s) as [[l r] |]; discriminate.
Qed.

Lemma raises_only_token (H : Host) tok : raises_only P (token H tok).
Proof.
  intros s e. unfold token.
  destruct (match_token H tok (next_token s)); discriminate.
Qed.

Lemma raises_only_pret {A : Type} (a : A) : raises_only P (pret a).
Proof.
  intros s e. discriminate.
Qed.

Lemma raises_only_eof : raises_only P eof.
Proof.
  intros s e. unfold eof. destruct (next_token s); discriminate.
Qed.

Lemma raises_only_rule {A B : Type} (body : parser A) (action : A -> result B) :
  raises_only P body ->
  (forall a e, action a = Throw e -> P e) ->
  raises_only P (rule body action).
Proof.
  intros Hb Ha s e. unfold rule.
  destruct (body (next_token s)) as [a r | c | e'] eqn:E.
  - destruct (action a) as [b | e'] eqn:Ea; [discriminate |].
    intros [= <-]. exact (Ha a e' Ea).
  - discriminate.
  - intros [= <-]. exact (Hb _ _ E).
Qed.

Lemma raises_only_pbind {A B : Type} (p : parser A) (k : A -> parser B) :
  raises_only P p ->
  (forall a, raises_only P (k a)) ->
  raises_only P (pbind p k).
Proof.
  intros Hp Hk s e. unfold pbind.
  destruct (p s) as [a r | c | e'] eqn:E.
  - apply Hk.
  - discriminate.
  - intros [= <-]. exact (Hp _ _ E).
Qed.

Lemma raises_only_choice {A : Type} (p q : parser A) :
  raises_only P p -> raises_only P q -> raises_only P (choice p q).
Proof.
  intros Hp Hq s e. unfold choice.
  destruct (p s) as [a r | [|] | e'] eqn:E.
  - discriminate.
  - discriminate.
  - apply Hq.
  - intros [= <-]. exact (Hp _ _ E).
Qed.

Lemma raises_only_cut {A : Type} (p : parser A) :
  raises_only P p -> raises_only P (cut p).
Proof.
  intros Hp s e. unfold cut.
  destruct (p s) as [a r | c | e'] eqn:E; try discriminate.
  intros [= <-]. exact (Hp _ _ E).
Qed.

Lemma raises_only_closure {A : Type} (p : parser A) :
  raises_only P p -> forall fuel, raises_only P (closure fuel p).
Proof.
  intros Hp fuel. induction fuel as [| fuel IH]; intros s e; simpl.
  - discriminate.
  - destruct (p s) as [a r | c | e'] eqn:E.
    + destruct (Nat.ltb (String.length r) (String.length s));
        [| discriminate].
      destruct (closure fuel p r) as [l r' | c | e'] eqn:Ec;
        try discriminate.
      intros [= <-]. exact (IH _ _ Ec).
    + discriminate.
    + intros [= <-]. exact (Hp _ _ E).
Qed.

Lemma no_action_returns {A : Type} (a : A) (e : exn) :
  no_action a = Throw e -> P e.
Proof.
  discriminate.
Qed.

End Raises.

Lemma init_attributes_raises (H : Host) (items : list (string * value H)) :
  forall self e, init_attributes self items = Throw e -> semantic_exn e.
Proof.
  induction items as [| [key v] items IH]; intros self e; simpl.
  - discriminate.
  - destruct (dict_get "_attributes" (ob_dict self)) as [[| v' | l] |];
      try (intros [= <-]; exact I).
    unfold setattr; simpl.
    destruct (String.eqb key "__class__" || String.eqb key "__dict__");
      simpl; [intros [= <-]; exact I |].
    destruct (String.eqb key "__weakref__"); simpl;
      [intros [= <-]; exact I |].
    apply IH.
Qed.

Lemma py_int_raises (s : string) (e : exn) :
  py_int s = Throw e -> semantic_exn e.
Proof.
  unfold py_int. destruct (opt_sign s) as [sg ds].
  destruct ds as [| c ds]; [intros [= <-]; exact I |].
  destruct (NilEmpty.uint_of_string (String c ds));
    [discriminate | intros [= <-]; exact I].
Qed.

Lemma value_rule_raises (H : Host) : raises_only semantic_exn (value_rule H).
Proof.
  unfold value_rule.
  apply raises_only_rule; [| apply no_action_returns].
  repeat apply raises_only_choice.
  - apply raises_only_rule; [apply raises_only_pattern | discriminate].
  - apply raises_only_rule.
    + repeat apply raises_only_choice;
        first [apply raises_only_token | apply raises_only_pattern].
    + intros a e. unfold UDMFSemantics_integer.
      destruct (py_int a) as [z | e'] eqn:E; simpl; [discriminate |].
      intros [= <-]. exact (py_int_raises _ _ E).
  - apply raises_only_rule; [apply raises_only_pattern | discriminate].
  - apply raises_only_rule; [| discriminate].
    apply raises_only_choice; apply raises_only_token.
  - apply raises_only_rule; [apply raises_only_pattern |].
    intros a e [= <-]. exact I.
Qed.

Lemma identifier_raises : raises_only semantic_exn identifier.
Proof.
  apply raises_only_rule; [apply raises_only_pattern | apply no_action_returns].
Qed.

Lemma assignment_expr_raises (H : Host) :
  raises_only semantic_exn (assignment_expr H).
Proof.
  unfold assignment_expr.
  apply raises_only_rule; [| intros [[[i q] v] m] e; discriminate].
  apply raises_only_pbind; [apply identifier_raises | intro].
  apply raises_only_pbind; [apply raises_only_token | intro].
  apply raises_only_pbind; [apply value_rule_raises | intro].
  apply raises_only_pbind; [apply raises_only_token | intro].
  apply raises_only_pret.
Qed.

Lemma expr_list_raises (H : Host) : raises_only semantic_exn (expr_list H).
Proof.
  intros s e. unfold expr_list.
  apply raises_only_rule; [| apply no_action_returns].
  apply raises_only_closure, assignment_expr_raises.
Qed.

Lemma block_raises (H : Host) : raises_only semantic_exn (block H).
Proof.
  unfold block.
  apply raises_only_rule.
  - apply raises_only_pbind; [apply identifier_raises | intro].
    apply raises_only_pbind; [apply raises_only_token | intro].
    apply raises_only_cut.
    apply raises_only_pbind; [apply expr_list_raises | intro].
    apply raises_only_pbind; [apply raises_only_token | intro].
    apply raises_only_pret.
  - intros [[[n o] l] c] e. unfold UDMFSemantics_block, UDMFObject_init.
    apply init_attributes_raises.
Qed.

Lemma global_expr_raises (H : Host) :
  raises_only semantic_exn (global_expr H).
Proof.
  unfold global_expr.
  apply raises_only_rule; [| apply no_action_returns].
  apply raises_only_choice.
  - apply raises_only_pbind; [apply block_raises | intro].
    apply raises_only_pret.
  - apply raises_only_pbind; [apply assignment_expr_raises | intro].
    apply raises_only_pret.
Qed.

(** A parse ends with a document, a syntax error, or the exception of a
    semantic action. *)
Lemma parse_raises (H : Host) (text : string) (e : exn) :
  UDMF_PARSER_parse H text = Throw e -> e = FailedParse \/ semantic_exn e.
Proof.
  unfold UDMF_PARSER_parse.
  destruct (translation_unit H text) as [ast r | c | e'] eqn:E.
  - discriminate.
  - intros [= <-]. left; reflexivity.
  - intros [= <-]. right. revert E. apply raises_only_rule.
    + apply raises_only_pbind.
      * intros s e0. unfold global_expr_list.
        apply raises_only_rule; [| apply no_action_returns].
        apply raises_only_closure, global_expr_raises.
      * intro. apply raises_only_pbind; [apply raises_only_eof | intro].
        apply raises_only_pret.
    + apply no_action_returns.
Qed.

(** ** [load] on a fresh editor *)

Lemma load_init_none (H : Host) (w : WadIO) (name : string) :
  (forall i, ~ has_pair w name i) ->
  snd (load name (UDMFMapEditor_init H w)) = Throw NotFound.
Proof.
  intro Hno. unfold load, UDMFMapEditor_init; simpl.
  rewrite (scan_no_pair w name Hno). reflexivity.
Qed.

Lemma load_init_some (H : Host) (w : WadIO) (name : string) (i : nat) :
  first_pair w name i ->
  load name (UDMFMapEditor_init H w)
  = let (data, ended) :=
      load_span (map snd w) i 0 (WadIO_entries (skipn i w)) None in
    match ended with
    | Throw e => (located H w name i data, Throw e)
    | Return _ =>
        if falsy (Some name) || falsy data
        then (located H w name i data, Throw NotFound)
        else _parse (located H w name i data)
    end.
Proof.
  intro Hf. pose proof (init_wad_data H w) as Hd.
  unfold load, UDMFMapEditor_init in *; simpl in *.
  rewrite (scan_first_pair w name i Hf). rewrite Hd.
  replace (skipn i (WadIO_entries w)) with (WadIO_entries (skipn i w))
    by (unfold WadIO_entries; symmetry; apply skipn_map).
  destruct (load_span (map snd w) i 0 (WadIO_entries (skipn i w)) None)
    as [data [[] | e]]; reflexivity.
Qed.

Lemma _parse_not_NotFound (H : Host) (ed : UDMFMapEditor H) :
  ed_data ed <> None -> snd (_parse ed) <> Throw NotFound.
Proof.
  intro Hd. unfold _parse.
  destruct (ed_data ed) as [text |]; [| congruence].
  destruct (UDMF_PARSER_parse H text) as [ast | e] eqn:E; simpl.
  - discriminate.
  - intros [= ->]. apply parse_raises in E. destruct E as [E | E].
    + discriminate.
    + exact E.
Qed.

(** C9 (amended). On a fresh editor, [load(name)] raises the not-found
    error exactly when the snapshot holds no record named [name] directly
    followed by a [TEXTMAP] record, or when, for the first such pair, the
    requested name is empty or the span of that map (its records up to the
    first [ENDMAP]) supplies no text or an empty text. The error comes from
    the check that follows the scan loop. *)
Theorem load_not_found_iff (H : Host) (w : WadIO) (name : string) :
  snd (load name (UDMFMapEditor_init H w)) = Throw NotFound
  <-> (forall i, ~ has_pair w name i)
      \/ (exists i, first_pair w name i
                    /\ span_ascii (skipn i w) = true
                    /\ (name = ""
                        \/ falsy (span_text (skipn i w) None) = true)).
Proof.
  split.
  - intro E.
    destruct (load_scan (WadIO_entries w) name 0 (WadIO_entries w))
      as [[i e] |] eqn:Es.
    + apply scan_found_first in Es. destruct Es as [_ Hf].
      right. exists i. split; [exact Hf |].
      rewrite (load_init_some H w name i Hf) in E.
      destruct (load_span_spec w i (skipn i w) 0 None) as [Hok Hbad];
        [f_equal; lia |].
      destruct (span_ascii (skipn i w)).
      * split; [reflexivity |].
        rewrite (Hok eq_refl) in E.
        simpl falsy at 1 in E.
        destruct (String.eqb_spec name "") as [Hn | Hn];
          [left; exact Hn |].
        destruct (falsy (span_text (skipn i w) None)) eqn:Ef;
          [right; reflexivity |].
        simpl in E. exfalso. revert E. apply _parse_not_NotFound.
        simpl. destruct (span_text (skipn i w) None); [discriminate |].
        discriminate.
      * specialize (Hbad eq_refl).
        destruct (load_span (map snd w) i 0 (WadIO_entries (skipn i w)) None)
          as [data ended].
        simpl in Hbad. subst ended. simpl in E. discriminate.
    + left. intros i Hp.
      pose proof (load_scan_spec w name (WadIO_entries w) 0 eq_refl) as S.
      rewrite Es in S. apply (S i); [lia | exact Hp].
  - intros [Hno | (i & Hf & Ha & Hfalsy)].
    + apply load_init_none; exact Hno.
    + rewrite (load_init_some H w name i Hf).
      destruct (load_span_spec w i (skipn i w) 0 None) as [Hok _];
        [f_equal; lia |].
      rewrite (Hok Ha).
      destruct Hfalsy as [-> | Hfalsy].
      * reflexivity.
      * rewrite Hfalsy, orb_true_r. reflexivity.
Qed.

(** C9, as stated, fails: the snapshot holds the pair [MAP01], [TEXTMAP],
    the text record is empty, and [load] raises the not-found error. *)
Lemma load_not_found_with_pair :
  let w := [("MAP01", ""); ("TEXTMAP", "")] in
  ~ (snd (load "MAP01" (UDMFMapEditor_init plain_host w)) = Throw NotFound
     <-> forall i, ~ has_pair w "MAP01" i).
Proof.
  intros w [Hto _].
  apply (Hto eq_refl 0). split; reflexivity.
Qed.

Lemma skipn_nth_error {A : Type} (l : list A) (i : nat) (a : A) :
  nth_error l i = Some a -> skipn i l = a :: skipn (S i) l.
Proof.
  revert l; induction i as [| i IH]; intros [| x l] E; simpl in *;
    try discriminate.
  - injection E as ->. reflexivity.
  - rewrite (IH l E). destruct l; reflexivity.
Qed.

Lemma no_textmap_span_text (records : WadIO) (text : option string) :
  no_textmap records = true -> span_text records text = text.
Proof.
  induction records as [| [n b] records IH]; simpl; intro E;
    [reflexivity |].
  destruct (String.eqb n "ENDMAP"); [reflexivity |].
  destruct (String.eqb n "TEXTMAP"); [discriminate |].
  apply IH; exact E.
Qed.

Lemma no_textmap_span_ascii (records : WadIO) :
  no_textmap records = true -> span_ascii records = true.
Proof.
  induction records as [| [n b] records IH]; simpl; intro E;
    [reflexivity |].
  destruct (String.eqb n "ENDMAP"); [reflexivity |].
  destruct (String.eqb n "TEXTMAP"); [discriminate |].
  apply IH; exact E.
Qed.

Lemma _parse_nodes_keep_location (H : Host) (ast : list (node H)) :
  forall ed : UDMFMapEditor H,
    ed_index (fold_left _parse_node ast ed) = ed_index ed
    /\ ed_name (fold_left _parse_node ast ed) = ed_name ed
    /\ ed_data (fold_left _parse_node ast ed) = ed_data ed
    /\ _wad_entries (fold_left _parse_node ast ed) = _wad_entries ed
    /\ _wad_data (fold_left _parse_node ast ed) = _wad_data ed.
Proof.
  induction ast as [| n ast IH]; intro ed; simpl; [repeat split |].
  destruct (IH (_parse_node ed n)) as (A & B & C & D & E).
  rewrite A, B, C, D, E. destruct n; repeat split.
Qed.

Lemma _parse_keeps_location (H : Host) (ed : UDMFMapEditor H) :
  ed_index (fst (_parse ed)) = ed_index ed
  /\ ed_name (fst (_parse ed)) = ed_name ed
  /\ ed_data (fst (_parse ed)) = ed_data ed
  /\ _wad_entries (fst (_parse ed)) = _wad_entries ed
  /\ _wad_data (fst (_parse ed)) = _wad_data ed.
Proof.
  unfold _parse. destruct (ed_data ed) as [text |] eqn:Ed.
  - destruct (UDMF_PARSER_parse H text) as [ast | e]; simpl.
    + rewrite <- Ed. apply _parse_nodes_keep_location.
    + repeat split; exact Ed.
  - repeat split; exact Ed.
Qed.

(** The span of the first pair, when the header is neither [ENDMAP] nor
    [TEXTMAP] and no second [TEXTMAP] record precedes the next [ENDMAP]:
    its text is that of the record after the header. *)
Lemma span_of_pair (w : WadIO) (name : string) (i : nat) :
  has_pair w name i ->
  name <> "ENDMAP" -> name <> "TEXTMAP" ->
  no_textmap (skipn (S (S i)) w) = true ->
  span_text (skipn i w) None = Some (WadIO_read w (S i))
  /\ span_ascii (skipn i w)
     = all_chars is_ascii (WadIO_read w (S i)).
Proof.
  intros [Hh Ht] Hne Hnt Hclean.
  rewrite nth_error_names in Hh, Ht.
  destruct (nth_error w i) as [[n0 b0] |] eqn:E0; [| discriminate].
  destruct (nth_error w (S i)) as [[n1 b1] |] eqn:E1; [| discriminate].
  simpl in Hh, Ht. injection Hh as ->. injection Ht as ->.
  rewrite (skipn_nth_error w i _ E0), (skipn_nth_error w (S i) _ E1).
  remember (skipn (S (S i)) w) as rest eqn:Er.
  unfold WadIO_read. rewrite (nth_error_nth w _ _ E1). simpl.
  rewrite (proj2 (String.eqb_neq _ _) Hne), (proj2 (String.eqb_neq _ _) Hnt).
  rewrite (no_textmap_span_text _ _ Hclean),
    (no_textmap_span_ascii _ Hclean), andb_true_r.
  split; reflexivity.
Qed.

(** Where [load] leaves the editor of a snapshot that holds the map: the
    header index is that of the first pair, and the snapshot is kept. *)
Lemma load_location (H : Host) (w : WadIO) (name : string) (i : nat) :
  first_pair w name i ->
  let ed := fst (load name (UDMFMapEditor_init H w)) in
  ed_index ed = Some i /\ ed_name ed = Some name
  /\ _wad_entries ed = WadIO_entries w /\ _wad_data ed = map snd w.
Proof.
  intros Hf ed. subst ed. rewrite (load_init_some H w name i Hf).
  destruct (load_span (map snd w) i 0 (WadIO_entries (skipn i w)) None)
    as [data [[] | e]]; [| repeat split].
  destruct (falsy (Some name) || falsy data); [repeat split |].
  destruct (_parse_keeps_location H (located H w name i data))
    as (A & B & _ & D & E).
  rewrite A, B, D, E. repeat split.
Qed.

(** C8 (amended). When the snapshot holds header+[TEXTMAP] pairs named
    [name], [load] on a fresh editor records the smallest header index
    of them. When moreover the name is neither [ENDMAP] nor [TEXTMAP] and
    no further [TEXTMAP] record lies between that pair and the next
    [ENDMAP] record (or the end of the snapshot), the text taken is that
    of the record after the header, and the document is parsed from that
    text alone: records of later maps are not read. *)
Theorem load_selects_first_pair (H : Host) (w : WadIO) (name : string)
  (i : nat) :
  first_pair w name i ->
  let ed := fst (load name (UDMFMapEditor_init H w)) in
  ed_index ed = Some i
  /\ ed_name ed = Some name
  /\ (name <> "ENDMAP" -> name <> "TEXTMAP" ->
      no_textmap (skipn (S (S i)) w) = true ->
      all_chars is_ascii (WadIO_read w (S i)) = true ->
      ed_data ed = Some (WadIO_read w (S i))
      /\ (name <> "" -> WadIO_read w (S i) <> "" ->
          load name (UDMFMapEditor_init H w)
          = _parse (located H w name i (Some (WadIO_read w (S i)))))).
Proof.
  intros Hf ed. subst ed.
  destruct (load_location H w name i Hf) as (Li & Ln & _).
  split; [exact Li |]. split; [exact Ln |].
  rewrite (load_init_some H w name i Hf).
  destruct (load_span (map snd w) i 0 (WadIO_entries (skipn i w)) None)
    as [data ended] eqn:Espan.
  intros Hne Hnt Hclean Hascii.
  destruct (span_of_pair w name i (proj1 Hf) Hne Hnt Hclean) as [Htext Has].
  rewrite Hascii in Has.
  destruct (load_span_spec w i (skipn i w) 0 None) as [Hok _];
    [f_equal; lia |].
  rewrite (Hok Has), Htext in Espan. injection Espan as <- <-.
  split.
  - destruct (falsy (Some name) || falsy (Some (WadIO_read w (S i))));
      [reflexivity |].
    destruct (_parse_keeps_location H
                (located H w name i (Some (WadIO_read w (S i)))))
      as (_ & _ & C & _).
    rewrite C. reflexivity.
  - intros Hn Hd. simpl.
    rewrite (proj2 (String.eqb_neq _ _) Hn), (proj2 (String.eqb_neq _ _) Hd).
    reflexivity.
Qed.

Lemma load_selects_first_pair_witness :
  let w := [("MAP01", ""); ("TEXTMAP", "a = 1;"); ("ENDMAP", "");
            ("MAP01", ""); ("TEXTMAP", "b = 2;"); ("ENDMAP", "")] in
  let ed := fst (load "MAP01" (UDMFMapEditor_init plain_host w)) in
  first_pair w "MAP01" 0
  /\ ed_index ed = Some 0
  /\ ed_data ed = Some "a = 1;".
Proof.
  intros w ed.
  assert (Hf : first_pair w "MAP01" 0).
  { split; [split; reflexivity |]. intros j Hj. inversion Hj. }
  split; [exact Hf |].
  destruct (load_selects_first_pair plain_host w "MAP01" 0 Hf)
    as (Hi & _ & Hd).
  split; [exact Hi |].
  apply Hd; try discriminate; reflexivity.
Defined.

(** C8, as stated, fails: two maps named [MAP01] with no [ENDMAP] record
    between them; the header index recorded is that of the first map, and
    the text parsed is that of the second. *)
Lemma load_parses_later_map :
  let w := [("MAP01", ""); ("TEXTMAP", "a = 1;");
            ("MAP01", ""); ("TEXTMAP", "b = 2;")] in
  let ed := fst (load "MAP01" (UDMFMapEditor_init plain_host w)) in
  has_pair w "MAP01" 0 /\ has_pair w "MAP01" 2
  /\ snd (load "MAP01" (UDMFMapEditor_init plain_host w)) = Return tt
  /\ ed_index ed = Some 0
  /\ ed_data ed = Some (WadIO_read w 3)
  /\ ed_data ed <> Some (WadIO_read w 1)
  /\ _meta ed = [("b", VInt 2)].
Proof.
  vm_compute. repeat split; try reflexivity. discriminate.
Qed.

(** ** [save] *)

Lemma spliced_names (i : nat) (bytes : string) (records : WadIO) :
  forall index, map fst (spliced i bytes index records) = map fst records.
Proof.
  induction records as [| [n b] records IH]; intro index; simpl;
    [reflexivity |].
  rewrite IH. reflexivity.
Qed.

Lemma spliced_nth (i : nat) (bytes : string) (records : WadIO) :
  forall index k,
    nth_error (spliced i bytes index records) k
    = option_map
        (fun r => (fst r, if Nat.eqb (index + k) (i + 1) then bytes
                          else snd r))
        (nth_error records k).
Proof.
  induction records as [| [n b] records IH]; intros index k; simpl.
  - destruct k; reflexivity.
  - destruct k as [| k]; simpl.
    + rewrite Nat.add_0_r. reflexivity.
    + rewrite IH. replace (S index + k) with (index + S k) by lia.
      reflexivity.
Qed.

Lemma save_loop_spec (H : Host) (self : UDMFMapEditor H) (w : WadIO)
  (i : nat) (text bytes : string) :
  ed_index self = Some i ->
  _wad_data self = map snd w ->
  UDMFMapEditor_serialize self = Return text ->
  encode_ascii text = Return bytes ->
  forall records index output,
    skipn index w = records ->
    save_loop self index (WadIO_entries records) output
    = Return (output ++ spliced i bytes index records)%list.
Proof.
  intros Hi Hd Hs He.
  induction records as [| [n b] records IH]; intros index output E; simpl.
  - rewrite List.app_nil_r. reflexivity.
  - apply skipn_cons_nth in E. destruct E as [En Er].
    rewrite Hi.
    destruct (Nat.eqb index (i + 1)).
    + rewrite Hs. simpl. rewrite He. simpl.
      rewrite (IH (S index) _ Er). unfold WadIO_insert.
      rewrite <- List.app_assoc. reflexivity.
    + rewrite Hd, nth_error_map, En. simpl.
      rewrite (IH (S index) _ Er). unfold WadIO_insert.
      rewrite <- List.app_assoc. reflexivity.
Qed.

(** C2. After a load, and whatever edits the document has received since,
    [save] (when the document serializes to 7-bit text) writes as many
    records as the snapshot holds, under the same names in the same order;
    every record other than the one after the header has the bytes of the
    snapshot, and the record after the header, the [TEXTMAP] one, has the
    bytes of the serialized document. *)
Theorem save_replaces_text_record_only (H : Host) (w : WadIO)
  (name : string) (loaded self : UDMFMapEditor H) (text bytes : string) :
  load name (UDMFMapEditor_init H w) = (loaded, Return tt) ->
  _wad_entries self = _wad_entries loaded ->
  _wad_data self = _wad_data loaded ->
  ed_index self = ed_index loaded ->
  UDMFMapEditor_serialize self = Return text ->
  encode_ascii text = Return bytes ->
  exists i out,
    ed_index self = Some i
    /\ save self = Return out
    /\ map fst out = map fst w
    /\ (forall j, j <> S i -> nth_error out j = nth_error w j)
    /\ nth_error out (S i) = Some ("TEXTMAP", bytes).
Proof.
  intros Hload Hentries Hdata Hindex Hs He.
  destruct (load_scan (WadIO_entries w) name 0 (WadIO_entries w))
    as [[i e] |] eqn:Es.
  - apply scan_found_first in Es. destruct Es as [_ Hf].
    destruct (load_location H w name i Hf) as (Li & _ & Le & Ld).
    rewrite Hload in Li, Le, Ld. simpl in Li, Le, Ld.
    rewrite Li in Hindex. rewrite Le in Hentries. rewrite Ld in Hdata.
    exists i, (spliced i bytes 0 w).
    split; [exact Hindex |]. split.
    + unfold save. rewrite Hentries.
      rewrite (save_loop_spec H self w i text bytes Hindex Hdata Hs He w 0
                 WadIO_new eq_refl).
      reflexivity.
    + split; [apply spliced_names |]. split.
      * intros j Hj. rewrite spliced_nth. change (0 + j) with j.
        replace (i + 1) with (S i) by lia.
        rewrite (proj2 (Nat.eqb_neq _ _) Hj).
        destruct (nth_error w j) as [[n b] |]; reflexivity.
      * rewrite spliced_nth. change (0 + S i) with (S i).
        replace (i + 1) with (S i) by lia.
        rewrite Nat.eqb_refl.
        destruct Hf as [[_ Ht] _]. rewrite nth_error_names in Ht.
        destruct (nth_error w (S i)) as [[n b] |]; [| discriminate].
        injection Ht as Ht. simpl in Ht. subst n. reflexivity.
  - exfalso.
    assert (Hno : forall j, ~ has_pair w name j).
    { intros j Hp.
      pose proof (load_scan_spec w name (WadIO_entries w) 0 eq_refl) as S.
      rewrite Es in S. apply (S j); [lia | exact Hp]. }
    pose proof (load_init_none H w name Hno) as Hnf.
    rewrite Hload in Hnf. discriminate.
Qed.

Lemma save_replaces_text_record_only_witness :
  let w := [("LUMP", "xyz"); ("MAP01", ""); ("TEXTMAP", "a = 1;");
            ("ENDMAP", "")] in
  let loaded := fst (load "MAP01" (UDMFMapEditor_init plain_host w)) in
  exists i out,
    ed_index loaded = Some i
    /\ save loaded = Return out
    /\ map fst out = map fst w
    /\ (forall j, j <> S i -> nth_error out j = nth_error w j)
    /\ nth_error out (S i)
       = Some ("TEXTMAP", "a = 1;" ++ str1 LF).
Proof.
  intros w loaded.
  apply (save_replaces_text_record_only plain_host w "MAP01" loaded loaded
           ("a = 1;" ++ str1 LF) ("a = 1;" ++ str1 LF));
    reflexivity.
Defined.

(** ** Strings *)

Lemma append_assoc (a b c : string) : (a ++ b) ++ c = a ++ (b ++ c).
Proof.
  induction a as [| x a IH]; simpl; [reflexivity | rewrite IH; reflexivity].
Qed.

Lemma append_nil_r (a : string) : a ++ "" = a.
Proof.
  induction a as [| x a IH]; simpl; [reflexivity | rewrite IH; reflexivity].
Qed.

Lemma length_append (a b : string) :
  String.length (a ++ b) = String.length a + String.length b.
Proof.
  induction a as [| x a IH]; simpl; [reflexivity | rewrite IH; reflexivity].
Qed.

Lemma span_append (p : ascii -> bool) (l r : string) :
  all_chars p l = true -> stops p r = true -> span p (l ++ r) = (l, r).
Proof.
  intros Hl Hr. induction l as [| c l IH]; simpl in *.
  - destruct r as [| d r]; simpl in *; [reflexivity |].
    destruct (p d); [discriminate | reflexivity].
  - apply andb_true_iff in Hl. destruct Hl as [Hc Hl].
    rewrite Hc, (IH Hl). reflexivity.
Qed.

Lemma strip_prefix_append (t s : string) : strip_prefix t (t ++ s) = Some s.
Proof.
  induction t as [| c t IH]; simpl; [reflexivity |].
  rewrite Ascii.eqb_refl. exact IH.
Qed.

(** ** Skipping blanks and comments *)

Lemma skip_line_length (s : string) :
  String.length (skip_line s) <= String.length s.
Proof.
  induction s as [| c s IH]; simpl; [lia |].
  destruct (Ascii.eqb c LF); simpl; lia.
Qed.

Lemma eol_comment_shorter (s r : string) :
  eol_comment s = Some r -> String.length r < String.length s.
Proof.
  unfold eol_comment.
  destruct s as [| c [| d s]]; try discriminate.
  - destruct c as [[] [] [] [] [] [] [] []]; discriminate.
  - destruct c as [[] [] [] [] [] [] [] []]; try discriminate.
    destruct d as [[] [] [] [] [] [] [] []]; try discriminate.
    intros [= <-]. pose proof (skip_line_length s). simpl. lia.
Qed.

Lemma close_comment_shorter (s r : string) :
  close_comment s = Some r -> String.length r < String.length s.
Proof.
  revert r. induction s as [| c s IH]; intro r; simpl; [discriminate |].
  assert (Step : (if Ascii.eqb c LF then None else close_comment s) = Some r
                 -> String.length r < S (String.length s)).
  { destruct (Ascii.eqb c LF); [discriminate |].
    intro E. apply IH in E. lia. }
  destruct c as [[] [] [] [] [] [] [] []]; try exact Step.
  destruct s as [| d s']; [exact Step |].
  destruct d as [[] [] [] [] [] [] [] []]; try exact Step.
  intros [= <-]. simpl. lia.
Qed.

Lemma comment_shorter (s r : string) :
  comment s = Some r -> String.length r < String.length s.
Proof.
  unfold comment.
  destruct s as [| c [| d s]]; try discriminate.
  - destruct c as [[] [] [] [] [] [] [] []]; discriminate.
  - destruct c as [[] [] [] [] [] [] [] []]; try discriminate.
    destruct d as [[] [] [] [] [] [] [] []]; try discriminate.
    intro E. apply close_comment_shorter in E. simpl. lia.
Qed.

(** The loop of [next_token] has run to its end once the fuel covers the
    length of the text. *)
Lemma next_token_loop_fuel :
  forall n m s,
    String.length s <= n -> String.length s <= m ->
    next_token_loop n s = next_token_loop m s.
Proof.
  induction n as [| n IH]; intros m s Hn Hm.
  - destruct s; [| simpl in Hn; lia]. destruct m; reflexivity.
  - destruct m as [| m].
    + destruct s; [reflexivity | simpl in Hm; lia].
    + simpl.
      destruct (eol_comment s) as [r |] eqn:Ee.
      { apply eol_comment_shorter in Ee. apply IH; lia. }
      destruct (comment s) as [r |] eqn:Ec.
      { apply comment_shorter in Ec. apply IH; lia. }
      destruct s as [| c s]; [reflexivity |].
      destruct (is_whitespace c); [| reflexivity].
      simpl in Hn, Hm. apply IH; lia.
Qed.

(** The equation of [next_token]. *)
Lemma next_token_eq (s : string) :
  next_token s
  = match eol_comment s with
    | Some r => next_token r
    | None =>
        match comment s with
        | Some r => next_token r
        | None =>
            match s with
            | String c s' => if is_whitespace c then next_token s' else s
            | EmptyString => s
            end
        end
    end.
Proof.
  unfold next_token at 1.
  rewrite (next_token_loop_fuel (String.length s) (S (String.length s)) s)
    by lia.
  simpl.
  destruct (eol_comment s) as [r |] eqn:Ee.
  { apply eol_comment_shorter in Ee. apply next_token_loop_fuel; lia. }
  destruct (comment s) as [r |] eqn:Ec.
  { apply comment_shorter in Ec. apply next_token_loop_fuel; lia. }
  destruct s as [| c s]; [reflexivity |].
  destruct (is_whitespace c); [| reflexivity].
  apply next_token_loop_fuel; simpl; lia.
Qed.

Lemma next_token_length (s : string) :
  String.length (next_token s) <= String.length s.
Proof.
  unfold next_token. generalize (String.length s) at 1 as n.
  intro n. revert s. induction n as [| n IH]; intro s; simpl; [lia |].
  destruct (eol_comment s) as [r |] eqn:Ee.
  { apply eol_comment_shorter in Ee. specialize (IH r). lia. }
  destruct (comment s) as [r |] eqn:Ec.
  { apply comment_shorter in Ec. specialize (IH r). lia. }
  destruct s as [| c s]; [simpl; lia |].
  destruct (is_whitespace c); [| lia].
  specialize (IH s). simpl. lia.
Qed.

Lemma next_token_start (c : ascii) (s : string) :
  token_start c = true -> next_token (String c s) = String c s.
Proof.
  intro Hc. rewrite next_token_eq.
  destruct c as [[] [] [] [] [] [] [] []]; try discriminate Hc; reflexivity.
Qed.

Lemma next_token_blank (c : ascii) (s : string) :
  is_whitespace c = true -> next_token (String c s) = next_token s.
Proof.
  intro Hc. rewrite next_token_eq.
  destruct c as [[] [] [] [] [] [] [] []]; try discriminate Hc; reflexivity.
Qed.

Lemma next_token_blanks (ws s : string) :
  all_chars is_whitespace ws = true -> next_token (ws ++ s) = next_token s.
Proof.
  induction ws as [| c ws IH]; simpl; intro Hw; [reflexivity |].
  apply andb_true_iff in Hw. destruct Hw as [Hc Hw].
  rewrite (next_token_blank c _ Hc). exact (IH Hw).
Qed.

Lemma next_token_nil : next_token "" = "".
Proof.
  reflexivity.
Qed.

(** ** The closure *)

Lemma closure_fuel {A : Type} (p : parser A) :
  forall n m s,
    String.length s < n -> String.length s < m ->
    closure n p s = closure m p s.
Proof.
  induction n as [| n IH]; intros m s Hn Hm; [lia |].
  destruct m as [| m]; [lia |]. simpl.
  destruct (p s) as [a r | c | e]; try reflexivity.
  destruct (Nat.ltb (String.length r) (String.length s)) eqn:L;
    [| reflexivity].
  apply Nat.ltb_lt in L. rewrite (IH m r) by lia. reflexivity.
Qed.

Lemma closure_star {A : Type} (p : parser A) (n : nat) (s : string) :
  String.length s < n -> closure n p s = star p s.
Proof.
  intro Hn. apply closure_fuel; [exact Hn | lia].
Qed.

Lemma star_eq {A : Type} (p : parser A) (s : string) :
  star p s
  = match p s with
    | Matched a rest =>
        if Nat.ltb (String.length rest) (String.length s) then
          match star p rest with
          | Matched l rest' => Matched (a :: l) rest'
          | other => other
          end
        else Matched [] s
    | Failed _ => Matched [] s
    | Raised e => Raised e
    end.
Proof.
  unfold star at 1. simpl.
  destruct (p s) as [a r | c | e]; try reflexivity.
  destruct (Nat.ltb (String.length r) (String.length s)) eqn:L;
    [| reflexivity].
  apply Nat.ltb_lt in L. rewrite (closure_star p _ r) by lia. reflexivity.
Qed.

Lemma expr_list_eq (H : Host) (s : string) :
  expr_list H s = star (assignment_expr H) (next_token s).
Proof.
  unfold expr_list, rule.
  rewrite closure_star by (pose proof (next_token_length s); lia).
  destruct (star (assignment_expr H) (next_token s)); reflexivity.
Qed.

Lemma global_expr_list_eq (H : Host) (s : string) :
  global_expr_list H s = star (global_expr H) (next_token s).
Proof.
  unfold global_expr_list, rule.
  rewrite closure_star by (pose proof (next_token_length s); lia).
  destruct (star (global_expr H) (next_token s)); reflexivity.
Qed.

(** ** Dictionaries *)

Lemma dict_get_set_same {V : Type} (k : string) (v : V) (d : dict V) :
  dict_get k (dict_set k v d) = Some v.
Proof.
  induction d as [| [k' v'] d IH]; simpl.
  - rewrite String.eqb_refl. reflexivity.
  - destruct (String.eqb k k') eqn:E; simpl; rewrite E; [reflexivity | exact IH].
Qed.

Lemma dict_get_set_other {V : Type} (k k' : string) (v : V) (d : dict V) :
  k <> k' -> dict_get k (dict_set k' v d) = dict_get k d.
Proof.
  intro Hne. induction d as [| [k0 v0] d IH]; simpl.
  - rewrite (proj2 (String.eqb_neq _ _) Hne). reflexivity.
  - destruct (String.eqb_spec k' k0) as [-> | Hk]; simpl.
    + rewrite (proj2 (String.eqb_neq _ _) Hne). reflexivity.
    + destruct (String.eqb k k0); [reflexivity | exact IH].
Qed.

Lemma dict_set_set {V : Type} (k : string) (a b : V) (d : dict V) :
  dict_set k a (dict_set k b d) = dict_set k a d.
Proof.
  induction d as [| [k0 v0] d IH]; simpl.
  - rewrite String.eqb_refl. reflexivity.
  - destruct (String.eqb k k0) eqn:E; simpl; rewrite E; [reflexivity |].
    rewrite IH. reflexivity.
Qed.

Lemma dict_set_commute {V : Type} (k k' : string) (a b : V) (d : dict V) :
  k <> k' -> dict_get k d <> None ->
  dict_set k' b (dict_set k a d) = dict_set k a (dict_set k' b d).
Proof.
  intros Hne. induction d as [| [k0 v0] d IH]; simpl; intro Hin.
  - congruence.
  - destruct (String.eqb_spec k k0) as [-> | Hk].
    + simpl. rewrite (proj2 (String.eqb_neq k' k0)) by congruence.
      simpl. rewrite String.eqb_refl. reflexivity.
    + destruct (String.eqb_spec k' k0) as [-> | Hk']; simpl.
      * rewrite String.eqb_refl, (proj2 (String.eqb_neq _ _) Hk).
        reflexivity.
      * rewrite (proj2 (String.eqb_neq _ _) Hk),
          (proj2 (String.eqb_neq _ _) Hk').
        rewrite (IH Hin). reflexivity.
Qed.

Lemma dict_get_None {V : Type} (k : string) (d : dict V) :
  ~ In k (map fst d) -> dict_get k d = None.
Proof.
  induction d as [| [k0 v0] d IH]; simpl; intro Hn; [reflexivity |].
  destruct (String.eqb_spec k k0) as [-> | Hk].
  - exfalso. apply Hn. left; reflexivity.
  - apply IH. intro Hi. apply Hn. right; exact Hi.
Qed.

Lemma dict_get_In {V : Type} (k : string) (v : V) (d : dict V) :
  dict_get k d = Some v -> In (k, v) d.
Proof.
  induction d as [| [k0 v0] d IH]; simpl; [discriminate |].
  destruct (String.eqb_spec k k0) as [-> | Hk].
  - intros [= ->]. left; reflexivity.
  - intro E. right. exact (IH E).
Qed.

Lemma dict_set_keys {V : Type} (k : string) (v : V) (d : dict V) :
  map fst (dict_set k v d)
  = if existsb (String.eqb k) (map fst d) then map fst d
    else (map fst d ++ [k])%list.
Proof.
  induction d as [| [k0 v0] d IH]; simpl; [reflexivity |].
  destruct (String.eqb k k0); simpl; [reflexivity |].
  rewrite IH. destruct (existsb (String.eqb k) (map fst d)); reflexivity.
Qed.

Lemma dict_set_NoDup {V : Type} (k : string) (v : V) (d : dict V) :
  NoDup (map fst d) -> NoDup (map fst (dict_set k v d)).
Proof.
  intro Hd. rewrite dict_set_keys.
  destruct (existsb (String.eqb k) (map fst d)) eqn:E; [exact Hd |].
  apply NoDup_app; [exact Hd | repeat constructor; intros [] |].
  intros x Hx [Ek | []]. subst x.
  assert (existsb (String.eqb k) (map fst d) = true) as Hc.
  { apply existsb_exists. exists k. split; [exact Hx | apply String.eqb_refl]. }
  congruence.
Qed.

Lemma dict_update_NoDup {V : Type} (other d : dict V) :
  NoDup (map fst d) -> NoDup (map fst (dict_update d other)).
Proof.
  unfold dict_update. revert d.
  induction other as [| [k v] other IH]; intros d Hd; simpl; [exact Hd |].
  apply IH. apply dict_set_NoDup. exact Hd.
Qed.

(** The dict a block body folds into has each key once. *)
Lemma block_dict_NoDup {V : Type} (assignments : list (dict V)) :
  forall d, NoDup (map fst d) ->
            NoDup (map fst (fold_left dict_update assignments d)).
Proof.
  induction assignments as [| a assignments IH]; intros d Hd; simpl;
    [exact Hd |].
  apply IH. apply dict_update_NoDup. exact Hd.
Qed.

(** Folding a list of one-entry dicts with distinct keys gives the list
    of the entries. *)
Lemma fold_singletons {V : Type} (items : dict V) :
  forall d,
    NoDup (map fst (d ++ items)) ->
    fold_left dict_update (map (fun kv => [kv]) items) d = (d ++ items)%list.
Proof.
  induction items as [| [k v] items IH]; intros d Hd; simpl.
  - rewrite List.app_nil_r. reflexivity.
  - assert (E : dict_set k v d = (d ++ [(k, v)])%list).
    { assert (Hk : ~ In k (map fst d)).
      { rewrite map_app in Hd. simpl in Hd.
        apply NoDup_remove_2 in Hd. intro Hi. apply Hd.
        apply in_or_app. left; exact Hi. }
      clear Hd IH. induction d as [| [k0 v0] d IHd]; simpl; [reflexivity |].
      destruct (String.eqb_spec k k0) as [-> | Hne].
      - exfalso. apply Hk. left; reflexivity.
      - rewrite IHd; [reflexivity |]. intro Hi. apply Hk. right; exact Hi. }
    rewrite E, IH; rewrite <- List.app_assoc; [reflexivity | exact Hd].
Qed.

(** ** Objects *)

Lemma setattr_ordinary (H : Host) (self : UDMFObject H) (key : string)
  (a : attr H) :
  reserved key = false ->
  setattr self key a
  = Return (mkObject (ob_class self) (dict_set key a (ob_dict self))).
Proof.
  unfold reserved, setattr. intro Hr.
  repeat (apply orb_false_iff in Hr; destruct Hr as [Hr ?]).
  repeat match goal with E : _ = false |- _ => rewrite E; clear E end.
  reflexivity.
Qed.

Lemma reserved_not_attributes (key : string) :
  reserved key = false -> key <> "_attributes".
Proof.
  intros Hr ->. discriminate.
Qed.

(** What [__init__] builds from a dict of ordinary keys: the key list
    grows by the keys in order, and each key holds its value. *)
Lemma init_attributes_spec (H : Host) (items : dict (value H)) :
  forall (self : UDMFObject H) (l : list string),
    dict_get "_attributes" (ob_dict self) = Some (AList l) ->
    ordinary_keys items ->
    NoDup (map fst items) ->
    exists o,
      init_attributes self items = Return o
      /\ ob_class o = ob_class self
      /\ dict_get "_attributes" (ob_dict o)
         = Some (AList (l ++ map fst items)%list)
      /\ forall k, k <> "_attributes" ->
                   dict_get k (ob_dict o)
                   = match dict_get k items with
                     | Some v => Some (AVal v)
                     | None => dict_get k (ob_dict self)
                     end.
Proof.
  induction items as [| [key v] items IH]; intros self l Hl Hord Hnd; simpl.
  - exists self. rewrite List.app_nil_r. repeat split; assumption.
  - rewrite Hl.
    inversion Hord as [| ? ? Hkey Hord']; subst. simpl in Hkey.
    inversion Hnd as [| ? ? Hnotin Hnd']; subst.
    rewrite (setattr_ordinary _ _ _ _ Hkey). simpl.
    pose proof (reserved_not_attributes key Hkey) as Hka.
    destruct (IH (mkObject (ob_class self)
                    (dict_set key (AVal v)
                       (dict_set "_attributes" (AList (l ++ [key])%list)
                          (ob_dict self))))
                (l ++ [key])%list) as (o & Eo & Hc & Ha & Hg).
    { simpl. rewrite dict_get_set_other by congruence.
      apply dict_get_set_same. }
    { exact Hord'. }
    { exact Hnd'. }
    exists o. split; [exact Eo |]. split; [exact Hc |]. split.
    + rewrite Ha, <- List.app_assoc. reflexivity.
    + intros k Hk. rewrite (Hg k Hk). simpl.
      destruct (String.eqb_spec k key) as [-> | Hne].
      * rewrite (dict_get_None key items Hnotin).
        rewrite dict_get_set_same. reflexivity.
      * destruct (dict_get k items); [reflexivity |].
        rewrite dict_get_set_other by exact Hne.
        rewrite dict_get_set_other by exact Hk. reflexivity.
Qed.

(** Once the dict assigns [name], the name the object was created with
    leaves no trace. *)
Lemma init_attributes_name_lost (H : Host) (items : dict (value H)) :
  forall (cls : pyclass) (d : dict (attr H)) (n : attr H),
    dict_get "name" d <> None ->
    dict_get "name" items <> None ->
    init_attributes (mkObject cls (dict_set "name" n d)) items
    = init_attributes (mkObject cls d) items.
Proof.
  induction items as [| [key v] items IH]; intros cls d n Hd Hi; simpl.
  - simpl in Hi. congruence.
  - rewrite dict_get_set_other by discriminate.
    destruct (dict_get "_attributes" d) as [[| v' | l] |] eqn:Ea;
      try reflexivity.
    unfold setattr; simpl.
    destruct (String.eqb key "__class__" || String.eqb key "__dict__");
      [reflexivity |].
    destruct (String.eqb key "__weakref__"); [reflexivity |]. simpl.
    rewrite (dict_set_commute "name" "_attributes") by
      (try discriminate; exact Hd).
    destruct (String.eqb_spec "name" key) as [<- | Hne].
    + rewrite dict_set_set. reflexivity.
    + rewrite (dict_set_commute "name" key).
      * apply IH.
        -- rewrite dict_get_set_other by exact Hne.
           rewrite dict_get_set_other by discriminate. exact Hd.
        -- change (dict_get "name" ((key, v) :: items))
             with (if String.eqb "name" key then Some v
                   else dict_get "name" items) in Hi.
           rewrite (proj2 (String.eqb_neq _ _) Hne) in Hi. exact Hi.
      * exact Hne.
      * rewrite dict_get_set_other by discriminate. exact Hd.
Qed.

Lemma serialize_lines (H : Host) (self : UDMFObject H)
  (attributes : dict (value H)) :
  dict_get "serialize_assignment" (ob_dict self) = None ->
  (forall k v, In (k, v) attributes ->
               dict_get k (ob_dict self) = Some (AVal v)) ->
  map_result
    (fun key =>
       a <- getattr self key ;;
       _ <- method_callable self "serialize_assignment" ;;
       Return (serialize_assignment key a))
    (map fst attributes)
  = Return (attribute_lines attributes).
Proof.
  intros Hm. induction attributes as [| [k v] attributes IH]; intro Hg;
    simpl; [reflexivity |].
  unfold getattr at 1. rewrite (Hg k v) by (left; reflexivity). simpl.
  unfold method_callable at 1. rewrite Hm. simpl.
  rewrite IH; [reflexivity |].
  intros k' v' Hin. apply Hg. right; exact Hin.
Qed.

(** The object a block of ordinary keys evaluates to, and its text. *)
Lemma block_object (H : Host) (cls : pyclass) (name : string)
  (attributes : dict (value H)) :
  ordinary_keys attributes ->
  NoDup (map fst attributes) ->
  exists o,
    UDMFObject_init cls attributes (Some name) = Return o
    /\ ob_class o = cls
    /\ dict_get "serialize" (ob_dict o) = None
    /\ getattr o "name"
       = Return (match dict_get "name" attributes with
                 | Some v => AVal v
                 | None => AVal (VStr name)
                 end)
    /\ UDMFObject_serialize o
       = Return (format_attr (match dict_get "name" attributes with
                              | Some v => AVal v
                              | None => AVal (VStr name)
                              end)
                 ++ str1 LF ++ "{" ++ str1 LF
                 ++ join (str1 LF) (attribute_lines attributes)
                 ++ str1 LF ++ "}" ++ str1 LF).
Proof.
  intros Hord Hnd. unfold UDMFObject_init.
  destruct (init_attributes_spec H attributes
              (mkObject cls [("name", AVal (VStr name));
                             ("_attributes", AList [])])
              [] eq_refl Hord Hnd) as (o & Eo & Hc & Ha & Hg).
  exists o. split; [exact Eo |]. split; [exact Hc |].
  assert (Hres : forall k, reserved k = true -> dict_get k attributes = None).
  { intros k Hk. apply dict_get_None. intro Hin.
    apply in_map_iff in Hin. destruct Hin as ([k' v'] & <- & Hin).
    unfold ordinary_keys in Hord. rewrite Forall_forall in Hord.
    specialize (Hord _ Hin). simpl in *. congruence. }
  assert (Hname : getattr o "name"
                  = Return (match dict_get "name" attributes with
                            | Some v => AVal v
                            | None => AVal (VStr name)
                            end)).
  { unfold getattr. rewrite Hg by discriminate.
    destruct (dict_get "name" attributes); reflexivity. }
  split.
  { rewrite Hg by discriminate. rewrite (Hres "serialize" eq_refl).
    reflexivity. }
  split; [exact Hname |].
  unfold UDMFObject_serialize. rewrite Hname. simpl.
  unfold getattr at 1. rewrite Ha. simpl.
  rewrite (serialize_lines H o attributes).
  - reflexivity.
  - rewrite Hg by discriminate.
    rewrite (Hres "serialize_assignment" eq_refl). reflexivity.
  - intros k v Hin.
    assert (Hk : k <> "_attributes").
    { unfold ordinary_keys in Hord. rewrite Forall_forall in Hord.
      specialize (Hord _ Hin). simpl in Hord.
      apply reserved_not_attributes; exact Hord. }
    rewrite (Hg k Hk).
    assert (E : dict_get k attributes = Some v).
    { clear - Hnd Hin. induction attributes as [| [k0 v0] d IH];
        [destruct Hin |].
      simpl. inversion Hnd as [| ? ? Hn Hnd']; subst.
      destruct Hin as [[= -> ->] | Hin].
      - rewrite String.eqb_refl. reflexivity.
      - destruct (String.eqb_spec k k0) as [-> | Hne].
        + exfalso. apply Hn. apply in_map_iff. exists (k0, v). split;
            [reflexivity | exact Hin].
        + apply IH; assumption. }
    rewrite E. reflexivity.
Qed.

(** [__init__] leaves [name] alone when the dict does not assign it. *)
Lemma init_attributes_keeps_name (H : Host) (items : dict (value H)) :
  forall (self o : UDMFObject H),
    init_attributes self items = Return o ->
    dict_get "name" items = None ->
    dict_get "name" (ob_dict o) = dict_get "name" (ob_dict self).
Proof.
  induction items as [| [key v] items IH]; intros self o;
    cbn [init_attributes dict_get].
  - intros [= <-] _. reflexivity.
  - destruct (dict_get "_attributes" (ob_dict self)) as [[| v' | l] |];
      try discriminate.
    unfold setattr; cbn [ob_class ob_dict].
    destruct (String.eqb key "__class__" || String.eqb key "__dict__");
      [discriminate |].
    destruct (String.eqb key "__weakref__"); [discriminate |].
    cbn [rbind].
    destruct (String.eqb_spec "name" key) as [<- | Hne]; [discriminate |].
    intros Eo Hn. rewrite (IH _ _ Eo Hn). cbn [ob_dict].
    rewrite dict_get_set_other by exact Hne.
    rewrite dict_get_set_other by discriminate. reflexivity.
Qed.

(** Whenever [__init__] returns, [name] holds the value the dict assigns
    to it. *)
Lemma init_attributes_sets_name (H : Host) (items : dict (value H))
  (v : value H) :
  forall (self o : UDMFObject H),
    init_attributes self items = Return o ->
    NoDup (map fst items) ->
    dict_get "name" items = Some v ->
    dict_get "name" (ob_dict o) = Some (AVal v).
Proof.
  induction items as [| [key v0] items IH]; intros self o;
    cbn [init_attributes dict_get map fst].
  - discriminate 3.
  - destruct (dict_get "_attributes" (ob_dict self)) as [[| v' | l] |];
      try discriminate.
    unfold setattr; cbn [ob_class ob_dict].
    destruct (String.eqb key "__class__" || String.eqb key "__dict__");
      [discriminate |].
    destruct (String.eqb key "__weakref__"); [discriminate |].
    cbn [rbind].
    intros Eo Hnd. inversion Hnd as [| ? ? Hnotin Hnd']; subst.
    destruct (String.eqb_spec "name" key) as [<- | Hne].
    + intros [= ->].
      rewrite (init_attributes_keeps_name H items _ _ Eo
                 (dict_get_None "name" items Hnotin)).
      cbn [ob_dict]. apply dict_get_set_same.
    + intro Hn. exact (IH _ _ Eo Hnd' Hn).
Qed.

(** Whenever [serialize] returns, its text opens with the stored name. *)
Lemma serialize_first_line (H : Host) (o : UDMFObject H) (a : attr H)
  (text : string) :
  getattr o "name" = Return a ->
  UDMFObject_serialize o = Return text ->
  exists body,
    text = format_attr a ++ str1 LF ++ "{" ++ str1 LF ++ body.
Proof.
  intros Hn. unfold UDMFObject_serialize. rewrite Hn. simpl rbind.
  destruct (getattr o "_attributes") as [keys_attr | e]; [| discriminate].
  simpl rbind.
  destruct (iter_attr keys_attr) as [keys | e]; [| discriminate].
  simpl rbind.
  match goal with
  | |- context [map_result ?f keys] =>
      destruct (map_result f keys) as [lines | e]; [| discriminate]
  end.
  simpl rbind. intros [= <-]. eexists. reflexivity.
Qed.

(** C10. When the body of a block assigns the attribute [name], the
    identifier of the block is lost (any other identifier of the same
    class gives the same result); whenever the object is built, its
    [name] is the value assigned, and whenever [serialize] returns, its
    text opens with that value on the type-name line. When the other
    keys are ordinary attribute names, the object is built and
    [serialize] returns. *)
Theorem name_attribute_replaces_type_name (H : Host) (ident : string)
  (assignments : list (dict (value H))) (v : value H) :
  let attributes := fold_left dict_update assignments [] in
  dict_get "name" attributes = Some v ->
  (forall ident',
     UDMF_BLOCK_TYPES ident' = UDMF_BLOCK_TYPES ident ->
     UDMFSemantics_block (ident', "{", assignments, "}")
     = UDMFSemantics_block (ident, "{", assignments, "}"))
  /\ (forall o,
        UDMFSemantics_block (ident, "{", assignments, "}") = Return o ->
        getattr o "name" = Return (AVal v)
        /\ forall text,
             UDMFObject_serialize o = Return text ->
             exists body,
               text = format_value v ++ str1 LF ++ "{" ++ str1 LF ++ body)
  /\ (ordinary_keys attributes ->
      exists o,
        UDMFSemantics_block (ident, "{", assignments, "}") = Return o
        /\ UDMFObject_serialize o
           = Return (format_value v ++ str1 LF ++ "{" ++ str1 LF
                     ++ join (str1 LF) (attribute_lines attributes)
                     ++ str1 LF ++ "}" ++ str1 LF)).
Proof.
  intros attributes Hname.
  assert (Hnd : NoDup (map fst attributes))
    by (apply block_dict_NoDup; constructor).
  split; [| split].
  - intros ident' Hcls. unfold UDMFSemantics_block. fold attributes.
    rewrite Hcls. unfold UDMFObject_init.
    apply (init_attributes_name_lost H attributes (UDMF_BLOCK_TYPES ident)
             [("name", AVal (VStr ident)); ("_attributes", AList [])]
             (AVal (VStr ident'))).
    + discriminate.
    + rewrite Hname. discriminate.
  - intros o Eo. unfold UDMFSemantics_block in Eo. fold attributes in Eo.
    unfold UDMFObject_init in Eo.
    assert (Hn : getattr o "name" = Return (AVal v)).
    { unfold getattr.
      rewrite (init_attributes_sets_name H attributes v _ o Eo Hnd Hname).
      reflexivity. }
    split; [exact Hn |].
    intros text Hs. exact (serialize_first_line H o (AVal v) text Hn Hs).
  - intro Hord.
    destruct (block_object H (UDMF_BLOCK_TYPES ident) ident attributes
                Hord Hnd) as (o & Eo & _ & _ & _ & Hs).
    rewrite Hname in Hs. exists o. split; [exact Eo | exact Hs].
Qed.

Lemma name_attribute_replaces_type_name_witness :
  exists o : UDMFObject plain_host,
    UDMFSemantics_block
      ("thing", "{", [[("name", VStr "wall")]; [("x", VInt 1)]], "}")
    = Return o
    /\ UDMFObject_serialize o
       = Return ("wall" ++ str1 LF ++ "{" ++ str1 LF
                 ++ join (str1 LF)
                      (attribute_lines (H := plain_host)
                         [("name", VStr "wall"); ("x", VInt 1)])
                 ++ str1 LF ++ "}" ++ str1 LF).
Proof.
  destruct (name_attribute_replaces_type_name plain_host "thing"
              [[("name", VStr "wall")]; [("x", VInt 1)]] (VStr "wall")
              eq_refl) as (_ & _ & Hbuilt).
  apply Hbuilt. repeat constructor.
Defined.

(** The key [_attributes] shows the limit: the object is built and holds
    the name assigned, and [serialize] raises. *)
Lemma name_with_attributes_key :
  exists o : UDMFObject plain_host,
    UDMFSemantics_block
      ("thing", "{", [[("name", VStr "wall")]; [("_attributes", VInt 1)]],
       "}")
    = Return o
    /\ getattr o "name" = Return (AVal (VStr "wall"))
    /\ UDMFObject_serialize o = Throw TypeError.
Proof.
  eexists. split; [reflexivity |]. split; reflexivity.
Qed.

Lemma string_body_raw (rest : string) :
  forall n b,
    String.length b <= n ->
    raw_body b = true ->
    string_body (b ++ String DQUOTE rest) = Some (b, rest).
Proof.
  induction n as [| n IH]; intros b Hn Hb.
  - destruct b; [| simpl in Hn; lia]. reflexivity.
  - destruct b as [| c b]; [reflexivity |].
    simpl in Hb |- *.
    destruct (Ascii.eqb c DQUOTE); [discriminate |].
    destruct (Ascii.eqb c BACKSLASH).
    + destruct b as [| d b]; [discriminate |].
      apply andb_true_iff in Hb. destruct Hb as [Hd Hb].
      simpl. apply negb_true_iff in Hd. rewrite Hd.
      rewrite (IH b); [reflexivity | simpl in Hn; lia | exact Hb].
    + rewrite (IH b); [reflexivity | simpl in Hn; lia | exact Hb].
Qed.

Lemma substring_0_append (b x : string) :
  substring 0 (String.length b) (b ++ x) = b.
Proof.
  induction b as [| c b IH]; simpl.
  - destruct x; reflexivity.
  - rewrite IH. reflexivity.
Qed.

Lemma slice_quoted (b : string) :
  slice_1_m1 (String DQUOTE (b ++ str1 DQUOTE)) = b.
Proof.
  unfold slice_1_m1. simpl String.length.
  rewrite length_append. simpl String.length.
  replace (S (String.length b + 1) - 2) with (String.length b) by lia.
  simpl. apply substring_0_append.
Qed.

Lemma unescape_plain (b : string) :
  contains_char BACKSLASH b = false -> unescape b = b.
Proof.
  induction b as [| c b IH]; [reflexivity |].
  cbn [contains_char unescape].
  intro Hc. apply orb_false_iff in Hc. destruct Hc as [Hc Hb].
  rewrite Ascii.eqb_sym, Hc, (IH Hb). reflexivity.
Qed.

(** Rules are not sensitive to the blanks and comments before them. *)
Lemma next_token_idem (s : string) : next_token (next_token s) = next_token s.
Proof.
  remember (String.length s) as n eqn:En.
  assert (Hn : String.length s <= n) by lia. clear En.
  revert s Hn. induction n as [| n IH]; intros s Hn.
  - destruct s; [reflexivity | simpl in Hn; lia].
  - rewrite (next_token_eq s).
    destruct (eol_comment s) as [r |] eqn:Ee.
    { apply eol_comment_shorter in Ee. apply IH; lia. }
    destruct (comment s) as [r |] eqn:Ec.
    { apply comment_shorter in Ec. apply IH; lia. }
    destruct s as [| c s]; [reflexivity |].
    destruct (is_whitespace c) eqn:Ew.
    + apply IH. simpl in Hn; lia.
    + rewrite next_token_eq, Ee, Ec, Ew. reflexivity.
Qed.

Lemma rule_next_token {A B : Type} (body : parser A) (action : A -> result B)
  (s : string) :
  rule body action (next_token s) = rule body action s.
Proof.
  unfold rule. rewrite next_token_idem. reflexivity.
Qed.

Lemma rule_blanks {A B : Type} (body : parser A) (action : A -> result B)
  (ws s : string) :
  all_chars is_whitespace ws = true ->
  rule body action (ws ++ s) = rule body action s.
Proof.
  intro Hw. unfold rule. rewrite (next_token_blanks ws s Hw). reflexivity.
Qed.

Lemma token_next_token (H : Host) (tok s : string) :
  token H tok (next_token s) = token H tok s.
Proof.
  unfold token. rewrite next_token_idem. reflexivity.
Qed.

Lemma token_blanks (H : Host) (tok ws s : string) :
  all_chars is_whitespace ws = true ->
  token H tok (ws ++ s) = token H tok s.
Proof.
  intro Hw. unfold token. rewrite (next_token_blanks ws s Hw). reflexivity.
Qed.

Lemma rule_blank {A B : Type} (body : parser A) (action : A -> result B)
  (c : ascii) (s : string) :
  is_whitespace c = true ->
  rule body action (String c s) = rule body action s.
Proof.
  intro Hc. unfold rule. rewrite (next_token_blank c s Hc). reflexivity.
Qed.

Lemma token_blank (H : Host) (tok : string) (c : ascii) (s : string) :
  is_whitespace c = true ->
  token H tok (String c s) = token H tok s.
Proof.
  intro Hc. unfold token. rewrite (next_token_blank c s Hc). reflexivity.
Qed.

(** ** The alternatives of rule [value] *)

Lemma span_stops (p : ascii -> bool) (s : string) :
  stops p s = true -> span p s = (EmptyString, s).
Proof.
  destruct s as [| c s]; simpl; [reflexivity |].
  destruct (p c); [discriminate | reflexivity].
Qed.

Lemma numeric_start_cases (s : string) :
  numeric_start s = false ->
  stops is_digit (snd (opt_sign s)) = true
  /\ stops (fun c => Ascii.eqb c "0") s = true.
Proof.
  unfold numeric_start, opt_sign.
  destruct s as [| c s]; [split; reflexivity |].
  destruct (is_sign c) eqn:Es.
  - intro Hd. split.
    + destruct s as [| d s]; [reflexivity |]. simpl. rewrite Hd. reflexivity.
    + simpl. char_cases c; reflexivity.
  - intro Hd. split.
    + simpl. rewrite Hd. reflexivity.
    + simpl. char_cases c; reflexivity.
Qed.

Lemma re_float_fails (s : string) :
  numeric_start s = false -> re_float s = None.
Proof.
  intro Hn. apply numeric_start_cases in Hn. destruct Hn as [Hd _].
  unfold re_float. destruct (opt_sign s) as [sg s1]. simpl in Hd.
  rewrite (span_stops _ _ Hd). reflexivity.
Qed.

Lemma re_decimal_fails (s : string) :
  numeric_start s = false -> re_decimal s = None.
Proof.
  intro Hn. apply numeric_start_cases in Hn. destruct Hn as [Hd _].
  unfold re_decimal. destruct (opt_sign s) as [sg s1]. simpl in Hd.
  destruct s1 as [| c s1]; [reflexivity |]. simpl in Hd.
  char_cases c; reflexivity.
Qed.

Lemma zero_prefixed_fail (s : string) :
  stops (fun c => Ascii.eqb c "0") s = true ->
  strip_prefix "0" s = None /\ re_leading_zero s = None /\ re_hex s = None.
Proof.
  destruct s as [| c s]; [repeat split |].
  simpl. intro Hc. char_cases c; repeat split.
Qed.

Lemma float_fails (H : Host) (s : string) :
  next_token s = s -> numeric_start s = false -> float H s = Failed false.
Proof.
  intros Hs Hn. unfold float, rule, pattern.
  rewrite Hs, (re_float_fails s Hn). reflexivity.
Qed.

Lemma integer_fails (H : Host) (s : string) :
  next_token s = s -> numeric_start s = false -> integer H s = Failed false.
Proof.
  intros Hs Hn. unfold integer, rule, choice, token, pattern, match_token.
  rewrite Hs, Hs, (re_decimal_fails s Hn).
  apply numeric_start_cases in Hn. destruct Hn as [_ Hz].
  destruct (zero_prefixed_fail s Hz) as (E0 & E1 & E2).
  rewrite E0, E1, E2. reflexivity.
Qed.

Lemma quoted_string_fails (H : Host) (s : string) :
  next_token s = s -> stops (fun c => Ascii.eqb c DQUOTE) s = true ->
  quoted_string H s = Failed false.
Proof.
  intros Hs Hq. unfold quoted_string, rule, pattern, re_quoted_string.
  rewrite Hs. destruct s as [| c s]; [reflexivity |].
  simpl in Hq. apply negb_true_iff in Hq. rewrite Hq. reflexivity.
Qed.

Lemma token_literal (H : Host) (lit s : string) :
  next_token s = s -> guarded H lit = true ->
  token H lit s
  = match strip_prefix lit s with
    | Some r => if is_name_char (current r) then Failed false
                else Matched lit r
    | None => Failed false
    end.
Proof.
  intros Hs Hg. unfold token, match_token. rewrite Hs, Hg.
  destruct (strip_prefix lit s) as [r |]; [| reflexivity].
  simpl. destruct (is_name_char (current r)); reflexivity.
Qed.

Lemma guarded_true (H : Host) : guarded H "true" = true.
Proof.
  reflexivity.
Qed.

Lemma guarded_false (H : Host) : guarded H "false" = true.
Proof.
  reflexivity.
Qed.




(** Rule [value] at a quoted string. *)
Lemma value_rule_quoted (H : Host) (b rest : string) :
  raw_body b = true ->
  quoted_string H (String DQUOTE (b ++ String DQUOTE rest))
  = Matched (VStr b) rest
  /\ value_rule H (String DQUOTE (b ++ String DQUOTE rest))
     = Matched (VStr b) rest.
Proof.
  intro Hb.
  assert (Hs : next_token (String DQUOTE (b ++ String DQUOTE rest))
               = String DQUOTE (b ++ String DQUOTE rest))
    by (apply next_token_start; reflexivity).
  assert (Hq : quoted_string H (String DQUOTE (b ++ String DQUOTE rest))
               = Matched (VStr b) rest).
  { unfold quoted_string, rule, pattern, re_quoted_string. rewrite Hs.
    rewrite Ascii.eqb_refl.
    rewrite (string_body_raw rest (String.length b) b (le_n _) Hb).
    unfold UDMFSemantics_quoted_string. rewrite slice_quoted. reflexivity. }
  split; [exact Hq |].
  unfold value_rule, rule at 1, choice. rewrite Hs.
  rewrite (float_fails H _ Hs eq_refl), (integer_fails H _ Hs eq_refl).
  rewrite Hq. reflexivity.
Qed.

(** C6 (amended). A quoted string is read as the text between its quotes,
    unchanged: a backslash and the character it escapes are both kept.
    The value is the one the specification describes when the text holds
    no backslash. *)
Theorem quoted_string_is_raw (H : Host) (ws b rest : string) :
  all_chars is_whitespace ws = true ->
  raw_body b = true ->
  quoted_string H (ws ++ String DQUOTE (b ++ String DQUOTE rest))
  = Matched (VStr b) rest
  /\ value_rule H (ws ++ String DQUOTE (b ++ String DQUOTE rest))
     = Matched (VStr b) rest
  /\ (contains_char BACKSLASH b = false -> unescape b = b).
Proof.
  intros Hw Hb.
  unfold quoted_string, value_rule. rewrite !(rule_blanks _ _ ws _ Hw).
  destruct (value_rule_quoted H b rest Hb) as [Hq Hv].
  split; [exact Hq |]. split; [exact Hv |]. apply unescape_plain.
Qed.

Lemma quoted_string_is_raw_witness :
  let b := "a" ++ String BACKSLASH (String DQUOTE "b") in
  quoted_string plain_host (" " ++ String DQUOTE (b ++ String DQUOTE ";"))
  = Matched (VStr b) ";"
  /\ value_rule plain_host (" " ++ String DQUOTE (b ++ String DQUOTE ";"))
     = Matched (VStr b) ";"
  /\ (contains_char BACKSLASH b = false -> unescape b = b).
Proof.
  intro b.
  apply (quoted_string_is_raw plain_host " " b ";"); reflexivity.
Defined.

(** C6, as stated, fails: the quoted string made of [a], a backslash, a
    double quote and [b] is read with its backslash, not as the three
    characters the escape resolves to. *)
Lemma quoted_string_keeps_backslash :
  let b := "a" ++ String BACKSLASH (String DQUOTE "b") in
  let text := "s = " ++ String DQUOTE (b ++ String DQUOTE ";") in
  unescape b = "a" ++ String DQUOTE "b"
  /\ UDMF_PARSER_parse plain_host text = assigned "s" (VStr b)
  /\ UDMF_PARSER_parse plain_host text <> assigned "s" (VStr (unescape b)).
Proof.
  vm_compute. repeat split. discriminate.
Qed.

(** ** Keywords *)


Lemma identifier_next_token (s : string) :
  identifier (next_token s) = identifier s.
Proof.
  apply rule_next_token.
Qed.



Lemma block_next_token (H : Host) (s : string) :
  block H (next_token s) = block H s.
Proof.
  apply rule_next_token.
Qed.

Lemma assignment_expr_next_token (H : Host) (s : string) :
  assignment_expr H (next_token s) = assignment_expr H s.
Proof.
  apply rule_next_token.
Qed.







(** ** Integers: [str] then [int] *)

Lemma string_of_uint_digits (u : Decimal.uint) :
  all_chars is_digit (NilEmpty.string_of_uint u) = true.
Proof.
  induction u; simpl; try exact IHu; reflexivity.
Qed.

Lemma to_uint_unorm (p : positive) :
  Decimal.unorm (Pos.to_uint p) = Pos.to_uint p.
Proof.
  rewrite <- DecimalPos.Unsigned.to_of, DecimalPos.Unsigned.of_to.
  reflexivity.
Qed.

(** The decimal text of a positive number: a digit other than zero, then
    digits. *)
Lemma to_uint_shape (p : positive) :
  exists c ds,
    NilEmpty.string_of_uint (Pos.to_uint p) = String c ds
    /\ is_nonzero_digit c = true
    /\ all_chars is_digit ds = true.
Proof.
  pose proof (to_uint_unorm p) as Hn.
  pose proof (DecimalPos.Unsigned.to_uint_nonnil p) as Hnil.
  pose proof (DecimalPos.Unsigned.to_uint_nonzero p) as Hz.
  destruct (Pos.to_uint p) as [| u | u | u | u | u | u | u | u | u | u];
    [congruence | | | | | | | | | |];
    try (eexists; eexists; split; [reflexivity |]; split;
         [reflexivity | apply string_of_uint_digits]).
  exfalso. rewrite unorm_D0 in Hn. unfold Decimal.unorm in Hn.
  destruct (Decimal.nzhead u) eqn:E; try discriminate.
  - injection Hn as <-. apply Hz; reflexivity.
  - exact (nzhead_nonzero u _ E).
Qed.

Lemma py_str_int_pos (p : positive) :
  py_str_int (Z.pos p) = NilEmpty.string_of_uint (Pos.to_uint p).
Proof.
  unfold py_str_int. simpl.
  pose proof (DecimalPos.Unsigned.to_uint_nonnil p) as Hnil.
  unfold NilZero.string_of_uint. destruct (Pos.to_uint p); congruence.
Qed.

Lemma py_str_int_neg (p : positive) :
  py_str_int (Z.neg p) = String "-" (NilEmpty.string_of_uint (Pos.to_uint p)).
Proof.
  unfold py_str_int. simpl.
  pose proof (DecimalPos.Unsigned.to_uint_nonnil p) as Hnil.
  unfold NilZero.string_of_uint. destruct (Pos.to_uint p); congruence.
Qed.

Lemma of_uint_to_uint (p : positive) : Z.of_uint (Pos.to_uint p) = Z.pos p.
Proof.
  unfold Z.of_uint. rewrite DecimalPos.Unsigned.of_to. reflexivity.
Qed.

Lemma nonzero_digit_facts (c : ascii) :
  is_nonzero_digit c = true ->
  is_digit c = true /\ is_sign c = false /\ token_start c = true
  /\ Ascii.eqb "0" c = false.
Proof.
  char_cases c; intros _; repeat split.
Qed.

Lemma py_int_digits (c : ascii) (ds : string) (u : Decimal.uint) :
  is_sign c = false ->
  NilEmpty.uint_of_string (String c ds) = Some u ->
  py_int (String c ds) = Return (Z.of_uint u)
  /\ py_int (String "-" (String c ds)) = Return (- Z.of_uint u)%Z.
Proof.
  intros Hs Hu. unfold py_int, opt_sign. rewrite Hs.
  change (is_sign "-") with true. cbv iota. rewrite Hu.
  split; reflexivity.
Qed.

(** [int(str(z))] is [z]. *)
Lemma py_int_str_int (z : Z) : py_int (py_str_int z) = Return z.
Proof.
  destruct z as [| p | p].
  - reflexivity.
  - rewrite py_str_int_pos.
    destruct (to_uint_shape p) as (c & ds & E & Hc & _).
    pose proof (NilEmpty.usu (Pos.to_uint p)) as Hu. rewrite E in Hu |- *.
    destruct (nonzero_digit_facts c Hc) as (_ & Hs & _).
    destruct (py_int_digits c ds _ Hs Hu) as [-> _].
    rewrite of_uint_to_uint. reflexivity.
  - rewrite py_str_int_neg.
    destruct (to_uint_shape p) as (c & ds & E & Hc & _).
    pose proof (NilEmpty.usu (Pos.to_uint p)) as Hu. rewrite E in Hu |- *.
    destruct (nonzero_digit_facts c Hc) as (_ & Hs & _).
    destruct (py_int_digits c ds _ Hs Hu) as [_ ->].
    rewrite of_uint_to_uint. reflexivity.
Qed.

Lemma opt_sign_none (c : ascii) (s : string) :
  is_sign c = false -> opt_sign (String c s) = (EmptyString, String c s).
Proof.
  intro Hs. unfold opt_sign. rewrite Hs. reflexivity.
Qed.

Lemma re_decimal_digits (sg : string) (c : ascii) (ds rest : string) :
  opt_sign (sg ++ String c (ds ++ String ";" rest))
  = (sg, String c (ds ++ String ";" rest)) ->
  is_nonzero_digit c = true ->
  all_chars is_digit ds = true ->
  re_decimal (sg ++ String c (ds ++ String ";" rest))
  = Some (sg ++ String c ds, String ";" rest)
  /\ re_float (sg ++ String c (ds ++ String ";" rest)) = None.
Proof.
  intros Hsg Hc Hd.
  destruct (nonzero_digit_facts c Hc) as (Hdig & Hs & Ht & H0).
  assert (Hall : all_chars is_digit (String c ds) = true)
    by (simpl; rewrite Hdig, Hd; reflexivity).
  split.
  - unfold re_decimal. rewrite Hsg, Hc.
    change (String c (ds ++ String ";" rest))
      with (String c ds ++ String ";" rest).
    rewrite (span_append _ _ (String ";" rest) Hall eq_refl). reflexivity.
  - unfold re_float. rewrite Hsg.
    change (String c (ds ++ String ";" rest))
      with (String c ds ++ String ";" rest).
    rewrite (span_append _ _ (String ";" rest) Hall eq_refl). reflexivity.
Qed.

(** The decimal pattern reads the text of a number other than zero that a
    semicolon follows; the float pattern and the token [0] do not match
    there. *)
Lemma re_decimal_str_int (z : Z) (rest : string) :
  z <> 0%Z ->
  re_decimal (py_str_int z ++ String ";" rest)
  = Some (py_str_int z, String ";" rest)
  /\ re_float (py_str_int z ++ String ";" rest) = None
  /\ strip_prefix "0" (py_str_int z ++ String ";" rest) = None
  /\ next_token (py_str_int z ++ String ";" rest)
     = py_str_int z ++ String ";" rest.
Proof.
  intros Hz. destruct z as [| p | p]; [congruence | |].
  - rewrite py_str_int_pos.
    destruct (to_uint_shape p) as (c & ds & -> & Hc & Hd).
    destruct (nonzero_digit_facts c Hc) as (Hdig & Hs & Ht & H0).
    destruct (re_decimal_digits "" c ds rest (opt_sign_none c _ Hs) Hc Hd)
      as [E1 E2].
    split; [exact E1 |]. split; [exact E2 |]. split.
    + cbn [append strip_prefix]. rewrite H0. reflexivity.
    + simpl append. apply next_token_start. exact Ht.
  - rewrite py_str_int_neg.
    destruct (to_uint_shape p) as (c & ds & -> & Hc & Hd).
    destruct (re_decimal_digits "-" c ds rest eq_refl Hc Hd) as [E1 E2].
    split; [exact E1 |]. split; [exact E2 |]. split.
    + reflexivity.
    + apply next_token_start. reflexivity.
Qed.

(** Rule [value] reads the text of an integer that a semicolon follows. *)
Lemma value_rule_int (H : Host) (z : Z) (rest : string) :
  value_rule H (py_str_int z ++ String ";" rest)
  = Matched (VInt z) (String ";" rest).
Proof.
  destruct (Z.eq_dec z 0) as [-> | Hz].
  - assert (Hs : next_token (String "0" (String ";" rest))
                 = String "0" (String ";" rest))
      by (apply next_token_start; reflexivity).
    unfold value_rule, rule at 1, choice.
    change (py_str_int 0 ++ String ";" rest)
      with (String "0" (String ";" rest)).
    rewrite Hs.
    assert (Hf : float H (String "0" (String ";" rest)) = Failed false).
    { unfold float, rule, pattern. rewrite Hs. reflexivity. }
    assert (Hi : integer H (String "0" (String ";" rest))
                 = Matched (VInt 0) (String ";" rest)).
    { assert (Ht : token H "0" (String "0" (String ";" rest))
                   = Matched "0" (String ";" rest)).
      { unfold token, match_token. rewrite Hs.
        destruct (guarded H "0"); reflexivity. }
      unfold integer, rule, choice. rewrite Hs, Ht. reflexivity. }
    rewrite Hf, Hi. reflexivity.
  - destruct (re_decimal_str_int z rest Hz) as (Hd & Hfl & H0 & Hs).
    unfold value_rule, rule at 1, choice. rewrite Hs.
    assert (Hf : float H (py_str_int z ++ String ";" rest) = Failed false).
    { unfold float, rule, pattern. rewrite Hs, Hfl. reflexivity. }
    assert (Hi : integer H (py_str_int z ++ String ";" rest)
                 = Matched (VInt z) (String ";" rest)).
    { unfold integer, rule, choice, token, match_token, pattern.
      rewrite Hs, Hs, H0, Hd.
      unfold UDMFSemantics_integer. rewrite py_int_str_int. reflexivity. }
    rewrite Hf, Hi. reflexivity.
Qed.

(** Rule [value] reads the literal [true] that a semicolon follows. *)
Lemma value_rule_true (H : Host) (rest : string) :
  value_rule H ("true" ++ String ";" rest)
  = Matched (VBool true) (String ";" rest).
Proof.
  assert (Hs : next_token ("true" ++ String ";" rest)
               = "true" ++ String ";" rest)
    by (apply next_token_start; reflexivity).
  unfold value_rule, rule at 1, choice. rewrite Hs.
  rewrite (float_fails H _ Hs eq_refl), (integer_fails H _ Hs eq_refl).
  rewrite (quoted_string_fails H _ Hs eq_refl).
  assert (Hb : boolean H ("true" ++ String ";" rest)
               = Matched (VBool true) (String ";" rest)).
  { unfold boolean, rule, choice. rewrite Hs.
    rewrite (token_literal H "true" _ Hs (guarded_true H)).
    reflexivity. }
  rewrite Hb. reflexivity.
Qed.

(** ** Reading back what the serializer prints *)

Lemma serialize_assignment_text (H : Host) (key : string) (v : value H) :
  serialize_assignment key (AVal v) = key ++ " = " ++ value_text v ++ ";".
Proof.
  destruct v; reflexivity.
Qed.

Lemma blank_append (a b : string) : blank a -> blank b -> blank (a ++ b).
Proof.
  unfold blank. induction a as [| c a IH]; simpl; intros Ha Hb; [exact Hb |].
  apply andb_true_iff in Ha. destruct Ha as [Hc Ha].
  rewrite Hc, (IH Ha Hb). reflexivity.
Qed.

Lemma ident_start_token_start (c : ascii) :
  is_ident_start c = true -> token_start c = true.
Proof.
  char_cases c; reflexivity.
Qed.

Lemma identifier_text_start (key rest : string) :
  is_identifier key = true -> next_token (key ++ rest) = key ++ rest.
Proof.
  destruct key as [| c key]; [discriminate |]. simpl. intro Hk.
  apply andb_true_iff in Hk. destruct Hk as [Hc _].
  apply next_token_start, ident_start_token_start. exact Hc.
Qed.

Lemma identifier_reads (key rest : string) :
  is_identifier key = true ->
  stops is_ident_char rest = true ->
  identifier (key ++ rest) = Matched key rest.
Proof.
  intros Hk Hr. unfold identifier, rule, pattern.
  rewrite (identifier_text_start key rest Hk).
  destruct key as [| c key]; [discriminate |]. simpl in Hk.
  apply andb_true_iff in Hk. destruct Hk as [Hc Hall].
  assert (E : re_identifier (String c key ++ rest)
              = Some (String c key, rest)).
  { unfold re_identifier. cbn [append]. rewrite Hc.
    change (String c (key ++ rest)) with (String c key ++ rest).
    rewrite (span_append is_ident_char (String c key) rest Hall Hr).
    reflexivity. }
  rewrite E. reflexivity.
Qed.

Lemma identifier_fails (s : string) :
  stops is_ident_start (next_token s) = true ->
  identifier s = Failed false.
Proof.
  intro Hs. unfold identifier, rule, pattern, re_identifier.
  destruct (next_token s) as [| c r]; [reflexivity |].
  simpl in Hs. apply negb_true_iff in Hs. rewrite Hs. reflexivity.
Qed.

(** A punctuation token at its character. *)
Lemma token_punct (H : Host) (c : ascii) (rest : string) :
  token_start c = true ->
  py_isalnum c = false ->
  token H (str1 c) (String c rest) = Matched (str1 c) rest.
Proof.
  intros Hc Ha. unfold token, match_token.
  rewrite (next_token_start c rest Hc). simpl. rewrite Ascii.eqb_refl.
  unfold guarded, str_isalnum. simpl. rewrite Ha. reflexivity.
Qed.

(** *** Floats: a printed lexeme followed by the semicolon *)

Lemma span_extend (p : ascii -> bool) (t : string) :
  stops p t = true ->
  forall s l r, span p s = (l, r) -> span p (s ++ t) = (l, r ++ t).
Proof.
  intro Ht. induction s as [| c s IH]; intros l r.
  - simpl. intros [= <- <-]. apply span_stops. exact Ht.
  - cbn [span append]. destruct (p c).
    + destruct (span p s) as [l0 r0]. intros [= <- <-].
      rewrite (IH l0 r0 eq_refl). reflexivity.
    + intros [= <- <-]. reflexivity.
Qed.

Lemma span_whole (p : ascii -> bool) (s : string) :
  forall l r, span p s = (l, r) -> s = l ++ r.
Proof.
  induction s as [| c s IH]; intros l r; cbn [span].
  - intros [= <- <-]. reflexivity.
  - destruct (p c).
    + destruct (span p s) as [l0 r0]. intros [= <- <-].
      cbn [append]. f_equal. apply IH. reflexivity.
    + intros [= <- <-]. reflexivity.
Qed.

Lemma opt_sign_extend (s t sg s1 : string) :
  stops is_sign t = true ->
  opt_sign s = (sg, s1) -> opt_sign (s ++ t) = (sg, s1 ++ t).
Proof.
  intro Ht. destruct s as [| c s]; unfold opt_sign.
  - intros [= <- <-]. cbn [append].
    destruct t as [| d t]; [reflexivity |].
    simpl in Ht. apply negb_true_iff in Ht. rewrite Ht. reflexivity.
  - cbn [append]. destruct (is_sign c); intros [= <- <-]; reflexivity.
Qed.

Lemma opt_sign_whole (s sg s1 : string) :
  opt_sign s = (sg, s1) -> s = sg ++ s1.
Proof.
  destruct s as [| c s]; unfold opt_sign.
  - intros [= <- <-]. reflexivity.
  - destruct (is_sign c); intros [= <- <-]; reflexivity.
Qed.

Lemma re_exponent_extend (s rest ex r : string) :
  re_exponent s = (ex, r) ->
  re_exponent (s ++ String ";" rest) = (ex, r ++ String ";" rest).
Proof.
  destruct s as [| c s1].
  - intros [= <- <-]. reflexivity.
  - unfold re_exponent. cbn [append].
    destruct (Ascii.eqb c "e" || Ascii.eqb c "E").
    + destruct (opt_sign s1) as [sg s2] eqn:Es.
      rewrite (opt_sign_extend s1 (String ";" rest) sg s2 eq_refl Es).
      destruct (span is_digit s2) as [ds r'] eqn:Ed.
      rewrite (span_extend is_digit (String ";" rest) eq_refl s2 ds r' Ed).
      destruct ds; intros [= <- <-]; reflexivity.
    + intros [= <- <-]. reflexivity.
Qed.

Lemma re_exponent_whole (s ex r : string) :
  re_exponent s = (ex, r) -> s = ex ++ r.
Proof.
  destruct s as [| c s1].
  - intros [= <- <-]. reflexivity.
  - unfold re_exponent.
    destruct (Ascii.eqb c "e" || Ascii.eqb c "E").
    + destruct (opt_sign s1) as [sg s2] eqn:Es.
      destruct (span is_digit s2) as [ds r'] eqn:Ed.
      apply opt_sign_whole in Es. apply span_whole in Ed. subst s1 s2.
      destruct ds; intros [= <- <-]; [reflexivity |].
      cbn [append]. rewrite !append_assoc. reflexivity.
    + intros [= <- <-]. reflexivity.
Qed.

(** What the pattern of [float] has read, when it matches. *)
Lemma re_float_parts (s l r : string) :
  re_float s = Some (l, r) ->
  exists sg s1 ip s2 fp s3 ex,
    opt_sign s = (sg, s1)
    /\ span is_digit s1 = (ip, String "." s2)
    /\ span is_digit s2 = (fp, s3)
    /\ re_exponent s3 = (ex, r)
    /\ ip <> ""
    /\ l = sg ++ ip ++ String "." (fp ++ ex).
Proof.
  unfold re_float.
  destruct (opt_sign s) as [sg s1] eqn:Es.
  destruct (span is_digit s1) as [ip r1] eqn:Ei.
  destruct ip as [| c ip]; [discriminate |].
  destruct r1 as [| d s2]; [discriminate |].
  destruct (Ascii.eqb_spec d ".") as [-> | Hd].
  - destruct (span is_digit s2) as [fp s3] eqn:Ef.
    destruct (re_exponent s3) as [ex r0] eqn:Ee.
    intros [= <- <-].
    exists sg, s1, (String c ip), s2, fp, s3, ex.
    split; [reflexivity |]. split; [exact Ei |]. split; [exact Ef |].
    split; [exact Ee |]. split; [discriminate | reflexivity].
  - intro E. exfalso. apply Hd. clear Hd.
    destruct d as [[] [] [] [] [] [] [] []]; try discriminate E.
    reflexivity.
Qed.

Lemma re_float_extend (s rest l r : string) :
  re_float s = Some (l, r) ->
  re_float (s ++ String ";" rest) = Some (l, r ++ String ";" rest).
Proof.
  intro E.
  destruct (re_float_parts s l r E)
    as (sg & s1 & ip & s2 & fp & s3 & ex & Es & Ei & Ef & Ee & Hip & ->).
  unfold re_float.
  rewrite (opt_sign_extend s (String ";" rest) sg s1 eq_refl Es).
  rewrite (span_extend is_digit (String ";" rest) eq_refl s1 _ _ Ei).
  cbn [append].
  rewrite (span_extend is_digit (String ";" rest) eq_refl s2 _ _ Ef).
  rewrite (re_exponent_extend s3 rest ex r Ee).
  destruct ip as [| c ip]; [contradiction | reflexivity].
Qed.

Lemma re_float_whole (s l r : string) :
  re_float s = Some (l, r) -> s = l ++ r.
Proof.
  intro E.
  destruct (re_float_parts s l r E)
    as (sg & s1 & ip & s2 & fp & s3 & ex & Es & Ei & Ef & Ee & _ & ->).
  apply opt_sign_whole in Es. apply span_whole in Ei.
  apply span_whole in Ef. apply re_exponent_whole in Ee.
  subst s s1 s2 s3. rewrite !append_assoc. cbn [append].
  rewrite !append_assoc. reflexivity.
Qed.

Lemma sign_or_digit_starts_token (c : ascii) :
  is_sign c || is_digit c = true -> token_start c = true.
Proof. char_cases c; reflexivity. Qed.

Lemma re_float_start (s l r : string) :
  re_float s = Some (l, r) ->
  exists c s', s = String c s' /\ token_start c = true.
Proof.
  intro E.
  destruct (re_float_parts s l r E)
    as (sg & s1 & ip & s2 & fp & s3 & ex & Es & Ei & _ & _ & Hip & _).
  destruct s as [| c s']; unfold opt_sign in Es.
  - injection Es as <- <-. simpl in Ei. injection Ei as <-.
    contradiction.
  - exists c, s'. split; [reflexivity |].
    apply sign_or_digit_starts_token.
    destruct (is_sign c); [reflexivity |].
    injection Es as <- <-. cbn [span] in Ei.
    destruct (is_digit c); [reflexivity |].
    injection Ei as <-. contradiction.
Qed.

(** Rule [value] reads a lexeme of rule [float] as the float of its
    text. *)
Lemma value_rule_float_text (H : Host) (s rest : string) :
  float_text s = true ->
  value_rule H (s ++ String ";" rest)
  = Matched (VFloat (float_of_str H s)) (String ";" rest).
Proof.
  unfold float_text.
  destruct (re_float s) as [[l r] |] eqn:Ef; [| discriminate].
  intro Er. apply String.eqb_eq in Er. subst r.
  pose proof (re_float_whole s l "" Ef) as Hw.
  rewrite append_nil_r in Hw. subst l.
  pose proof (re_float_extend s rest s "" Ef) as Hx.
  destruct (re_float_start s s "" Ef) as (c & s' & -> & Hc).
  assert (Hnt : next_token (String c s' ++ String ";" rest)
                = String c s' ++ String ";" rest)
    by (cbn [append]; apply next_token_start; exact Hc).
  unfold value_rule, rule at 1, choice. rewrite Hnt.
  unfold float, rule, pattern. rewrite Hnt, Hx. reflexivity.
Qed.

Lemma value_rule_plain (H : Host) (v : value H) (rest : string) :
  readable v ->
  value_rule H (value_text v ++ String ";" rest)
  = Matched v (String ";" rest).
Proof.
  destruct v as [z | f | [|] | s]; simpl; intro Hv; try discriminate.
  - apply value_rule_int.
  - destruct Hv as [Ht Hf].
    rewrite (value_rule_float_text H _ rest Ht), Hf. reflexivity.
  - apply value_rule_true.
  - rewrite append_assoc. simpl.
    apply (value_rule_quoted H s (String ";" rest) Hv).
Qed.

(** Rule [assignment_expr] reads a printed assignment. *)
Lemma assignment_reads (H : Host) (key : string) (v : value H)
  (rest : string) :
  is_identifier key = true ->
  readable v ->
  assignment_expr H (serialize_assignment key (AVal v) ++ rest)
  = Matched [(key, v)] rest.
Proof.
  intros Hk Hv. rewrite serialize_assignment_text.
  rewrite !append_assoc. simpl append.
  unfold assignment_expr, rule at 1, pbind.
  rewrite (identifier_text_start key _ Hk).
  rewrite (identifier_reads key (String " " _) Hk eq_refl).
  rewrite (token_blank H "=" " " _ eq_refl).
  rewrite (token_punct H "=" _ eq_refl eq_refl).
  unfold value_rule. rewrite (rule_blank _ _ " " _ eq_refl).
  fold (value_rule H). rewrite (value_rule_plain H v rest Hv).
  rewrite (token_punct H ";" _ eq_refl eq_refl).
  reflexivity.
Qed.

Lemma assignment_expr_fails (H : Host) (s : string) :
  stops is_ident_start (next_token s) = true ->
  assignment_expr H s = Failed false.
Proof.
  intro Hs. unfold assignment_expr, rule at 1, pbind.
  rewrite identifier_next_token, (identifier_fails s Hs). reflexivity.
Qed.

Lemma global_expr_fails (H : Host) (s : string) :
  stops is_ident_start (next_token s) = true ->
  global_expr H s = Failed false.
Proof.
  intro Hs. unfold global_expr, rule at 1, choice, pbind.
  rewrite block_next_token, assignment_expr_next_token.
  rewrite (assignment_expr_fails H s Hs).
  unfold block, rule at 1, pbind.
  rewrite identifier_next_token, (identifier_fails s Hs). reflexivity.
Qed.

(** Rule [global_expr] reads a printed assignment: the block alternative
    fails at the equals sign, before its cut. *)
Lemma global_assignment_reads (H : Host) (key : string) (v : value H)
  (rest : string) :
  is_identifier key = true ->
  readable v ->
  global_expr H (serialize_assignment key (AVal v) ++ rest)
  = Matched (NDict [(key, v)]) rest.
Proof.
  intros Hk Hv.
  pose proof (assignment_reads H key v rest Hk Hv) as Ha.
  unfold global_expr, rule at 1, choice, pbind.
  rewrite block_next_token, assignment_expr_next_token, Ha.
  assert (Hb : block H (serialize_assignment key (AVal v) ++ rest)
               = Failed false).
  { rewrite serialize_assignment_text. rewrite !append_assoc. simpl append.
    unfold block, rule at 1, pbind.
    rewrite (identifier_text_start key _ Hk).
    rewrite (identifier_reads key (String " " _) Hk eq_refl).
    rewrite (token_blank H "{" " " _ eq_refl).
    unfold token, match_token.
    rewrite (next_token_start "=" _ eq_refl). reflexivity. }
  rewrite Hb. reflexivity.
Qed.

(** *** Sequences of printed items *)

Lemma star_stop {A : Type} (p : parser A) (s : string) (c : bool) :
  p s = Failed c -> star p s = Matched [] s.
Proof.
  intro Hp. rewrite star_eq, Hp. reflexivity.
Qed.

Lemma star_join {A : Type} (p : parser A) (sep T : string) :
  insensitive p ->
  blank sep ->
  forall items : list (string * A),
    Forall (fun it => reads_item p (fst it) (snd it)) items ->
    forall ws,
      blank ws ->
      exists ws',
        blank ws'
        /\ star p (ws ++ join sep (map fst items) ++ T)
           = match star p (ws' ++ T) with
             | Matched l r => Matched (map snd items ++ l)%list r
             | other => other
             end.
Proof.
  intros Hins Hsep.
  assert (Step : forall ws text a rest,
             blank ws -> reads_item p text a ->
             exists trail,
               blank trail
               /\ star p (ws ++ text ++ rest)
                  = match star p (trail ++ rest) with
                    | Matched l r => Matched (a :: l) r
                    | other => other
                    end).
  { intros ws text a rest Hws (trail & Ht & Hl & Hr).
    exists trail. split; [exact Ht |].
    rewrite star_eq, (Hins ws _ Hws), Hr.
    assert (L : String.length (trail ++ rest)
                < String.length (ws ++ text ++ rest))
      by (rewrite !length_append; lia).
    rewrite (proj2 (Nat.ltb_lt _ _) L). reflexivity. }
  induction items as [| [x a] items IH]; intros Hall ws Hws.
  - exists ws. split; [exact Hws |]. simpl.
    destruct (star p (ws ++ T)); reflexivity.
  - inversion Hall as [| ? ? Hx Hrest]; subst. simpl in Hx.
    destruct items as [| [y b] items].
    + destruct (Step ws x a T Hws Hx) as (trail & Ht & E).
      exists trail. split; [exact Ht |]. simpl. rewrite E.
      destruct (star p (trail ++ T)); reflexivity.
    + change (join sep (map fst ((x, a) :: (y, b) :: items)))
        with (x ++ sep ++ join sep (map fst ((y, b) :: items))).
      rewrite !append_assoc.
      destruct (Step ws x a
                  (sep ++ join sep (map fst ((y, b) :: items)) ++ T)
                  Hws Hx) as (trail & Ht & E).
      rewrite E.
      destruct (IH Hrest (trail ++ sep) (blank_append _ _ Ht Hsep))
        as (ws' & Hw' & E').
      exists ws'. split; [exact Hw' |].
      rewrite !append_assoc in E'. rewrite E'.
      destruct (star p (ws' ++ T)); reflexivity.
Qed.

Lemma insensitive_rule {A B : Type} (body : parser A) (action : A -> result B) :
  insensitive (rule body action).
Proof.
  intros ws s Hw. apply rule_blanks. exact Hw.
Qed.

Lemma join_head (sep x : string) (xs : list string) :
  exists y, join sep (x :: xs) = x ++ y.
Proof.
  destruct xs as [| x' xs].
  - exists EmptyString. simpl. rewrite append_nil_r. reflexivity.
  - eexists. reflexivity.
Qed.

Lemma printed_assignment_longer (H : Host) (key : string) (v : value H) :
  String.length "" < String.length (serialize_assignment key (AVal v)).
Proof.
  rewrite serialize_assignment_text, !length_append. simpl. lia.
Qed.

Lemma assignment_items (H : Host) (attributes : dict (value H)) :
  Forall plain_attribute attributes ->
  Forall (fun it => reads_item (assignment_expr H) (fst it) (snd it))
    (map assignment_item attributes).
Proof.
  intro Hall. apply Forall_map.
  apply (Forall_impl _ (P := plain_attribute)); [| exact Hall].
  intros [key v] [Hk Hv]. simpl in *.
  exists EmptyString. split; [reflexivity |].
  split; [apply printed_assignment_longer |].
  intro rest. apply assignment_reads; assumption.
Qed.

Lemma global_assignment_items (H : Host) (meta : dict (value H)) :
  Forall plain_attribute meta ->
  Forall (fun it => reads_item (global_expr H) (fst it) (snd it))
    (map global_item meta).
Proof.
  intro Hall. apply Forall_map.
  apply (Forall_impl _ (P := plain_attribute)); [| exact Hall].
  intros [key v] [Hk Hv]. simpl in *.
  exists EmptyString. split; [reflexivity |].
  split; [apply printed_assignment_longer |].
  intro rest. apply global_assignment_reads; assumption.
Qed.

Lemma printed_lines (H : Host) (attributes : dict (value H)) :
  map fst (map assignment_item attributes) = attribute_lines attributes.
Proof.
  rewrite map_map. reflexivity.
Qed.

Lemma read_lines (H : Host) (attributes : dict (value H)) :
  map snd (map assignment_item attributes)
  = map (fun kv => [kv]) attributes.
Proof.
  rewrite map_map. reflexivity.
Qed.

Lemma printed_meta (H : Host) (meta : dict (value H)) :
  map fst (map global_item meta) = attribute_lines meta.
Proof.
  rewrite map_map. reflexivity.
Qed.

(** The body of a printed block: [expr_list] reads the assignments and
    leaves the closing brace. *)
Lemma block_body_reads (H : Host) (attributes : dict (value H)) (R : string) :
  Forall plain_attribute attributes ->
  exists T,
    expr_list H
      (String LF (join (str1 LF) (attribute_lines attributes)
                  ++ String LF (String "}" R)))
    = Matched (map (fun kv => [kv]) attributes) T
    /\ token H "}" T = Matched "}" R.
Proof.
  intro Hall. rewrite expr_list_eq.
  rewrite (next_token_blank LF _ eq_refl).
  assert (Hstop : forall ws,
             blank ws ->
             star (assignment_expr H) (ws ++ String LF (String "}" R))
             = Matched [] (ws ++ String LF (String "}" R))
             /\ token H "}" (ws ++ String LF (String "}" R))
                = Matched "}" R).
  { intros ws Hws. split.
    - apply (star_stop _ _ false). apply assignment_expr_fails.
      rewrite (next_token_blanks ws _ Hws).
      rewrite (next_token_blank LF _ eq_refl).
      rewrite (next_token_start "}" R eq_refl). reflexivity.
    - rewrite (token_blanks H "}" ws _ Hws).
      rewrite (token_blank H "}" LF _ eq_refl).
      apply (token_punct H "}" R eq_refl eq_refl). }
  destruct attributes as [| [key v] attributes].
  - simpl join. simpl append.
    rewrite (next_token_blank LF _ eq_refl).
    rewrite (next_token_start "}" R eq_refl).
    exists (String "}" R). split.
    + apply (star_stop _ _ false). apply assignment_expr_fails.
      rewrite (next_token_start "}" R eq_refl). reflexivity.
    + apply (token_punct H "}" R eq_refl eq_refl).
  - assert (Hstart : next_token
                       (join (str1 LF) (attribute_lines ((key, v) :: attributes))
                        ++ String LF (String "}" R))
                     = join (str1 LF)
                         (attribute_lines ((key, v) :: attributes))
                       ++ String LF (String "}" R)).
    { destruct (join_head (str1 LF) (serialize_assignment key (AVal v))
                  (attribute_lines attributes)) as (y & Ey).
      change (attribute_lines ((key, v) :: attributes))
        with (serialize_assignment key (AVal v)
              :: attribute_lines attributes).
      rewrite Ey, serialize_assignment_text, !append_assoc.
      inversion Hall as [| ? ? [Hk _] _]; subst. simpl in Hk.
      apply identifier_text_start. exact Hk. }
    rewrite Hstart.
    destruct (star_join (assignment_expr H) (str1 LF)
                (String LF (String "}" R))
                (insensitive_rule _ _) eq_refl _
                (assignment_items H _ Hall) EmptyString eq_refl)
      as (ws' & Hw' & E).
    rewrite printed_lines, read_lines in E. simpl append in E.
    destruct (Hstop ws' Hw') as [Es Et].
    rewrite Es in E. rewrite List.app_nil_r in E.
    exists (ws' ++ String LF (String "}" R)). split; [exact E | exact Et].
Qed.

Lemma block_text_append (H : Host) (name : string)
  (attributes : dict (value H)) (R : string) :
  block_text name attributes ++ R
  = name ++ String LF
             (String "{"
                (String LF
                   (join (str1 LF) (attribute_lines attributes)
                    ++ String LF (String "}" (String LF R))))).
Proof.
  unfold block_text. rewrite !append_assoc. reflexivity.
Qed.

(** Rule [block] reads a printed block and builds the object again. *)
Lemma block_reads (H : Host) (name : string) (attributes : dict (value H))
  (o : UDMFObject H) (R : string) :
  is_identifier name = true ->
  Forall plain_attribute attributes ->
  NoDup (map fst attributes) ->
  UDMFObject_init (UDMF_BLOCK_TYPES name) attributes (Some name) = Return o ->
  block H (block_text name attributes ++ R) = Matched o (String LF R).
Proof.
  intros Hn Hall Hnd Ho. rewrite block_text_append.
  unfold block, rule at 1, pbind, cut.
  rewrite (identifier_text_start name _ Hn).
  rewrite (identifier_reads name (String LF _) Hn eq_refl).
  rewrite (token_blank H "{" LF _ eq_refl).
  rewrite (token_punct H "{" _ eq_refl eq_refl).
  destruct (block_body_reads H attributes (String LF R) Hall)
    as (T & Eb & Et).
  rewrite Eb, Et. unfold pret, UDMFSemantics_block.
  rewrite (fold_singletons attributes [] Hnd). simpl app.
  rewrite Ho. reflexivity.
Qed.

Lemma global_block_reads (H : Host) (name : string)
  (attributes : dict (value H)) (o : UDMFObject H) (R : string) :
  is_identifier name = true ->
  Forall plain_attribute attributes ->
  NoDup (map fst attributes) ->
  UDMFObject_init (UDMF_BLOCK_TYPES name) attributes (Some name) = Return o ->
  global_expr H (block_text name attributes ++ R)
  = Matched (NObject o) (String LF R).
Proof.
  intros Hn Hall Hnd Ho.
  unfold global_expr, rule at 1, choice, pbind.
  rewrite block_next_token, (block_reads H name attributes o R Hn Hall Hnd Ho).
  reflexivity.
Qed.

(** *** Documents *)

Lemma block_text_longer (H : Host) (name : string)
  (attributes : dict (value H)) :
  String.length (str1 LF) < String.length (block_text name attributes).
Proof.
  unfold block_text. rewrite !length_append. simpl. lia.
Qed.

(** The object of a plain block exists, prints the text of the block and
    is read back from it. *)
Lemma plain_block_object (H : Host) (b : string * dict (value H)) :
  plain_block b ->
  exists o,
    built b o
    /\ method_callable o "serialize" = Return tt
    /\ UDMFObject_serialize o = Return (block_text (fst b) (snd b))
    /\ reads_item (global_expr H) (block_text (fst b) (snd b)) (NObject o).
Proof.
  destruct b as [name attributes]. unfold plain_block, built. simpl.
  intros (Hn & Hall & Hnd & Hord & Hname).
  destruct (block_object H (UDMF_BLOCK_TYPES name) name attributes Hord Hnd)
    as (o & Eo & _ & Hser & _ & Hs).
  rewrite Hname in Hs.
  exists o. split; [exact Eo |]. split.
  { unfold method_callable. rewrite Hser. reflexivity. }
  split; [exact Hs |].
  exists (str1 LF). split; [reflexivity |].
  split; [apply block_text_longer |].
  intro rest. apply global_block_reads; assumption.
Qed.

Lemma plain_blocks_objects (H : Host) (blocks : list (string * dict (value H))) :
  Forall plain_block blocks ->
  exists nodes,
    Forall2 built blocks nodes
    /\ map_result
         (fun node =>
            _ <- method_callable node "serialize" ;;
            UDMFObject_serialize node)
         nodes
       = Return (map (fun b => block_text (fst b) (snd b)) blocks)
    /\ Forall (fun it => reads_item (global_expr H) (fst it) (snd it))
         (map block_item (combine blocks nodes))
    /\ map fst (map block_item (combine blocks nodes))
       = map (fun b => block_text (fst b) (snd b)) blocks
    /\ map snd (map block_item (combine blocks nodes)) = map NObject nodes.
Proof.
  induction blocks as [| b blocks IH]; intro Hall.
  - exists []. repeat split; constructor.
  - inversion Hall as [| ? ? Hb Hrest]; subst.
    destruct (plain_block_object H b Hb) as (o & Eo & Hm & Hs & Hr).
    destruct (IH Hrest) as (nodes & Hbuilt & Hser & Hreads & Hfst & Hsnd).
    exists (o :: nodes). split; [constructor; assumption |]. split.
    { simpl. rewrite Hm. simpl. rewrite Hs. simpl. rewrite Hser.
      reflexivity. }
    split; [constructor; assumption |]. split.
    + simpl. rewrite Hfst. reflexivity.
    + simpl. rewrite Hsnd. reflexivity.
Qed.

Lemma join_starts (sep x : string) (xs : list string) (T : string) :
  (forall y, next_token (x ++ y) = x ++ y) ->
  next_token (join sep (x :: xs) ++ T) = join sep (x :: xs) ++ T.
Proof.
  intro Hx. destruct (join_head sep x xs) as (y & ->).
  rewrite append_assoc. apply Hx.
Qed.

Lemma printed_assignment_starts (H : Host) (key : string) (v : value H) :
  is_identifier key = true ->
  forall y,
    next_token (serialize_assignment key (AVal v) ++ y)
    = serialize_assignment key (AVal v) ++ y.
Proof.
  intros Hk y. rewrite serialize_assignment_text, !append_assoc.
  apply identifier_text_start. exact Hk.
Qed.

Lemma block_text_starts (H : Host) (name : string)
  (attributes : dict (value H)) :
  is_identifier name = true ->
  forall y,
    next_token (block_text name attributes ++ y)
    = block_text name attributes ++ y.
Proof.
  intros Hn y. unfold block_text. rewrite !append_assoc.
  apply identifier_text_start. exact Hn.
Qed.

Lemma global_expr_fails_blank (H : Host) (ws : string) :
  blank ws -> star (global_expr H) (ws ++ "") = Matched [] (ws ++ "").
Proof.
  intro Hw. apply (star_stop _ _ false). apply global_expr_fails.
  rewrite (next_token_blanks ws "" Hw). reflexivity.
Qed.

(** The closure of [global_expr] over the printed blocks. *)
Lemma star_blocks (H : Host)
  (items : list (string * node H)) :
  Forall (fun it => reads_item (global_expr H) (fst it) (snd it)) items ->
  forall ws,
    blank ws ->
    exists tail,
      blank tail
      /\ star (global_expr H) (ws ++ join (str1 LF) (map fst items))
         = Matched (map snd items) tail.
Proof.
  intros Hall ws Hw.
  destruct (star_join (global_expr H) (str1 LF) EmptyString
              (insensitive_rule _ _) eq_refl items Hall ws Hw)
    as (ws' & Hw' & E).
  rewrite (global_expr_fails_blank H ws' Hw') in E.
  rewrite append_nil_r, List.app_nil_r in E.
  exists (ws' ++ ""). split; [rewrite append_nil_r; exact Hw' | exact E].
Qed.

(** The closure of [global_expr] over a printed document: the global
    assignments, a line feed, the blocks. *)
Lemma star_document (H : Host) (mitems bitems : list (string * node H)) :
  Forall (fun it => reads_item (global_expr H) (fst it) (snd it)) mitems ->
  Forall (fun it => reads_item (global_expr H) (fst it) (snd it)) bitems ->
  forall ws,
    blank ws ->
    exists tail,
      blank tail
      /\ star (global_expr H)
           (ws ++ join (str1 LF) (map fst mitems)
            ++ str1 LF ++ join (str1 LF) (map fst bitems))
         = Matched (map snd mitems ++ map snd bitems)%list tail.
Proof.
  intros Hm Hb ws Hw.
  destruct (star_join (global_expr H) (str1 LF)
              (str1 LF ++ join (str1 LF) (map fst bitems))
              (insensitive_rule _ _) eq_refl mitems Hm ws Hw)
    as (ws1 & Hw1 & E).
  rewrite E.
  destruct (star_blocks H bitems Hb (ws1 ++ str1 LF)
              (blank_append ws1 (str1 LF) Hw1 eq_refl)) as (tail & Ht & Eb).
  rewrite append_assoc in Eb. rewrite Eb.
  exists tail. split; [exact Ht | reflexivity].
Qed.

Lemma eof_blank (tail : string) : blank tail -> eof tail = Matched tt "".
Proof.
  intro Ht. unfold eof.
  rewrite <- (append_nil_r tail), (next_token_blanks tail "" Ht).
  reflexivity.
Qed.

(** Parsing a printed document. *)
Lemma document_reads (H : Host) (mitems bitems : list (string * node H)) :
  Forall (fun it => reads_item (global_expr H) (fst it) (snd it)) mitems ->
  Forall (fun it => reads_item (global_expr H) (fst it) (snd it)) bitems ->
  Forall (fun it => forall y, next_token (fst it ++ y) = fst it ++ y) mitems ->
  Forall (fun it => forall y, next_token (fst it ++ y) = fst it ++ y) bitems ->
  UDMF_PARSER_parse H
    (join (str1 LF)
       [join (str1 LF) (map fst mitems); join (str1 LF) (map fst bitems)])
  = Return (map snd mitems ++ map snd bitems)%list.
Proof.
  intros Hm Hb Sm Sb.
  change (join (str1 LF)
            [join (str1 LF) (map fst mitems);
             join (str1 LF) (map fst bitems)])
    with (join (str1 LF) (map fst mitems)
          ++ str1 LF ++ join (str1 LF) (map fst bitems)).
  assert (Hstar : exists tail,
             blank tail
             /\ star (global_expr H)
                  (next_token
                     (join (str1 LF) (map fst mitems)
                      ++ str1 LF ++ join (str1 LF) (map fst bitems)))
                = Matched (map snd mitems ++ map snd bitems)%list tail).
  { destruct mitems as [| [x a] mitems].
    - simpl map at 1. simpl join at 1. simpl append.
      rewrite (next_token_blank LF _ eq_refl).
      destruct bitems as [| [y b] bitems].
      + exists EmptyString. split; [reflexivity |].
        simpl. apply (star_stop _ _ false). apply global_expr_fails.
        reflexivity.
      + rewrite <- (append_nil_r (join (str1 LF) (map fst ((y, b) :: bitems)))).
        change (map fst ((y, b) :: bitems)) with (y :: map fst bitems).
        rewrite (join_starts (str1 LF) y (map fst bitems) "").
        * rewrite append_nil_r.
          apply (star_blocks H ((y, b) :: bitems) Hb EmptyString eq_refl).
        * inversion Sb as [| ? ? Hy _]; subst. exact Hy.
    - change (map fst ((x, a) :: mitems)) with (x :: map fst mitems).
      rewrite (join_starts (str1 LF) x (map fst mitems)).
      + apply (star_document H ((x, a) :: mitems) bitems Hm Hb
                 EmptyString eq_refl).
      + inversion Sm as [| ? ? Hx _]; subst. exact Hx. }
  destruct Hstar as (tail & Ht & E).
  unfold UDMF_PARSER_parse, translation_unit, rule at 1, pbind.
  rewrite global_expr_list_eq, next_token_idem, E, (eof_blank tail Ht).
  reflexivity.
Qed.

Lemma dict_set_fresh {V : Type} (k : string) (v : V) (d : dict V) :
  ~ In k (map fst d) -> dict_set k v d = (d ++ [(k, v)])%list.
Proof.
  induction d as [| [k0 v0] d IH]; simpl; intro Hk; [reflexivity |].
  destruct (String.eqb_spec k k0) as [-> | Hne].
  - exfalso. apply Hk. left; reflexivity.
  - rewrite IH; [reflexivity |]. intro Hi. apply Hk. right; exact Hi.
Qed.

(** What the loop of [_parse] makes of the nodes of a printed document. *)
Lemma _parse_nodes_meta (H : Host) (meta : dict (value H)) :
  forall (ed : UDMFMapEditor H),
    NoDup (map fst (_meta ed ++ meta)) ->
    fold_left _parse_node (map snd (map global_item meta)) ed
    = mkEditor (ed_name ed) (ed_data ed) (ed_index ed) (_wad_entries ed)
        (_wad_data ed) (_nodes ed) (_meta ed ++ meta)%list.
Proof.
  induction meta as [| [k v] meta IH]; intros ed Hnd; simpl.
  - rewrite List.app_nil_r. destruct ed; reflexivity.
  - unfold dict_update; simpl.
    assert (Hk : ~ In k (map fst (_meta ed))).
    { rewrite map_app in Hnd. simpl in Hnd.
      apply NoDup_remove_2 in Hnd. intro Hi. apply Hnd.
      apply in_or_app. left; exact Hi. }
    rewrite (dict_set_fresh k v _ Hk), IH; simpl.
    + rewrite <- List.app_assoc. reflexivity.
    + rewrite <- List.app_assoc. exact Hnd.
Qed.

Lemma _parse_nodes_objects (H : Host) (nodes : list (UDMFObject H)) :
  forall (ed : UDMFMapEditor H),
    fold_left _parse_node (map NObject nodes) ed
    = mkEditor (ed_name ed) (ed_data ed) (ed_index ed) (_wad_entries ed)
        (_wad_data ed) (_nodes ed ++ nodes)%list (_meta ed).
Proof.
  induction nodes as [| o nodes IH]; intro ed; simpl.
  - rewrite List.app_nil_r. destruct ed; reflexivity.
  - rewrite IH. simpl. rewrite <- List.app_assoc. reflexivity.
Qed.

(** *** Documents that were edited or built by hand *)

Lemma getattr_Return (H : Host) (o : UDMFObject H) (k : string)
  (a : attr H) :
  getattr o k = Return a <-> dict_get k (ob_dict o) = Some a.
Proof.
  unfold getattr. destruct (dict_get k (ob_dict o)); split; congruence.
Qed.

Lemma method_callable_Return (H : Host) (o : UDMFObject H) (m : string) :
  method_callable o m = Return tt <-> dict_get m (ob_dict o) = None.
Proof.
  unfold method_callable.
  destruct (dict_get m (ob_dict o)); split; congruence.
Qed.

Lemma dict_get_of_In {V : Type} (k : string) (v : V) (d : dict V) :
  NoDup (map fst d) -> In (k, v) d -> dict_get k d = Some v.
Proof.
  induction d as [| [k0 v0] d IH]; intros Hnd Hin; [destruct Hin |].
  simpl. inversion Hnd as [| ? ? Hn Hnd']; subst.
  destruct Hin as [[= -> ->] | Hin].
  - rewrite String.eqb_refl. reflexivity.
  - destruct (String.eqb_spec k k0) as [-> | Hne].
    + exfalso. apply Hn. apply in_map_iff. exists (k0, v).
      split; [reflexivity | exact Hin].
    + apply IH; assumption.
Qed.

(** A plain node prints the text of its block. *)
Lemma plain_node_serializes (H : Host) (o : UDMFObject H)
  (b : string * dict (value H)) :
  plain_node o b ->
  UDMFObject_serialize o = Return (block_text (fst b) (snd b)).
Proof.
  destruct b as [name attributes]. unfold plain_node. cbn [fst snd].
  intros (_ & _ & Hname & Hattrs & Hvals & _ & Hsa).
  unfold UDMFObject_serialize. rewrite Hname. cbn [rbind].
  rewrite Hattrs. cbn [rbind iter_attr].
  rewrite (serialize_lines H o attributes).
  - reflexivity.
  - apply method_callable_Return. exact Hsa.
  - intros k v Hin. apply getattr_Return. exact (Hvals k v Hin).
Qed.

(** The object the parser builds for the block of a plain node shows the
    same block as the node. *)
Lemma built_same_block (H : Host) (o o' : UDMFObject H)
  (b : string * dict (value H)) :
  plain_node o b -> built b o' -> same_block o o'.
Proof.
  destruct b as [name attributes]. unfold plain_node, built, plain_block.
  cbn [fst snd].
  intros ((_ & _ & Hnd & Hord & Hnone) & Hc & Hname & Hattrs & Hvals & _)
    Hbuilt.
  unfold UDMFObject_init in Hbuilt.
  destruct (init_attributes_spec H attributes
              (mkObject (UDMF_BLOCK_TYPES name)
                 [("name", AVal (VStr name)); ("_attributes", AList [])])
              [] eq_refl Hord Hnd) as (o2 & Eo & Hc2 & Ha2 & Hg2).
  rewrite Hbuilt in Eo. injection Eo as <-.
  unfold same_block. split; [rewrite Hc2, Hc; reflexivity |].
  split.
  { rewrite Hname. apply getattr_Return.
    rewrite Hg2 by discriminate. rewrite Hnone. reflexivity. }
  split.
  { rewrite Hattrs. apply getattr_Return. rewrite Ha2. reflexivity. }
  intros keys k Hkeys Hk. rewrite Hattrs in Hkeys. injection Hkeys as <-.
  apply in_map_iff in Hk. destruct Hk as ([k' v] & Ek & Hin).
  cbn [fst] in Ek. subst k'.
  rewrite (Hvals k v Hin). apply getattr_Return.
  rewrite Hg2.
  - rewrite (dict_get_of_In k v attributes Hnd Hin). reflexivity.
  - apply reserved_not_attributes.
    exact (proj1 (Forall_forall _ _) Hord _ Hin).
Qed.

Lemma plain_nodes_serialize (H : Host) (nodes : list (UDMFObject H))
  (blocks : list (string * dict (value H))) :
  Forall2 plain_node nodes blocks ->
  map_result
    (fun node =>
       _ <- method_callable node "serialize" ;;
       UDMFObject_serialize node)
    nodes
  = Return (map (fun b => block_text (fst b) (snd b)) blocks).
Proof.
  induction 1 as [| o b nodes blocks Hn _ IH]; [reflexivity |].
  cbn [map_result map].
  rewrite (proj1 (proj2 (proj2 (proj2 (proj2 (proj2 Hn)))))).
  cbn [rbind]. rewrite (plain_node_serializes H o b Hn). cbn [rbind].
  rewrite IH. reflexivity.
Qed.

Lemma built_unique (H : Host) (blocks : list (string * dict (value H))) :
  forall nodes nodes' : list (UDMFObject H),
    Forall2 built blocks nodes -> Forall2 built blocks nodes' ->
    nodes' = nodes.
Proof.
  induction blocks as [| b blocks IH]; intros nodes nodes' H1 H2;
    inversion H1; inversion H2; subst; [reflexivity |].
  f_equal; [unfold built in *; congruence | apply IH; assumption].
Qed.

Lemma built_same_blocks (H : Host) (blocks : list (string * dict (value H))) :
  forall nodes nodes' : list (UDMFObject H),
    Forall2 plain_node nodes blocks -> Forall2 built blocks nodes' ->
    Forall2 same_block nodes nodes'.
Proof.
  induction blocks as [| b blocks IH]; intros nodes nodes' H1 H2;
    inversion H1; inversion H2; subst; constructor.
  - eapply built_same_block; eassumption.
  - apply IH; assumption.
Qed.

(** C1 (amended). Take any document (the nodes and the global
    assignments an editor holds) in which the global assignments have
    distinct identifier keys and every node is a plain node: its class
    is the one registered for its name, its name is an identifier, its
    keys are distinct identifiers that are ordinary attribute names other
    than [name], and no instance attribute hides [serialize] or
    [serialize_assignment]. Let every value, global or in a node, be an
    integer, the boolean [True], a string that is a well-formed body of a
    quoted string, or a float that [str] prints as a lexeme of rule
    [float] and that [float] reads back from it. Then the document
    serializes, and parsing its text into an empty editor yields the same
    global assignments and, node for node, an object of the same class,
    with the same name, the same keys in the same order and the same
    values: the object the constructor builds for the block, which is the
    node itself when the node was built that way. *)
Theorem serialize_parse_roundtrip (H : Host) (ed : UDMFMapEditor H)
  (blocks : list (string * dict (value H))) :
  Forall plain_attribute (_meta ed) ->
  NoDup (map fst (_meta ed)) ->
  Forall2 plain_node (_nodes ed) blocks ->
  exists text nodes,
    UDMFMapEditor_serialize ed = Return text
    /\ (forall name index entries wad_data,
          _parse (mkEditor name (Some text) index entries wad_data [] [])
          = (mkEditor name (Some text) index entries wad_data nodes
               (_meta ed),
             Return tt))
    /\ Forall2 same_block (_nodes ed) nodes
    /\ Forall2 built blocks nodes
    /\ (Forall2 built blocks (_nodes ed) -> nodes = _nodes ed).
Proof.
  intros Hmeta Hnd Hnodes.
  assert (Hblocks : Forall plain_block blocks).
  { clear - Hnodes. induction Hnodes as [| o b nodes blocks Hn _ IH];
      constructor; [exact (proj1 Hn) | exact IH]. }
  destruct (plain_blocks_objects H blocks Hblocks)
    as (nodes & Hbuilt & _ & Hreads & Hfst & Hsnd).
  exists (join (str1 LF)
            [join (str1 LF) (attribute_lines (_meta ed));
             join (str1 LF)
               (map (fun b => block_text (fst b) (snd b)) blocks)]).
  exists nodes.
  split.
  { unfold UDMFMapEditor_serialize.
    rewrite (plain_nodes_serialize H (_nodes ed) blocks Hnodes).
    reflexivity. }
  split.
  { intros name index entries wad_data. unfold _parse. cbn [ed_data].
    rewrite <- Hfst, <- (printed_meta H (_meta ed)).
    rewrite (document_reads H (map global_item (_meta ed))
               (map block_item (combine blocks nodes))).
    + rewrite fold_left_app, (_parse_nodes_meta H (_meta ed)) by exact Hnd.
      rewrite Hsnd, _parse_nodes_objects. reflexivity.
    + apply global_assignment_items. exact Hmeta.
    + exact Hreads.
    + apply Forall_map.
      apply (Forall_impl _ (P := plain_attribute)); [| exact Hmeta].
      intros [k v] [Hk _]. simpl.
      apply printed_assignment_starts. exact Hk.
    + apply Forall_map. rewrite Forall_forall. intros [b o] Hin. simpl.
      apply block_text_starts.
      apply in_combine_l in Hin. rewrite Forall_forall in Hblocks.
      exact (proj1 (Hblocks b Hin)). }
  split; [exact (built_same_blocks H blocks _ _ Hnodes Hbuilt) |].
  split; [exact Hbuilt |].
  intro Hb. exact (built_unique H blocks _ _ Hb Hbuilt).
Qed.

Lemma serialize_parse_roundtrip_witness :
  let thing : UDMFObject plain_host :=
    mkObject Thing
      [("name", AVal (VStr "thing")); ("_attributes", AList ["x"; "skill1"]);
       ("x", AVal (VFloat (host := plain_host) "32.0"));
       ("skill1", AVal (VBool true))] in
  let custom : UDMFObject plain_host :=
    mkObject UDMFObjectClass
      [("name", AVal (VStr "custom")); ("_attributes", AList ["foo"; "label"]);
       ("foo", AVal (VInt (-1))); ("label", AVal (VStr "a b"))] in
  let ed : UDMFMapEditor plain_host :=
    mkEditor None None None [] [] [thing; custom]
      [("namespace", VStr "doom")] in
  exists text nodes,
    UDMFMapEditor_serialize ed = Return text
    /\ (forall name index entries wad_data,
          _parse (mkEditor name (Some text) index entries wad_data [] [])
          = (mkEditor name (Some text) index entries wad_data nodes
               (_meta ed),
             Return tt))
    /\ Forall2 same_block (_nodes ed) nodes
    /\ Forall2 built
         [("thing", [("x", VFloat (host := plain_host) "32.0");
                     ("skill1", VBool true)]);
          ("custom", [("foo", VInt (-1)); ("label", VStr "a b")])]
         nodes
    /\ (Forall2 built
          [("thing", [("x", VFloat (host := plain_host) "32.0");
                      ("skill1", VBool true)]);
           ("custom", [("foo", VInt (-1)); ("label", VStr "a b")])]
          (_nodes ed) ->
        nodes = _nodes ed).
Proof.
  intros thing custom ed.
  apply (serialize_parse_roundtrip plain_host ed).
  - repeat constructor.
  - repeat constructor. intros [].
  - repeat constructor; try (simpl; intuition discriminate);
      intros k v Hin; simpl in Hin;
      repeat (destruct Hin as [Hin | Hin];
              [injection Hin as <- <-; reflexivity |]);
      destruct Hin.
Defined.

(** C1, as stated, fails: the document read from a [thing] block that
    assigns [name] holds a [Thing]; its text opens with the value of
    [name], and parsing that text yields a generic object. *)
Lemma roundtrip_loses_type_tag :
  let q := str1 DQUOTE in
  let fresh text : UDMFMapEditor plain_host :=
    mkEditor None (Some text) None [] [] [] [] in
  let doc := fst (_parse (fresh ("thing { name = " ++ q ++ "wall" ++ q
                                 ++ "; }"))) in
  let text := str1 LF ++ "wall" ++ str1 LF ++ "{" ++ str1 LF
              ++ "name = " ++ q ++ "wall" ++ q ++ ";" ++ str1 LF
              ++ "}" ++ str1 LF in
  map ob_class (_nodes doc) = [Thing]
  /\ UDMFMapEditor_serialize doc = Return text
  /\ snd (_parse (fresh text)) = Return tt
  /\ map ob_class (_nodes (fst (_parse (fresh text)))) = [UDMFObjectClass]
  /\ _nodes (fst (_parse (fresh text))) <> _nodes doc.
Proof.
  vm_compute. repeat split. discriminate.
Qed.

(** The boolean [False] does not survive either: it is printed [false],
    which is read as [True]. *)
Lemma roundtrip_false_becomes_true :
  let ed : UDMFMapEditor plain_host :=
    mkEditor None None None [] [] [] [("flag", VBool false)] in
  UDMFMapEditor_serialize ed = Return ("flag = false;" ++ str1 LF)
  /\ UDMF_PARSER_parse plain_host ("flag = false;" ++ str1 LF)
     = assigned "flag" (VBool true).
Proof.
  vm_compute. split; reflexivity.
Qed.

(** Nor does a float that [str] prints without a point, as it does for
    the double 1e16: the text is no lexeme of rule [float], rule
    [integer] reads its first digit, and the parse fails at the
    exponent. *)
Lemma roundtrip_float_without_point (H : Host) (f : pyfloat H) :
  str_of_float H f = "1e+16" ->
  float_text (str_of_float H f) = false
  /\ UDMFMapEditor_serialize
       (mkEditor None None None [] [] [] [("x", VFloat f)])
     = Return ("x = 1e+16;" ++ str1 LF)
  /\ UDMF_PARSER_parse H ("x = 1e+16;" ++ str1 LF) = Throw FailedParse.
Proof.
  intro E. split; [rewrite E; reflexivity |]. split.
  - unfold UDMFMapEditor_serialize.
    cbn [_meta _nodes map map_result rbind fst snd].
    rewrite serialize_assignment_text. cbn [value_text format_value].
    rewrite E. reflexivity.
  - destruct H as [F fos sof g]. destruct g; vm_compute; reflexivity.
Qed.

(** ** Booleans and comments *)

Lemma value_rule_false (H : Host) (rest : string) :
  value_rule H ("false" ++ String ";" rest)
  = Matched (VBool true) (String ";" rest).
Proof.
  assert (Hs : next_token ("false" ++ String ";" rest)
               = "false" ++ String ";" rest)
    by (apply next_token_start; reflexivity).
  unfold value_rule, rule at 1, choice. rewrite Hs.
  rewrite (float_fails H _ Hs eq_refl), (integer_fails H _ Hs eq_refl).
  rewrite (quoted_string_fails H _ Hs eq_refl).
  assert (Hb : boolean H ("false" ++ String ";" rest)
               = Matched (VBool true) (String ";" rest)).
  { unfold boolean, rule, choice. rewrite Hs.
    rewrite (token_literal H "true" _ Hs (guarded_true H)).
    rewrite (token_literal H "false" _ Hs (guarded_false H)).
    reflexivity. }
  rewrite Hb. reflexivity.
Qed.

(** C4. The action of rule [boolean] is [bool(ast)], and a non-empty
    string is true: as the value of an assignment, the literal [true]
    yields [True], and so does the literal [false]; the text
    [x = false;] is read as [x = True]. *)
Theorem boolean_false_reads_true (H : Host) :
  UDMFSemantics_boolean H "true" = Return (VBool true)
  /\ UDMFSemantics_boolean H "false" = Return (VBool true)
  /\ (forall rest,
        value_rule H ("true" ++ String ";" rest)
        = Matched (VBool true) (String ";" rest))
  /\ (forall rest,
        value_rule H ("false" ++ String ";" rest)
        = Matched (VBool true) (String ";" rest))
  /\ UDMF_PARSER_parse H "x = true;" = assigned "x" (VBool true)
  /\ UDMF_PARSER_parse H "x = false;" = assigned "x" (VBool true).
Proof.
  split; [reflexivity |]. split; [reflexivity |].
  split; [apply value_rule_true |]. split; [apply value_rule_false |].
  destruct H as [F fos sof g].
  split; destruct g; vm_compute; reflexivity.
Qed.

(** A line comment is skipped up to the end of its line. *)
Lemma skip_line_stops (line rest : string) :
  contains_char LF line = false ->
  skip_line (line ++ String LF rest) = String LF rest.
Proof.
  induction line as [| c line IH]; cbn [contains_char append skip_line].
  - intros _. rewrite Ascii.eqb_refl. reflexivity.
  - intro Hc. apply orb_false_iff in Hc. destruct Hc as [Hc Hl].
    rewrite Ascii.eqb_sym, Hc. exact (IH Hl).
Qed.

Lemma line_comment_skipped (line rest : string) :
  contains_char LF line = false ->
  next_token (String "/" (String "/" (line ++ String LF rest)))
  = next_token rest.
Proof.
  intro Hl. rewrite next_token_eq. cbn [eol_comment].
  rewrite (skip_line_stops line rest Hl).
  apply (next_token_blank LF rest eq_refl).
Qed.

(** A text that opens a C-style block comment is at a token: neither
    comment pattern matches at the slash and the star. *)
Lemma c_comment_not_skipped (s : string) :
  next_token (String "/" (String "*" s)) = String "/" (String "*" s).
Proof.
  rewrite next_token_eq. reflexivity.
Qed.

Lemma c_comment_fails (H : Host) (s : string) :
  UDMF_PARSER_parse H (String "/" (String "*" s)) = Throw FailedParse.
Proof.
  unfold UDMF_PARSER_parse, translation_unit, rule at 1, pbind.
  rewrite global_expr_list_eq, next_token_idem, c_comment_not_skipped.
  rewrite (star_stop (global_expr H) _ false).
  - unfold eof. rewrite c_comment_not_skipped. reflexivity.
  - apply global_expr_fails. rewrite c_comment_not_skipped. reflexivity.
Qed.

(** C7. A line comment is skipped up to the end of its line, and so is a
    block that opens with a backslash and a star, which is what the
    [@@comments] pattern matches; a C-style block comment, opening with
    a slash and a star, is not matched by it: every text that begins
    with one is a syntax error. *)
Theorem c_block_comment_is_syntax_error (H : Host) :
  (forall line rest,
     contains_char LF line = false ->
     next_token (String "/" (String "/" (line ++ String LF rest)))
     = next_token rest)
  /\ (forall s,
        UDMF_PARSER_parse H (String "/" (String "*" s)) = Throw FailedParse)
  /\ UDMF_PARSER_parse H "x = 1;" = assigned "x" (VInt 1)
  /\ UDMF_PARSER_parse H ("// c" ++ str1 LF ++ "x = 1; // d")
     = assigned "x" (VInt 1)
  /\ UDMF_PARSER_parse H "\* c */ x = 1;" = assigned "x" (VInt 1)
  /\ UDMF_PARSER_parse H "/* c */ x = 1;" = Throw FailedParse
  /\ UDMF_PARSER_parse H "x = 1; /* c */" = Throw FailedParse.
Proof.
  split; [exact line_comment_skipped |]. split; [apply c_comment_fails |].
  destruct H as [F fos sof g].
  repeat split; destruct g; vm_compute; reflexivity.
Qed.

(** ** Hexadecimal literals *)

(** [int] reads base 10: on a lexeme of the hexadecimal pattern it raises. *)
Lemma integer_action_hex (H : Host) (ds : string) :
  exists msg,
    UDMFSemantics_integer H (String "0" (String "x" ds))
    = Throw (ValueError msg).
Proof.
  unfold UDMFSemantics_integer, py_int.
  change (opt_sign (String "0" (String "x" ds)))
    with (EmptyString, String "0" (String "x" ds)).
  cbv iota.
  assert (E : NilEmpty.uint_of_string (String "0" (String "x" ds)) = None).
  { cbn [NilEmpty.uint_of_string].
    destruct (NilEmpty.uint_of_string ds); reflexivity. }
  rewrite E. eexists. reflexivity.
Qed.

(** C5. The plain decimal form is read as the integer it denotes. The
    hexadecimal form never is: [int(ast)] reads base 10 and raises
    [ValueError] on every lexeme of the hexadecimal pattern, so when the
    name guard lets the pattern reach [0x1F] the parse ends with that
    error, and otherwise the token [0] matches first and the rest of the
    literal is a syntax error. The leading-zero form is read only under
    the name guard on digits. *)
Theorem integer_hex_not_read (H : Host) :
  (forall z rest,
     value_rule H (py_str_int z ++ String ";" rest)
     = Matched (VInt z) (String ";" rest))
  /\ (forall ds,
        exists msg,
          UDMFSemantics_integer H (String "0" (String "x" ds))
          = Throw (ValueError msg))
  /\ UDMF_PARSER_parse H "x = 123;" = assigned "x" (VInt 123)
  /\ UDMF_PARSER_parse H "x = -7;" = assigned "x" (VInt (-7))
  /\ UDMF_PARSER_parse H "x = 0123;"
     = (if digit_nameguard H then assigned "x" (VInt 123)
        else Throw FailedParse)
  /\ UDMF_PARSER_parse H "x = 0x1F;"
     = (if digit_nameguard H
        then Throw (ValueError
                      "invalid literal for int() with base 10: '0x1F'")
        else Throw FailedParse)
  /\ UDMF_PARSER_parse H "x = 0x1F;" <> assigned "x" (VInt 31).
Proof.
  split; [apply value_rule_int |]. split; [apply integer_action_hex |].
  destruct H as [F fos sof g].
  repeat split; destruct g; vm_compute; try reflexivity; discriminate.
Qed.

(** * Further properties *)

(** ** What [_parse] and a successful [load] leave *)

Lemma fold_parse_nodes (H : Host) (ast : list (node H)) :
  forall ed : UDMFMapEditor H,
    fold_left _parse_node ast ed
    = mkEditor (ed_name ed) (ed_data ed) (ed_index ed) (_wad_entries ed)
        (_wad_data ed) (_nodes ed ++ objects_of ast)%list
        (fold_left dict_update (dicts_of ast) (_meta ed)).
Proof.
  induction ast as [| n ast IH]; intro ed; simpl.
  - rewrite List.app_nil_r. destruct ed; reflexivity.
  - rewrite IH. destruct n; simpl.
    + rewrite <- List.app_assoc. reflexivity.
    + reflexivity.
Qed.

Lemma span_text_found (records : WadIO) (t : string) :
  span_text records None = Some t ->
  forall d, span_text records d = Some t.
Proof.
  induction records as [| [n b] records IH]; simpl; [discriminate |].
  destruct (String.eqb n "ENDMAP"); [discriminate |].
  destruct (String.eqb n "TEXTMAP").
  - intros E d. exact E.
  - exact IH.
Qed.

Lemma falsy_false (x : option string) :
  falsy x = false -> exists s, x = Some s /\ s <> "".
Proof.
  destruct x as [s |]; simpl; [| discriminate].
  intro E. exists s. split; [reflexivity |].
  apply String.eqb_neq. exact E.
Qed.

(** A [load] that ends normally on a fresh editor found the first pair,
    took a non-empty 7-bit text from its span, parsed it, and left the
    blocks and the global assignments of that text. *)
Lemma load_success_shape (H : Host) (w : WadIO) (name : string)
  (ed1 : UDMFMapEditor H) :
  load name (UDMFMapEditor_init H w) = (ed1, Return tt) ->
  exists i text ast,
    first_pair w name i
    /\ name <> "" /\ text <> ""
    /\ span_ascii (skipn i w) = true
    /\ span_text (skipn i w) None = Some text
    /\ UDMF_PARSER_parse H text = Return ast
    /\ ed1 = mkEditor (Some name) (Some text) (Some i) (WadIO_entries w)
               (map snd w) (objects_of ast)
               (fold_left dict_update (dicts_of ast) []).
Proof.
  intro Hload.
  destruct (load_scan (WadIO_entries w) name 0 (WadIO_entries w))
    as [[i e] |] eqn:Es.
  - apply scan_found_first in Es. destruct Es as [_ Hf].
    rewrite (load_init_some H w name i Hf) in Hload.
    destruct (load_span_spec w i (skipn i w) 0 None) as [Hok Hbad];
      [f_equal; lia |].
    destruct (span_ascii (skipn i w)) eqn:Ha.
    + rewrite (Hok eq_refl) in Hload.
      destruct (falsy (Some name) || falsy (span_text (skipn i w) None))
        eqn:Ef; [discriminate |].
      apply orb_false_iff in Ef. destruct Ef as [Efn Efd].
      apply falsy_false in Efn. destruct Efn as (n & [= <-] & Hn).
      apply falsy_false in Efd. destruct Efd as (text & Et & Ht).
      rewrite Et in Hload. unfold _parse, located in Hload.
      cbn [ed_data] in Hload.
      destruct (UDMF_PARSER_parse H text) as [ast | e'] eqn:Ep;
        [| discriminate].
      injection Hload as <-.
      exists i, text, ast.
      rewrite fold_parse_nodes. auto 10.
    + specialize (Hbad eq_refl).
      destruct (load_span (map snd w) i 0 (WadIO_entries (skipn i w)) None)
        as [data ended].
      simpl in Hbad. subst ended. discriminate.
  - exfalso.
    assert (Hno : forall j, ~ has_pair w name j).
    { intros j Hp.
      pose proof (load_scan_spec w name (WadIO_entries w) 0 eq_refl) as S.
      rewrite Es in S. apply (S j); [lia | exact Hp]. }
    pose proof (load_init_none H w name Hno) as Hnf.
    rewrite Hload in Hnf. discriminate.
Qed.

(** [load] on an editor that holds the snapshot of [w] and a text already:
    where the loops leave it. *)
Lemma load_again_some (H : Host) (w : WadIO) (name : string) (i : nat)
  (ed : UDMFMapEditor H) (text : string) :
  _wad_entries ed = WadIO_entries w ->
  _wad_data ed = map snd w ->
  first_pair w name i ->
  span_ascii (skipn i w) = true ->
  span_text (skipn i w) None = Some text ->
  name <> "" -> text <> "" ->
  load name ed
  = _parse (mkEditor (Some name) (Some text) (Some i) (WadIO_entries w)
              (map snd w) (_nodes ed) (_meta ed)).
Proof.
  intros He Hd Hf Ha Ht Hn Hx. unfold load. rewrite He, Hd.
  rewrite (scan_first_pair w name i Hf).
  replace (skipn i (WadIO_entries w)) with (WadIO_entries (skipn i w))
    by (unfold WadIO_entries; symmetry; apply skipn_map).
  destruct (load_span_spec w i (skipn i w) 0 (ed_data ed)) as [Hok _];
    [f_equal; lia |].
  rewrite (Hok Ha), (span_text_found _ _ Ht). cbn [entry_name ed_name ed_data].
  simpl falsy. rewrite (proj2 (String.eqb_neq _ _) Hn),
    (proj2 (String.eqb_neq _ _) Hx).
  reflexivity.
Qed.

(** ** The accessors of the editor *)

Lemma pyclass_eqb_eq (a b : pyclass) : pyclass_eqb a b = true <-> a = b.
Proof. destruct a, b; simpl; split; congruence. Qed.

Lemma get_nodes_app (H : Host) (ed : UDMFMapEditor H)
  (more : list (UDMFObject H)) (type : pyclass) :
  filter (fun node => isinstance node type) (_nodes ed ++ more)
  = (get_nodes ed type ++ filter (fun node => isinstance node type) more)%list.
Proof. unfold get_nodes. apply filter_app. Qed.

(** X1. [get_nodes(UDMFObject)] is every node; the five typed accessors
    share no node, each lists the nodes of its class in the order of
    [_nodes], and together with the nodes of the base class they count
    every node exactly once. *)
Theorem get_nodes_partition (H : Host) (ed : UDMFMapEditor H) :
  get_nodes ed UDMFObjectClass = _nodes ed
  /\ (forall t1 t2 o,
        t1 <> UDMFObjectClass -> t2 <> UDMFObjectClass ->
        In o (get_nodes ed t1) -> In o (get_nodes ed t2) -> t1 = t2)
  /\ (forall type o,
        type <> UDMFObjectClass ->
        (In o (get_nodes ed type) <-> In o (_nodes ed) /\ ob_class o = type))
  /\ List.length (things ed) + List.length (vertices ed)
     + List.length (linedefs ed) + List.length (sidedefs ed)
     + List.length (sectors ed)
     + List.length
         (filter (fun o => pyclass_eqb (ob_class o) UDMFObjectClass)
            (_nodes ed))
     = List.length (_nodes ed).
Proof.
  assert (Hin : forall type o,
             type <> UDMFObjectClass ->
             (In o (get_nodes ed type)
              <-> In o (_nodes ed) /\ ob_class o = type)).
  { intros type o Ht. unfold get_nodes, isinstance. rewrite filter_In.
    rewrite orb_true_iff, !pyclass_eqb_eq. intuition congruence. }
  split; [| split; [| split]].
  - assert (E : forall o : UDMFObject H, isinstance o UDMFObjectClass = true)
      by (intro o; unfold isinstance; destruct (ob_class o); reflexivity).
    unfold get_nodes. clear Hin.
    induction (_nodes ed) as [| o l IH]; [reflexivity |].
    cbn [filter]. rewrite E, IH. reflexivity.
  - intros t1 t2 o H1 H2 I1 I2.
    apply Hin in I1; [| exact H1]. apply Hin in I2; [| exact H2].
    destruct I1 as [_ <-]. destruct I2 as [_ <-]. reflexivity.
  - exact Hin.
  - unfold things, vertices, linedefs, sidedefs, sectors, get_nodes, isinstance.
    clear Hin. cbn [pyclass_eqb].
    induction (_nodes ed) as [| o l IH]; [reflexivity |].
    cbn [filter].
    destruct (ob_class o); cbn [pyclass_eqb orb List.length]; lia.
Qed.

(** ** The snapshot taken by the constructor *)

(** X2. [UDMFMapEditor.__init__] copies every record of the container, in
    order: the entry and the bytes kept at an index are the name and the
    bytes of the record at that index, and nothing is kept beyond the
    last record; no map is selected and no node or global assignment is
    held yet. *)
Theorem init_snapshot (H : Host) (w : WadIO) :
  let ed := UDMFMapEditor_init H w in
  List.length (_wad_entries ed) = List.length w
  /\ List.length (_wad_data ed) = List.length w
  /\ (forall i n b,
        nth_error w i = Some (n, b) ->
        nth_error (_wad_entries ed) i = Some (mkEntry n)
        /\ nth_error (_wad_data ed) i = Some b)
  /\ ed_name ed = None /\ ed_data ed = None /\ ed_index ed = None
  /\ (forall type, get_nodes ed type = []) /\ _meta ed = [].
Proof.
  cbv zeta. pose proof (init_wad_data H w) as Hd.
  unfold UDMFMapEditor_init in *.
  cbn [_wad_entries _wad_data ed_name ed_data ed_index _meta] in *.
  rewrite Hd. unfold WadIO_entries. rewrite !length_map.
  split; [reflexivity |]. split; [reflexivity |].
  split; [| repeat split].
  intros i n b Hi. rewrite !nth_error_map, Hi. split; reflexivity.
Qed.

(** ** Dictionaries updated in sequence *)

Lemma fold_updates_concat {V : Type} (ds : list (dict V)) :
  forall d, fold_left dict_update ds d = dict_update d (concat ds).
Proof.
  induction ds as [| x ds IH]; intro d; simpl; [reflexivity |].
  rewrite IH. unfold dict_update. rewrite fold_left_app. reflexivity.
Qed.

Lemma dict_update_keys {V : Type} (items : list (string * V)) :
  forall d seen,
    (forall x, existsb (String.eqb x) seen
               = existsb (String.eqb x) (map fst d)) ->
    map fst (dict_update d items)
    = (map fst d ++ first_keys seen (map fst items))%list.
Proof.
  induction items as [| [k v] items IH]; intros d seen Hs.
  - simpl. rewrite List.app_nil_r. reflexivity.
  - change (dict_update d ((k, v) :: items))
      with (dict_update (dict_set k v d) items).
    cbn [map fst first_keys]. rewrite Hs.
    pose proof (dict_set_keys k v d) as Hk.
    destruct (existsb (String.eqb k) (map fst d)) eqn:E.
    + rewrite (IH (dict_set k v d) seen).
      * rewrite Hk. reflexivity.
      * intro x. rewrite Hk. apply Hs.
    + rewrite (IH (dict_set k v d) (k :: seen)).
      * rewrite Hk, <- List.app_assoc. reflexivity.
      * intro x. rewrite Hk, existsb_app. simpl.
        rewrite Hs, orb_false_r. apply orb_comm.
Qed.

Lemma dict_get_app {V : Type} (k : string) (a b : dict V) :
  dict_get k (a ++ b)%list
  = match dict_get k a with
    | Some v => Some v
    | None => dict_get k b
    end.
Proof.
  induction a as [| [k0 v0] a IH]; simpl; [reflexivity |].
  destruct (String.eqb k k0); [reflexivity | exact IH].
Qed.

Lemma dict_update_get {V : Type} (k : string) (items : list (string * V)) :
  forall d,
    dict_get k (dict_update d items)
    = match last_assigned k items with
      | Some v => Some v
      | None => dict_get k d
      end.
Proof.
  induction items as [| [k0 v0] items IH]; intro d; [reflexivity |].
  change (dict_update d ((k0, v0) :: items))
    with (dict_update (dict_set k0 v0 d) items).
  rewrite IH. unfold last_assigned. cbn [rev]. rewrite dict_get_app.
  destruct (dict_get k (rev items)); [reflexivity |].
  cbn [dict_get].
  destruct (String.eqb_spec k k0) as [-> | Hne].
  - apply dict_get_set_same.
  - apply dict_get_set_other. exact Hne.
Qed.

Lemma dict_get_Some {V : Type} (k : string) (d : dict V) :
  In k (map fst d) -> exists v, dict_get k d = Some v.
Proof.
  induction d as [| [k0 v0] d IH]; simpl; [intros [] |].
  intro Hi. destruct (String.eqb_spec k k0) as [-> | Hne].
  - exists v0. reflexivity.
  - apply IH. destruct Hi as [E | Hi]; [congruence | exact Hi].
Qed.

Lemma dict_get_key {V : Type} (k : string) (v : V) (d : dict V) :
  dict_get k d = Some v -> In k (map fst d).
Proof.
  intro E. apply dict_get_In in E.
  apply (in_map fst) in E. exact E.
Qed.

Lemma last_assigned_Some {V : Type} (k : string) (items : list (string * V)) :
  In k (map fst items) -> exists v, last_assigned k items = Some v.
Proof.
  intro Hi. apply dict_get_Some. rewrite map_rev, <- in_rev. exact Hi.
Qed.

Lemma last_assigned_In {V : Type} (k : string) (v : V)
  (items : list (string * V)) :
  last_assigned k items = Some v -> In (k, v) items.
Proof.
  intro E. apply dict_get_In in E. apply in_rev. exact E.
Qed.

Lemma first_keys_incl (keys : list string) :
  forall seen k, In k (first_keys seen keys) -> In k keys.
Proof.
  induction keys as [| k0 keys IH]; intros seen k; simpl; [intros [] |].
  destruct (existsb (String.eqb k0) seen).
  - intro Hi. right. exact (IH _ _ Hi).
  - intros [E | Hi]; [left; exact E | right; exact (IH _ _ Hi)].
Qed.

Lemma first_keys_nil (keys : list string) :
  forall seen,
    (forall k, In k keys -> existsb (String.eqb k) seen = true) ->
    first_keys seen keys = [].
Proof.
  induction keys as [| k0 keys IH]; intros seen Hs; simpl; [reflexivity |].
  rewrite (Hs k0 (or_introl eq_refl)).
  apply IH. intros k Hk. apply Hs. right. exact Hk.
Qed.

Lemma dict_ext {V : Type} (d1 : dict V) :
  forall d2,
    NoDup (map fst d1) ->
    map fst d1 = map fst d2 ->
    (forall k, dict_get k d1 = dict_get k d2) ->
    d1 = d2.
Proof.
  induction d1 as [| [k v] d1 IH]; intros [| [k2 v2] d2] Hn Hk Hg;
    try discriminate; [reflexivity |].
  simpl in Hk. injection Hk as <- Hk.
  pose proof (Hg k) as Hv. simpl in Hv. rewrite String.eqb_refl in Hv.
  injection Hv as <-.
  inversion Hn as [| ? ? Hnotin Hn']; subst.
  f_equal. apply IH; [exact Hn' | exact Hk |].
  intro k'. destruct (String.eqb_spec k' k) as [-> | Hne].
  - rewrite (dict_get_None k d1 Hnotin).
    symmetry. apply dict_get_None. rewrite <- Hk. exact Hnotin.
  - specialize (Hg k'). simpl in Hg.
    rewrite (proj2 (String.eqb_neq _ _) Hne) in Hg. exact Hg.
Qed.

(** Updating a dict again with the assignments it was updated with
    changes nothing. *)
Lemma dict_update_twice {V : Type} (d : dict V) (items : list (string * V)) :
  NoDup (map fst d) ->
  dict_update (dict_update d items) items = dict_update d items.
Proof.
  intro Hn. symmetry. apply dict_ext.
  - apply dict_update_NoDup. exact Hn.
  - rewrite (dict_update_keys items (dict_update d items)
               (map fst (dict_update d items))) by reflexivity.
    rewrite first_keys_nil; [rewrite List.app_nil_r; reflexivity |].
    intros k Hk. apply existsb_exists. exists k.
    split; [| apply String.eqb_refl].
    destruct (last_assigned_Some k items Hk) as [v Hv].
    apply (dict_get_key k v). rewrite dict_update_get, Hv. reflexivity.
  - intro k. rewrite !dict_update_get.
    destruct (last_assigned k items); reflexivity.
Qed.

(** ** Parsing into an editor that holds nodes already *)

(** X3. [_parse] adds to what the editor holds: the block objects of the
    text are appended to [_nodes] in document order, so every accessor
    returns its former nodes followed by the new ones of its class; a
    global key already in [_meta] keeps its position, the new keys follow
    in the order of their first assignment, and each assigned key holds
    the value assigned last. *)
Theorem _parse_accumulates (H : Host) (ed : UDMFMapEditor H) (text : string)
  (ast : list (node H)) :
  ed_data ed = Some text ->
  UDMF_PARSER_parse H text = Return ast ->
  let ed' := fst (_parse ed) in
  snd (_parse ed) = Return tt
  /\ _nodes ed' = (_nodes ed ++ objects_of ast)%list
  /\ (forall type,
        get_nodes ed' type
        = (get_nodes ed type
           ++ filter (fun node => isinstance node type) (objects_of ast))%list)
  /\ map fst (_meta ed')
     = (map fst (_meta ed)
        ++ first_keys (map fst (_meta ed))
             (map fst (concat (dicts_of ast))))%list
  /\ forall k,
       dict_get k (_meta ed')
       = match last_assigned k (concat (dicts_of ast)) with
         | Some v => Some v
         | None => dict_get k (_meta ed)
         end.
Proof.
  intros Hd Hp. cbv zeta. unfold _parse. rewrite Hd, Hp.
  rewrite fold_parse_nodes. cbn [fst snd _nodes _meta].
  split; [reflexivity |]. split; [reflexivity |].
  split; [| split].
  - intro type. unfold get_nodes at 1. cbn [_nodes]. apply get_nodes_app.
  - rewrite fold_updates_concat. apply dict_update_keys. reflexivity.
  - intro k. rewrite fold_updates_concat. apply dict_update_get.
Qed.

Lemma _parse_accumulates_witness :
  let o : UDMFObject plain_host :=
    mkObject Vertex
      [("name", AVal (VStr "vertex")); ("_attributes", AList [])] in
  let t : UDMFObject plain_host :=
    mkObject Thing [("name", AVal (VStr "thing")); ("_attributes", AList [])] in
  let ed :=
    mkEditor None (Some "a = 1; thing { } b = 2; a = 3;") None [] []
      [o] [("b", VInt 0)] in
  _nodes (fst (_parse ed)) = [o; t]
  /\ things (fst (_parse ed)) = [t]
  /\ map fst (_meta (fst (_parse ed))) = ["b"; "a"]
  /\ dict_get "a" (_meta (fst (_parse ed))) = Some (VInt 3)
  /\ dict_get "b" (_meta (fst (_parse ed))) = Some (VInt 2).
Proof.
  intros o t ed.
  destruct (_parse_accumulates plain_host ed "a = 1; thing { } b = 2; a = 3;"
              [NDict [("a", VInt 1)]; NObject t; NDict [("b", VInt 2)];
               NDict [("a", VInt 3)]]
              eq_refl ltac:(vm_compute; reflexivity))
    as (_ & Hn & Hg & Hk & Hv).
  split; [exact Hn |]. split; [exact (Hg Thing) |].
  split; [exact Hk |]. split; [exact (Hv "a") | exact (Hv "b")].
Defined.

(** X4. Loading the same map a second time parses the same text again
    into the same editor: every block is held twice, the second copies
    after the first, while the global assignments, the name, the text
    and the index are what the first call left. *)
Theorem load_twice_duplicates_nodes (H : Host) (w : WadIO) (name : string)
  (ed1 : UDMFMapEditor H) :
  load name (UDMFMapEditor_init H w) = (ed1, Return tt) ->
  exists ed2,
    load name ed1 = (ed2, Return tt)
    /\ _nodes ed2 = (_nodes ed1 ++ _nodes ed1)%list
    /\ _meta ed2 = _meta ed1
    /\ ed_name ed2 = ed_name ed1
    /\ ed_data ed2 = ed_data ed1
    /\ ed_index ed2 = ed_index ed1.
Proof.
  intro Hload.
  destruct (load_success_shape H w name ed1 Hload)
    as (i & text & ast & Hf & Hn & Hx & Ha & Ht & Hp & ->).
  rewrite (load_again_some H w name i
             (mkEditor (Some name) (Some text) (Some i) (WadIO_entries w)
                (map snd w) (objects_of ast)
                (fold_left dict_update (dicts_of ast) []))
             text eq_refl eq_refl Hf Ha Ht Hn Hx).
  unfold _parse. cbn [ed_data _nodes _meta]. rewrite Hp.
  eexists. split; [reflexivity |].
  rewrite fold_parse_nodes. cbn [_nodes _meta ed_name ed_data ed_index].
  split; [reflexivity |]. split; [| auto].
  rewrite !fold_updates_concat. apply dict_update_twice. constructor.
Qed.

Lemma load_twice_duplicates_nodes_witness :
  let w := [("MAP01", ""); ("TEXTMAP", "a = 1; thing { }"); ("ENDMAP", "")] in
  let ed1 := fst (load "MAP01" (UDMFMapEditor_init plain_host w)) in
  exists ed2,
    load "MAP01" ed1 = (ed2, Return tt)
    /\ _nodes ed2 = (_nodes ed1 ++ _nodes ed1)%list
    /\ _meta ed2 = _meta ed1
    /\ ed_name ed2 = ed_name ed1
    /\ ed_data ed2 = ed_data ed1
    /\ ed_index ed2 = ed_index ed1.
Proof.
  intros w ed1.
  apply (load_twice_duplicates_nodes plain_host w "MAP01" ed1).
  vm_compute. reflexivity.
Defined.

(** ** [load] when no map is found, and how it can fail *)

(** X5. When no record named [name] is directly followed by a [TEXTMAP]
    record, [load(name)] on a fresh editor raises the not-found error and
    leaves the editor as it was; on an editor that has loaded a map
    already it raises nothing: the editor keeps the name of the map
    loaded before, and the text of that map is parsed again, so that
    every block is held twice. *)
Theorem load_without_pair (H : Host) (w : WadIO) (name : string) :
  (forall i, ~ has_pair w name i) ->
  load name (UDMFMapEditor_init H w)
  = (UDMFMapEditor_init H w, Throw NotFound)
  /\ forall name1 ed1,
       load name1 (UDMFMapEditor_init H w) = (ed1, Return tt) ->
       exists ed2,
         load name ed1 = (ed2, Return tt)
         /\ ed_name ed2 = Some name1
         /\ ed_index ed2 = ed_index ed1
         /\ _nodes ed2 = (_nodes ed1 ++ _nodes ed1)%list.
Proof.
  intro Hno. split.
  - unfold load. cbn [_wad_entries UDMFMapEditor_init].
    rewrite (scan_no_pair w name Hno). reflexivity.
  - intros name1 ed1 Hload.
    destruct (load_success_shape H w name1 ed1 Hload)
      as (i & text & ast & Hf & Hn & Hx & Ha & Ht & Hp & ->).
    unfold load. cbn [_wad_entries].
    rewrite (scan_no_pair w name Hno). cbn [ed_name ed_data falsy].
    rewrite (proj2 (String.eqb_neq _ _) Hn), (proj2 (String.eqb_neq _ _) Hx).
    cbn [orb]. unfold _parse. cbn [ed_data]. rewrite Hp.
    eexists. split; [reflexivity |].
    rewrite fold_parse_nodes. cbn [_nodes ed_name ed_index]. auto.
Qed.

Lemma load_without_pair_witness :
  let w := [("MAP01", ""); ("TEXTMAP", "thing { }"); ("ENDMAP", "")] in
  load "MAP02" (UDMFMapEditor_init plain_host w)
  = (UDMFMapEditor_init plain_host w, Throw NotFound)
  /\ exists ed2,
       load "MAP02" (fst (load "MAP01" (UDMFMapEditor_init plain_host w)))
       = (ed2, Return tt)
       /\ ed_name ed2 = Some "MAP01".
Proof.
  intro w.
  assert (Hno : forall i, ~ has_pair w "MAP02" i).
  { intros i [Hh _]. do 3 (destruct i as [| i]; [discriminate |]).
    destruct i; discriminate. }
  destruct (load_without_pair plain_host w "MAP02" Hno) as [Hfresh Hagain].
  split; [exact Hfresh |].
  destruct (Hagain "MAP01"
              (fst (load "MAP01" (UDMFMapEditor_init plain_host w)))
              ltac:(vm_compute; reflexivity)) as (ed2 & E & En & _).
  exists ed2. split; [exact E | exact En].
Defined.

(** X6. Whatever the container holds, [load] on a fresh editor ends
    normally or with the not-found error, a decoding error, a parse
    failure or an exception of a semantic action: the index error of the
    scan is caught, and the read of the byte snapshot is never out of
    range. *)
Theorem load_exceptions (H : Host) (w : WadIO) (name : string) (e : exn) :
  snd (load name (UDMFMapEditor_init H w)) = Throw e ->
  load_exn e /\ e <> IndexError.
Proof.
  intro E.
  assert (Hl : load_exn e).
  { destruct (load_scan (WadIO_entries w) name 0 (WadIO_entries w))
      as [[i en] |] eqn:Es.
    - apply scan_found_first in Es. destruct Es as [_ Hf].
      rewrite (load_init_some H w name i Hf) in E.
      destruct (load_span_spec w i (skipn i w) 0 None) as [Hok Hbad];
        [f_equal; lia |].
      destruct (span_ascii (skipn i w)).
      + rewrite (Hok eq_refl) in E.
        destruct (falsy (Some name) || falsy (span_text (skipn i w) None)).
        * injection E as <-. left. reflexivity.
        * unfold _parse, located in E. cbn [ed_data] in E.
          destruct (span_text (skipn i w) None) as [text |].
          -- destruct (UDMF_PARSER_parse H text) as [ast | e'] eqn:Ep;
               [discriminate |].
             injection E as <-. right. right.
             exact (parse_raises H text e' Ep).
          -- injection E as <-. right. right. right. exact I.
      + specialize (Hbad eq_refl).
        destruct (load_span (map snd w) i 0 (WadIO_entries (skipn i w)) None)
          as [data ended].
        simpl in Hbad. subst ended. injection E as <-.
        right. left. reflexivity.
    - assert (Hno : forall j, ~ has_pair w name j).
      { intros j Hp.
        pose proof (load_scan_spec w name (WadIO_entries w) 0 eq_refl) as S.
        rewrite Es in S. apply (S j); [lia | exact Hp]. }
      rewrite (load_init_none H w name Hno) in E.
      injection E as <-. left. reflexivity. }
  split; [exact Hl |].
  intros ->. destruct Hl as [C | [C | [C | C]]];
    try discriminate; exact C.
Qed.

Lemma load_exceptions_witness :
  load_exn UnicodeDecodeError /\ UnicodeDecodeError <> IndexError.
Proof.
  apply (load_exceptions plain_host
           [("MAP01", ""); ("TEXTMAP", String (ascii_of_nat 200) "")]
           "MAP01" UnicodeDecodeError).
  vm_compute. reflexivity.
Defined.

(** X7. On a fresh editor [load(name)] raises the decoding error exactly
    when the span of the first pair for [name] holds, before its first
    [ENDMAP] record, a [TEXTMAP] record with a byte above 127. *)
Theorem load_decode_error_iff (H : Host) (w : WadIO) (name : string) :
  snd (load name (UDMFMapEditor_init H w)) = Throw UnicodeDecodeError
  <-> exists i, first_pair w name i /\ span_ascii (skipn i w) = false.
Proof.
  split.
  - intro E.
    destruct (load_scan (WadIO_entries w) name 0 (WadIO_entries w))
      as [[i en] |] eqn:Es.
    + apply scan_found_first in Es. destruct Es as [_ Hf].
      exists i. split; [exact Hf |].
      rewrite (load_init_some H w name i Hf) in E.
      destruct (load_span_spec w i (skipn i w) 0 None) as [Hok _];
        [f_equal; lia |].
      destruct (span_ascii (skipn i w)); [| reflexivity].
      exfalso. rewrite (Hok eq_refl) in E.
      destruct (falsy (Some name) || falsy (span_text (skipn i w) None));
        [discriminate |].
      unfold _parse, located in E. cbn [ed_data] in E.
      destruct (span_text (skipn i w) None) as [text |]; [| discriminate].
      destruct (UDMF_PARSER_parse H text) as [ast | e'] eqn:Ep;
        [discriminate |].
      injection E as ->.
      destruct (parse_raises H text _ Ep) as [C | C];
        [discriminate | exact C].
    + exfalso.
      assert (Hno : forall j, ~ has_pair w name j).
      { intros j Hp.
        pose proof (load_scan_spec w name (WadIO_entries w) 0 eq_refl) as S.
        rewrite Es in S. apply (S j); [lia | exact Hp]. }
      rewrite (load_init_none H w name Hno) in E. discriminate.
  - intros (i & Hf & Ha).
    rewrite (load_init_some H w name i Hf).
    destruct (load_span_spec w i (skipn i w) 0 None) as [_ Hbad];
      [f_equal; lia |].
    specialize (Hbad Ha).
    destruct (load_span (map snd w) i 0 (WadIO_entries (skipn i w)) None)
      as [data ended].
    simpl in Hbad. subst ended. reflexivity.
Qed.

(** ** Blocks that assign a key more than once, or a key the object uses *)

Lemma init_attributes_app (H : Host) (a b : list (string * value H)) :
  forall self : UDMFObject H,
    init_attributes self (a ++ b)
    = (o <- init_attributes self a ;; init_attributes o b).
Proof.
  induction a as [| [k v] a IH]; intro self; [reflexivity |].
  cbn [app init_attributes].
  destruct (dict_get "_attributes" (ob_dict self)) as [[| | l] |];
    try reflexivity.
  destruct (setattr _ k (AVal v)) as [self2 | e]; [| reflexivity].
  cbn [rbind]. apply IH.
Qed.

(** X8. A block that assigns a key several times builds an object that
    lists each key once, at the position of its first assignment, and
    holds for it the value assigned last; its class is the one
    registered for the identifier of the block. *)
Theorem block_repeated_keys (H : Host) (ident : string)
  (assignments : list (dict (value H))) :
  ordinary_keys (concat assignments) ->
  exists o,
    UDMFSemantics_block (ident, "{", assignments, "}") = Return o
    /\ ob_class o = UDMF_BLOCK_TYPES ident
    /\ getattr o "_attributes"
       = Return (AList (first_keys [] (map fst (concat assignments))))
    /\ forall k,
         In k (map fst (concat assignments)) ->
         exists v,
           last_assigned k (concat assignments) = Some v
           /\ getattr o k = Return (AVal v).
Proof.
  intro Hord. unfold UDMFSemantics_block, UDMFObject_init.
  rewrite fold_updates_concat.
  set (items := concat assignments) in *.
  assert (Hkeys : map fst (dict_update [] items)
                  = first_keys [] (map fst items))
    by (apply (dict_update_keys items [] []); reflexivity).
  assert (Hattrs : ordinary_keys (dict_update [] items)).
  { apply Forall_forall. intros [k v] Hin.
    apply (in_map fst) in Hin. rewrite Hkeys in Hin.
    apply first_keys_incl in Hin. apply in_map_iff in Hin.
    destruct Hin as ([k' v'] & Ek & Hin). simpl in Ek. subst k'.
    exact (proj1 (Forall_forall _ _) Hord _ Hin). }
  destruct (init_attributes_spec H (dict_update [] items)
              (mkObject (UDMF_BLOCK_TYPES ident)
                 [("name", AVal (VStr ident)); ("_attributes", AList [])])
              [] eq_refl Hattrs
              (dict_update_NoDup items [] (NoDup_nil _)))
    as (o & Ho & Hc & Ha & Hg).
  exists o. split; [exact Ho |]. split; [exact Hc |]. split.
  - unfold getattr. rewrite Ha, Hkeys. reflexivity.
  - intros k Hk. destruct (last_assigned_Some k items Hk) as [v Hv].
    exists v. split; [exact Hv |].
    unfold getattr. rewrite Hg.
    + rewrite dict_update_get, Hv. reflexivity.
    + apply reserved_not_attributes.
      apply last_assigned_In in Hv.
      exact (proj1 (Forall_forall _ _) Hord _ Hv).
Qed.

Lemma block_repeated_keys_witness :
  exists o : UDMFObject plain_host,
    UDMFSemantics_block
      ("thing", "{", [[("x", VInt 1)]; [("y", VInt 2)]; [("x", VInt 3)]], "}")
    = Return o
    /\ ob_class o = Thing
    /\ getattr o "_attributes" = Return (AList ["x"; "y"])
    /\ getattr o "x" = Return (AVal (VInt 3)).
Proof.
  destruct (block_repeated_keys plain_host "thing"
              [[("x", VInt 1)]; [("y", VInt 2)]; [("x", VInt 3)]])
    as (o & Ho & Hc & Ha & Hg).
  - repeat constructor.
  - exists o. split; [exact Ho |]. split; [exact Hc |]. split; [exact Ha |].
    destruct (Hg "x" (or_introl eq_refl)) as (v & Hv & Hx).
    injection Hv as <-. exact Hx.
Defined.

(** X9. A block attribute named [_attributes] takes the place of the key
    list of the object: when another attribute follows it, the
    constructor raises [AttributeError]; when it is the last one the
    object is built and holds the value under [_attributes], and
    [serialize] raises [TypeError] unless that value is a string. *)
Theorem attributes_key_replaces_key_list (H : Host) (cls : pyclass)
  (name : option string) (before : dict (value H)) (v : value H) :
  ordinary_keys before ->
  NoDup (map fst before) ->
  (forall kv after,
     UDMFObject_init cls
       (before ++ ("_attributes", v) :: kv :: after)%list name
     = Throw AttributeError)
  /\ exists o,
       UDMFObject_init cls (before ++ [("_attributes", v)])%list name = Return o
       /\ getattr o "_attributes" = Return (AVal v)
       /\ ((forall s, v <> VStr s) ->
           UDMFObject_serialize o = Throw TypeError).
Proof.
  intros Hord Hnd. unfold UDMFObject_init.
  set (self := mkObject cls _).
  destruct (init_attributes_spec H before self [] eq_refl Hord Hnd)
    as (o1 & Ho1 & _ & Ha1 & Hg1).
  assert (Hset : forall rest,
             init_attributes self (before ++ ("_attributes", v) :: rest)%list
             = init_attributes
                 (mkObject (ob_class o1)
                    (dict_set "_attributes" (AVal v)
                       (dict_set "_attributes"
                          (AList (map fst before ++ ["_attributes"])%list)
                          (ob_dict o1))))
                 rest).
  { intro rest. rewrite init_attributes_app, Ho1. cbn [rbind init_attributes].
    rewrite Ha1. reflexivity. }
  split.
  - intros [k2 v2] after. rewrite Hset. cbn [init_attributes ob_dict].
    rewrite dict_get_set_same. reflexivity.
  - rewrite Hset. eexists. split; [reflexivity |].
    split.
    + unfold getattr. cbn [ob_dict]. rewrite dict_get_set_same. reflexivity.
    + intro Hv. unfold UDMFObject_serialize, getattr. cbn [ob_dict].
      rewrite dict_get_set_same.
      rewrite !(dict_get_set_other "name" "_attributes") by discriminate.
      rewrite (Hg1 "name") by discriminate.
      assert (Hname : exists a,
                 match dict_get "name" before with
                 | Some v0 => Some (AVal v0)
                 | None => dict_get "name" (ob_dict self)
                 end = Some a).
      { destruct (dict_get "name" before); eexists; reflexivity. }
      destruct Hname as [a ->]. cbn [rbind].
      destruct v as [z | f | b | s]; try reflexivity.
      exfalso. exact (Hv s eq_refl).
Qed.

Lemma attributes_key_replaces_key_list_witness :
  UDMFObject_init (host := plain_host) Thing
    [("x", VInt 1); ("_attributes", VInt 2); ("y", VInt 3)] (Some "thing")
  = Throw AttributeError
  /\ exists o : UDMFObject plain_host,
       UDMFObject_init Thing [("x", VInt 1); ("_attributes", VInt 2)]
         (Some "thing")
       = Return o
       /\ getattr o "_attributes" = Return (AVal (VInt 2))
       /\ UDMFObject_serialize o = Throw TypeError.
Proof.
  destruct (attributes_key_replaces_key_list plain_host Thing (Some "thing")
              [("x", VInt 1)] (VInt 2))
    as (Hmore & o & Ho & Ha & Hs).
  - repeat constructor.
  - repeat constructor. intros [].
  - split; [exact (Hmore ("y", VInt 3) []) |].
    exists o. split; [exact Ho |]. split; [exact Ha |].
    apply Hs. discriminate.
Defined.

(** X10. An attribute named [__class__] or [__dict__] makes the
    constructor raise [TypeError], and one named [__weakref__] makes it
    raise [AttributeError], whatever follows it: the assignment
    [setattr] refuses ends the loop. *)
Theorem refused_key_ends_construction (H : Host) (cls : pyclass)
  (name : option string) (before after : dict (value H)) (v : value H) :
  ordinary_keys before ->
  NoDup (map fst before) ->
  UDMFObject_init cls (before ++ ("__class__", v) :: after)%list name
  = Throw TypeError
  /\ UDMFObject_init cls (before ++ ("__dict__", v) :: after)%list name
     = Throw TypeError
  /\ UDMFObject_init cls (before ++ ("__weakref__", v) :: after)%list name
     = Throw AttributeError.
Proof.
  intros Hord Hnd. unfold UDMFObject_init.
  set (self := mkObject cls _).
  destruct (init_attributes_spec H before self [] eq_refl Hord Hnd)
    as (o1 & Ho1 & _ & Ha1 & _).
  repeat split; rewrite init_attributes_app, Ho1;
    cbn [rbind init_attributes]; rewrite Ha1; reflexivity.
Qed.

Lemma refused_key_ends_construction_witness :
  UDMFObject_init (host := plain_host) Thing
    [("x", VInt 1); ("__class__", VInt 2); ("y", VInt 3)] (Some "thing")
  = Throw TypeError
  /\ UDMFObject_init (host := plain_host) Thing
       [("x", VInt 1); ("__dict__", VInt 2); ("y", VInt 3)] (Some "thing")
     = Throw TypeError
  /\ UDMFObject_init (host := plain_host) Thing
       [("x", VInt 1); ("__weakref__", VInt 2); ("y", VInt 3)] (Some "thing")
     = Throw AttributeError.
Proof.
  apply (refused_key_ends_construction plain_host Thing (Some "thing")
           [("x", VInt 1)] [("y", VInt 3)] (VInt 2)).
  - repeat constructor.
  - repeat constructor. intros [].
Defined.

(** ** [save] when it fails *)

Lemma save_loop_throws (H : Host) (self : UDMFMapEditor H) (w : WadIO)
  (i : nat) (e : exn) :
  ed_index self = Some i ->
  _wad_data self = map snd w ->
  (text <- UDMFMapEditor_serialize self ;; encode_ascii text) = Throw e ->
  forall records index output,
    skipn index w = records ->
    index <= S i < index + List.length records ->
    save_loop self index (WadIO_entries records) output = Throw e.
Proof.
  intros Hi Hd He.
  induction records as [| [n b] records IH]; intros index output E Hb.
  - simpl in Hb. lia.
  - apply skipn_cons_nth in E. destruct E as [En Er].
    cbn [WadIO_entries map save_loop]. rewrite Hi.
    destruct (Nat.eqb_spec index (i + 1)) as [Ei | Ei].
    + rewrite He. reflexivity.
    + rewrite Hd, nth_error_map, En. cbn [option_map rbind].
      apply (IH (S index) _ Er). simpl in Hb. lia.
Qed.

(** X11. After a load, [save] commits nothing and raises what
    [serialize] raised, or the encoding error when the serialized
    document holds a character above 127: the failure of the one record
    that is rebuilt ends the copy of all the others. *)
Theorem save_fails_with_serialize (H : Host) (w : WadIO) (name : string)
  (loaded self : UDMFMapEditor H) :
  load name (UDMFMapEditor_init H w) = (loaded, Return tt) ->
  _wad_entries self = _wad_entries loaded ->
  _wad_data self = _wad_data loaded ->
  ed_index self = ed_index loaded ->
  (forall e, UDMFMapEditor_serialize self = Throw e -> save self = Throw e)
  /\ (forall text,
        UDMFMapEditor_serialize self = Return text ->
        all_chars is_ascii text = false ->
        save self = Throw UnicodeEncodeError).
Proof.
  intros Hload Hentries Hdata Hindex.
  destruct (load_success_shape H w name loaded Hload)
    as (i & text0 & ast & Hf & _ & _ & _ & _ & _ & ->).
  cbn [_wad_entries _wad_data ed_index] in *.
  assert (Hb : 0 <= S i < 0 + List.length w).
  { destruct Hf as [[_ Ht] _]. apply nth_error_Some_lt in Ht.
    rewrite length_map in Ht. lia. }
  split.
  - intros e He. unfold save. rewrite Hentries.
    apply (save_loop_throws H self w i e Hindex Hdata); auto.
    rewrite He. reflexivity.
  - intros text Hs Ha. unfold save. rewrite Hentries.
    apply (save_loop_throws H self w i _ Hindex Hdata); auto.
    rewrite Hs. cbn [rbind]. unfold encode_ascii. rewrite Ha. reflexivity.
Qed.

Lemma save_fails_with_serialize_witness :
  let w := [("MAP01", ""); ("TEXTMAP", "thing { }"); ("ENDMAP", "")] in
  let loaded := fst (load "MAP01" (UDMFMapEditor_init plain_host w)) in
  let self :=
    mkEditor (ed_name loaded) (ed_data loaded) (ed_index loaded)
      (_wad_entries loaded) (_wad_data loaded) (_nodes loaded)
      [("author", VStr (String (ascii_of_nat 233) ""))] in
  save self = Throw UnicodeEncodeError.
Proof.
  intros w loaded self.
  destruct (save_fails_with_serialize plain_host w "MAP01" loaded self
              ltac:(vm_compute; reflexivity) eq_refl eq_refl eq_refl)
    as [_ Henc].
  eapply Henc; vm_compute; reflexivity.
Defined.

(** X12. When [load] found no map in a container that is not empty, the
    editor still has no index, and [save] raises [TypeError] on the first
    record: nothing is copied. *)
Theorem save_after_failed_load (H : Host) (w : WadIO) (name : string) :
  (forall i, ~ has_pair w name i) ->
  w <> [] ->
  save (fst (load name (UDMFMapEditor_init H w))) = Throw TypeError.
Proof.
  intros Hno Hw. unfold load. cbn [_wad_entries UDMFMapEditor_init].
  rewrite (scan_no_pair w name Hno).
  cbn [falsy ed_name orb fst]. unfold save. cbn [_wad_entries].
  destruct w as [| [n b] w]; [contradiction |]. reflexivity.
Qed.

Lemma save_after_failed_load_witness :
  save (fst (load "MAP01"
               (UDMFMapEditor_init plain_host [("MAP01", ""); ("THINGS", "")])))
  = Throw TypeError.
Proof.
  apply save_after_failed_load; [| discriminate].
  intros i [Hn Ht]. do 2 (destruct i as [| i]; [discriminate |]).
  destruct i; discriminate.
Defined.

(** ** The class of a block *)

Lemma init_attributes_class (H : Host) (items : list (string * value H)) :
  forall self o : UDMFObject H,
    init_attributes self items = Return o -> ob_class o = ob_class self.
Proof.
  induction items as [| [k v] items IH]; intros self o.
  - intros [= <-]. reflexivity.
  - cbn [init_attributes].
    destruct (dict_get "_attributes" (ob_dict self)) as [[| | l] |];
      try discriminate.
    unfold setattr.
    destruct (String.eqb k "__class__" || String.eqb k "__dict__");
      [discriminate |].
    destruct (String.eqb k "__weakref__"); [discriminate |].
    cbn [rbind]. intro E. rewrite (IH _ _ E). reflexivity.
Qed.

(** X13. Whatever attributes a block assigns, the object built for it is
    returned by the accessor of a class exactly when the identifier of
    the block is, letter for letter, the name registered for that class;
    under any other identifier it is a plain [UDMFObject], which only
    [get_nodes(UDMFObject)] returns. *)
Theorem block_class_by_identifier (H : Host) (ident : string)
  (assignments : list (dict (value H))) (o : UDMFObject H) :
  UDMFSemantics_block (ident, "{", assignments, "}") = Return o ->
  (isinstance o Thing = true <-> ident = "thing")
  /\ (isinstance o Vertex = true <-> ident = "vertex")
  /\ (isinstance o LineDef = true <-> ident = "linedef")
  /\ (isinstance o SideDef = true <-> ident = "sidedef")
  /\ (isinstance o Sector = true <-> ident = "sector")
  /\ isinstance o UDMFObjectClass = true.
Proof.
  unfold UDMFSemantics_block, UDMFObject_init. intro E.
  apply init_attributes_class in E. cbn [ob_class] in E.
  unfold isinstance. rewrite E. unfold UDMF_BLOCK_TYPES.
  destruct (String.eqb_spec ident "thing") as [-> | N1];
    [cbn; intuition congruence |].
  destruct (String.eqb_spec ident "vertex") as [-> | N2];
    [cbn; intuition congruence |].
  destruct (String.eqb_spec ident "linedef") as [-> | N3];
    [cbn; intuition congruence |].
  destruct (String.eqb_spec ident "sidedef") as [-> | N4];
    [cbn; intuition congruence |].
  destruct (String.eqb_spec ident "sector") as [-> | N5];
    [cbn; intuition congruence |].
  cbn. intuition congruence.
Qed.

Lemma block_class_by_identifier_witness :
  let o : UDMFObject plain_host :=
    mkObject UDMFObjectClass
      [("name", AVal (VStr "Thing")); ("_attributes", AList ["x"]);
       ("x", AVal (VInt 1))] in
  isinstance o Thing = false /\ isinstance o UDMFObjectClass = true.
Proof.
  intro o.
  destruct (block_class_by_identifier plain_host "Thing" [[("x", VInt 1)]] o
              eq_refl) as (Ht & _ & _ & _ & _ & Hu).
  split; [| exact Hu].
  destruct (isinstance o Thing); [| reflexivity].
  discriminate (proj1 Ht eq_refl).
Defined.

(** ** Numbers with a point *)

Lemma digit_starts_token (c : ascii) :
  is_digit c = true -> token_start c = true /\ is_sign c = false.
Proof. intro Hc. char_cases c; split; reflexivity. Qed.

Lemma re_float_point (sg ip fp rest : string) :
  sg = "" \/ sg = "+" \/ sg = "-" ->
  ip <> "" ->
  all_chars is_digit ip = true ->
  all_chars is_digit fp = true ->
  next_token (sg ++ ip ++ String "." (fp ++ String ";" rest))
  = sg ++ ip ++ String "." (fp ++ String ";" rest)
  /\ re_float (sg ++ ip ++ String "." (fp ++ String ";" rest))
     = Some (sg ++ ip ++ String "." fp, String ";" rest).
Proof.
  intros Hsg Hip Hi Hf.
  destruct ip as [| c ip]; [contradiction |].
  pose proof Hi as Hc. cbn [all_chars] in Hc.
  apply andb_true_iff in Hc. destruct Hc as [Hc _].
  destruct (digit_starts_token c Hc) as [Hstart Hsign].
  assert (Hre : re_float (String c ip ++ String "." (fp ++ String ";" rest))
                = Some (String c ip ++ String "." fp, String ";" rest)
                /\ forall sc,
                     is_sign sc = true ->
                     re_float (String sc
                                 (String c ip
                                  ++ String "." (fp ++ String ";" rest)))
                     = Some (String sc (String c ip ++ String "." fp),
                             String ";" rest)).
  { assert (Hs1 : span is_digit
                    (String c ip ++ String "." (fp ++ String ";" rest))
                  = (String c ip, String "." (fp ++ String ";" rest)))
      by (apply span_append; [exact Hi | reflexivity]).
    assert (Hs2 : span is_digit (fp ++ String ";" rest)
                  = (fp, String ";" rest))
      by (apply span_append; [exact Hf | reflexivity]).
    split.
    - unfold re_float, opt_sign. cbn [append]. rewrite Hsign.
      change (String c (ip ++ String "." (fp ++ String ";" rest)))
        with (String c ip ++ String "." (fp ++ String ";" rest)).
      rewrite Hs1, Hs2. cbn [re_exponent Ascii.eqb Bool.eqb orb].
      rewrite append_nil_r. reflexivity.
    - intros sc Esc. unfold re_float, opt_sign. rewrite Esc.
      rewrite Hs1, Hs2. cbn [re_exponent Ascii.eqb Bool.eqb orb].
      rewrite append_nil_r. reflexivity. }
  destruct Hre as [Hplain Hsigned].
  destruct Hsg as [-> | [-> | ->]].
  - split; [| exact Hplain].
    cbn [append]. apply next_token_start. exact Hstart.
  - split; [apply next_token_start; reflexivity |].
    exact (Hsigned "+"%char eq_refl).
  - split; [apply next_token_start; reflexivity |].
    exact (Hsigned "-"%char eq_refl).
Qed.

(** X14. A run of digits, a point and a run of digits that may be empty,
    with or without a sign, is read as a float whose text is the whole
    lexeme: the point makes it a float even when no digit follows, and
    leading zeros are accepted before the point. *)
Theorem value_rule_float (H : Host) (sg ip fp rest : string) :
  sg = "" \/ sg = "+" \/ sg = "-" ->
  ip <> "" ->
  all_chars is_digit ip = true ->
  all_chars is_digit fp = true ->
  value_rule H (sg ++ ip ++ String "." (fp ++ String ";" rest))
  = Matched (VFloat (float_of_str H (sg ++ ip ++ String "." fp)))
      (String ";" rest).
Proof.
  intros Hsg Hip Hi Hf.
  destruct (re_float_point sg ip fp rest Hsg Hip Hi Hf) as [Hnt Hre].
  unfold value_rule, rule at 1, choice. rewrite Hnt.
  unfold float, rule, pattern. rewrite Hnt, Hre. reflexivity.
Qed.

Lemma value_rule_float_witness :
  value_rule plain_host "-007.;"
  = Matched (VFloat (host := plain_host) "-007.") ";".
Proof.
  apply (value_rule_float plain_host "-" "007" "" "");
    [right; right; reflexivity | discriminate | reflexivity | reflexivity].
Defined.

(** ** The empty document *)

Lemma star_nil {A : Type} (p : parser A) (s r : string) :
  star p s = Matched [] r -> r = s.
Proof.
  rewrite star_eq.
  destruct (p s) as [a rest | c | e]; try discriminate.
  - destruct (Nat.ltb (String.length rest) (String.length s)).
    + destruct (star p rest); discriminate.
    + intros [= <-]. reflexivity.
  - intros [= <-]. reflexivity.
Qed.

(** X15. The parser returns the empty document exactly for a text that
    holds nothing but blanks and comments; any other text yields at
    least one node or an error. *)
Theorem parse_empty_iff_blank (H : Host) (text : string) :
  UDMF_PARSER_parse H text = Return [] <-> next_token text = "".
Proof.
  unfold UDMF_PARSER_parse, translation_unit, rule at 1, pbind.
  rewrite global_expr_list_eq, next_token_idem.
  split.
  - destruct (star (global_expr H) (next_token text)) as [l r | c | e] eqn:Es;
      try discriminate.
    unfold eof. destruct (next_token r) eqn:En; [| discriminate].
    cbn [pret no_action]. intros [= ->].
    apply star_nil in Es. subst r.
    rewrite next_token_idem in En. exact En.
  - intro E. rewrite E.
    rewrite (star_stop (global_expr H) "" false)
      by (apply global_expr_fails; reflexivity).
    reflexivity.
Qed.

(** ** An attribute named like a method *)

Lemma init_attributes_keeps_keys (H : Host) (items : list (string * value H)) :
  forall (self o : UDMFObject H) (k : string),
    init_attributes self items = Return o ->
    In k (map fst (ob_dict self)) \/ In k (map fst items) ->
    In k (map fst (ob_dict o)).
Proof.
  assert (Hset : forall (V : Type) (k k' : string) (a : V) (d : dict V),
             In k (map fst d) \/ k = k' -> In k (map fst (dict_set k' a d))).
  { intros V k k' a d Hk. rewrite dict_set_keys.
    destruct (existsb (String.eqb k') (map fst d)) eqn:E.
    - destruct Hk as [Hk | ->]; [exact Hk |].
      apply existsb_exists in E. destruct E as (x & Hx & Ex).
      apply String.eqb_eq in Ex. subst x. exact Hx.
    - apply in_or_app. destruct Hk as [Hk | ->];
        [left; exact Hk | right; left; reflexivity]. }
  induction items as [| [k0 v0] items IH]; intros self o k.
  - intros [= <-] [Hk | []]. exact Hk.
  - cbn [init_attributes].
    destruct (dict_get "_attributes" (ob_dict self)) as [[| | l] |];
      try discriminate.
    unfold setattr.
    destruct (String.eqb k0 "__class__" || String.eqb k0 "__dict__");
      [discriminate |].
    destruct (String.eqb k0 "__weakref__"); [discriminate |].
    cbn [rbind]. intros E Hk. apply (IH _ _ k E). cbn [ob_dict map fst In].
    destruct Hk as [Hk | [Hk | Hk]].
    + left. apply Hset. left. apply Hset. left. exact Hk.
    + left. apply Hset. right. symmetry. exact Hk.
    + right. exact Hk.
Qed.

Lemma map_result_throws {A B : Type} (f : A -> result B) (pre post : list A)
  (x : A) (e : exn) :
  Forall (fun a => exists b, f a = Return b) pre ->
  f x = Throw e ->
  map_result f (pre ++ x :: post) = Throw e.
Proof.
  intros Hpre Hx. induction Hpre as [| a pre [b Hb] _ IH]; cbn [app map_result].
  - rewrite Hx. reflexivity.
  - rewrite Hb. cbn [rbind]. rewrite IH. reflexivity.
Qed.

(** X16. A block may assign an attribute named [serialize]: the object
    is built, and the attribute hides the method of that name, so that
    serializing a document raises [TypeError] once it reaches this
    object. *)
Theorem serialize_key_hides_method (H : Host) (cls : pyclass)
  (name : option string) (attributes : dict (value H)) (o : UDMFObject H) :
  UDMFObject_init cls attributes name = Return o ->
  In "serialize" (map fst attributes) ->
  method_callable o "serialize" = Throw TypeError
  /\ forall (ed : UDMFMapEditor H) (pre post : list (UDMFObject H)),
       _nodes ed = (pre ++ o :: post)%list ->
       Forall (fun node =>
                 method_callable node "serialize" = Return tt
                 /\ exists text, UDMFObject_serialize node = Return text)
         pre ->
       UDMFMapEditor_serialize ed = Throw TypeError.
Proof.
  unfold UDMFObject_init. intros Hinit Hkey.
  assert (Hm : method_callable o "serialize" = Throw TypeError).
  { unfold method_callable.
    destruct (dict_get_Some "serialize" (ob_dict o)) as [a ->];
      [| reflexivity].
    apply (init_attributes_keeps_keys H attributes _ o _ Hinit).
    right. exact Hkey. }
  split; [exact Hm |].
  intros ed pre post Hnodes Hpre. unfold UDMFMapEditor_serialize.
  rewrite Hnodes.
  rewrite (map_result_throws _ pre post o TypeError).
  - reflexivity.
  - apply Forall_forall. intros node Hin.
    destruct (proj1 (Forall_forall _ _) Hpre node Hin) as [Hc [text Ht]].
    exists text. rewrite Hc. exact Ht.
  - rewrite Hm. reflexivity.
Qed.

Lemma serialize_key_hides_method_witness :
  let o : UDMFObject plain_host :=
    mkObject Thing
      [("name", AVal (VStr "thing")); ("_attributes", AList ["serialize"]);
       ("serialize", AVal (VInt 1))] in
  UDMFMapEditor_serialize (mkEditor None None None [] [] [o] [])
  = Throw TypeError.
Proof.
  intro o.
  destruct (serialize_key_hides_method plain_host Thing (Some "thing")
              [("serialize", VInt 1)] o eq_refl (or_introl eq_refl))
    as [_ Hed].
  apply (Hed _ [] []); [reflexivity | constructor].
Defined.

(** ** What a successful [load] leaves *)

(** X17. When [load] ends normally on a fresh editor, the name asked for
    and the text found are not empty, the text is the last [TEXTMAP]
    record of the span of the first pair, it parses, and the editor
    holds exactly the blocks of that text, in document order, and its
    global assignments: each accessor returns the blocks of its class. *)
Theorem load_success_outcome (H : Host) (w : WadIO) (name : string)
  (ed : UDMFMapEditor H) :
  load name (UDMFMapEditor_init H w) = (ed, Return tt) ->
  exists i text ast,
    first_pair w name i
    /\ name <> "" /\ text <> ""
    /\ span_text (skipn i w) None = Some text
    /\ ed_name ed = Some name /\ ed_index ed = Some i
    /\ ed_data ed = Some text
    /\ UDMF_PARSER_parse H text = Return ast
    /\ _nodes ed = objects_of ast
    /\ (forall type,
          get_nodes ed type
          = filter (fun node => isinstance node type) (objects_of ast))
    /\ forall k,
         dict_get k (_meta ed) = last_assigned k (concat (dicts_of ast)).
Proof.
  intro Hload.
  destruct (load_success_shape H w name ed Hload)
    as (i & text & ast & Hf & Hn & Hx & Ha & Ht & Hp & ->).
  exists i, text, ast. cbn [ed_name ed_index ed_data _nodes _meta].
  repeat (split; [assumption || reflexivity |]).
  intro k. rewrite fold_updates_concat, dict_update_get.
  destruct (last_assigned k (concat (dicts_of ast))); reflexivity.
Qed.

Lemma load_success_outcome_witness :
  let w := [("MAP01", ""); ("TEXTMAP", "a = 1; thing { } a = 2;");
            ("ENDMAP", "")] in
  let ed := fst (load "MAP01" (UDMFMapEditor_init plain_host w)) in
  exists i text ast,
    first_pair w "MAP01" i
    /\ "MAP01" <> "" /\ text <> ""
    /\ span_text (skipn i w) None = Some text
    /\ ed_name ed = Some "MAP01" /\ ed_index ed = Some i
    /\ ed_data ed = Some text
    /\ UDMF_PARSER_parse plain_host text = Return ast
    /\ _nodes ed = objects_of ast
    /\ (forall type,
          get_nodes ed type
          = filter (fun node => isinstance node type) (objects_of ast))
    /\ forall k,
         dict_get k (_meta ed) = last_assigned k (concat (dicts_of ast)).
Proof.
  intros w ed.
  apply (load_success_outcome plain_host w "MAP01" ed).
  vm_compute. reflexivity.
Defined.
